(** * pdf_scanner_enterprise.py: the resumable batch engine

    A shallow embedding of [process_pdfs_enterprise] and of the helpers it
    calls ([save_progress], [load_progress], [save_csv_data],
    [process_pdf_worker]), together with the part of Python's [json] and
    [csv] modules those helpers go through; of [PDFProcessor], which splits
    one document, with the patterns it searches the pages for; and of
    [main], which reads the command line.

    Conventions of the embedding:
    - a Python [str] is a [string]; its characters are the code points
      0..255;
    - a Python [int] that counts something is a [nat];
    - a [float] read from [time.time()] is kept as the decimal text that
      [repr] gives for it, which is what [json.dump] writes; two readings
      are the same float exactly when their texts are equal;
    - a file is the text it holds, and the file system a finite map from
      paths to texts;
    - a document is the list of its pages, and a page is what the two PDF
      libraries show of it: the text [extract_text] gives, whether the
      page can be copied out, and whether its file is left behind when it
      cannot;
    - a statement that can raise is a computation in the monad [prog],
      which threads the state and either returns or raises;
    - what the run cannot decide (the clock, the faults of the disk, the
      order and the outcome of the futures) is read from an environment.

    The [print] calls change nothing the run reads back, and the embedding
    of the coordinator is the run in which each of them returns. A [print]
    that raises is a different run: the coordinator is embedded a second
    time with its [print] calls, [process_pdfs_enterprise_printing], and
    [process_single_pdf] takes what the [print] of its handler does as an
    argument.

    Left out: the [print] calls of [main]; the content of the files the
    workers write, which the coordinator never opens; errors on reading a file that exists; interrupts; the limits of
    the interpreter on the nesting of a JSON text and on the digits of an
    integer in it; the upper bound a platform puts on the size of a pool;
    [check_and_install_dependencies], which imports and installs packages;
    the paths [PDFProcessor.__init__] computes and the directory it
    creates. *)

From Stdlib Require Import Ascii String.
From stdpp Require Import base strings list gmap pretty.

Local Open Scope string_scope.
Local Open Scope list_scope.
Local Open Scope nat_scope.
Local Set Warnings "-register-all".

(** ** Exceptions and results *)

(** The exceptions the embedded statements can raise. [Unmodelled] is not a
    Python exception: it marks the places where the embedding stops (a JSON
    escape above U+00FF, a decoder out of fuel, a checkpoint whose members
    are not lists of strings). *)
Inductive exn : Type :=
  | JSONDecodeError
  | AttributeError
  | OSError
  | ValueError
  | ZeroDivisionError
  | BrokenProcessPool
  | Unmodelled.

Inductive result (A : Type) : Type :=
  | Ok (a : A)
  | Raise (e : exn).
Arguments Ok {A} a.
Arguments Raise {A} e.

#[global] Instance exn_eq_dec : EqDecision exn.
Proof. solve_decision. Defined.

(** ** JSON values, as [json.load] builds them and [json.dump] reads them *)

(** A number keeps its lexeme: the run never computes with a number it read
    from a checkpoint. An object keeps its members in source order. *)
Inductive json : Type :=
  | JNull
  | JBool (b : bool)
  | JNum (lexeme : string)
  | JStr (s : string)
  | JArr (items : list json)
  | JObj (members : list (string * json)).

(** *** Characters the two modules single out *)

Definition chr (n : nat) : string := String (ascii_of_nat n) EmptyString.
Definition quote : string := chr 34.
Definition backslash : string := chr 92.
Definition newline : string := chr 10.
Definition carriage_return : string := chr 13.

(** *** json.dump: encoding *)

Definition hex_digit (n : nat) : string :=
  match n with
  | 0 => "0" | 1 => "1" | 2 => "2" | 3 => "3" | 4 => "4" | 5 => "5"
  | 6 => "6" | 7 => "7" | 8 => "8" | 9 => "9" | 10 => "a" | 11 => "b"
  | 12 => "c" | 13 => "d" | 14 => "e" | _ => "f"
  end.

(** The text of [format(n, '04x')] after a backslash and a [u], for a code
    point below 256. *)
Definition u_escape (n : nat) : string :=
  backslash +:+ "u00" +:+ hex_digit (n / 16) +:+ hex_digit (n mod 16).

(** One character under [ESCAPE_ASCII] and [ESCAPE_DCT] ([ensure_ascii] is
    on by default): the quote, the backslash and everything outside
    [' '..'~'] are escaped. *)
Definition escape_char (c : ascii) : string :=
  let n := nat_of_ascii c in
  if decide (n = 34) then backslash +:+ quote
  else if decide (n = 92) then backslash +:+ backslash
  else if decide (n = 8) then backslash +:+ "b"
  else if decide (n = 9) then backslash +:+ "t"
  else if decide (n = 10) then backslash +:+ "n"
  else if decide (n = 12) then backslash +:+ "f"
  else if decide (n = 13) then backslash +:+ "r"
  else if decide (n < 32 ∨ 126 < n) then u_escape n
  else String c EmptyString.

Fixpoint escape_string (s : string) : string :=
  match s with
  | EmptyString => EmptyString
  | String c r => escape_char c +:+ escape_string r
  end.

(** [py_encode_basestring_ascii] *)
Definition encode_basestring_ascii (s : string) : string :=
  quote +:+ escape_string s +:+ quote.

Fixpoint spaces (n : nat) : string :=
  match n with
  | 0 => EmptyString
  | S k => " " +:+ spaces k
  end.

(** The newline followed by [_indent * level], with [indent=2]. *)
Definition newline_indent (level : nat) : string :=
  newline +:+ spaces (2 * level).

Fixpoint join (sep : string) (chunks : list string) : string :=
  match chunks with
  | [] => EmptyString
  | [c] => c
  | c :: rest => c +:+ sep +:+ join sep rest
  end.

(** [_iterencode] with [indent=2]: the concatenation of the chunks it
    yields. With an indent the item separator is a comma followed by the
    newline and the indentation, the key separator is a colon and a space;
    an empty list is written [[]] and an empty dict [{}]. *)
Fixpoint iterencode (level : nat) (v : json) : string :=
  match v with
  | JNull => "null"
  | JBool true => "true"
  | JBool false => "false"
  | JNum lexeme => lexeme
  | JStr s => encode_basestring_ascii s
  | JArr items =>
      match items with
      | [] => "[]"
      | _ =>
          "[" +:+ newline_indent (S level)
              +:+ join ("," +:+ newline_indent (S level))
                       (map (iterencode (S level)) items)
              +:+ newline_indent level +:+ "]"
      end
  | JObj members =>
      match members with
      | [] => "{}"
      | _ =>
          "{" +:+ newline_indent (S level)
              +:+ join ("," +:+ newline_indent (S level))
                       (map (λ kv, match kv with
                                   | (k, x) => encode_basestring_ascii k +:+ ": "
                                                 +:+ iterencode (S level) x
                                   end) members)
              +:+ newline_indent level +:+ "}"
      end
  end.

(** [json.dump(obj, f, indent=2)]: the text that reaches the file. *)
Definition json_dump (v : json) : string := iterencode 0 v.

(** *** json.load: decoding *)

Definition is_ws (c : ascii) : bool :=
  let n := nat_of_ascii c in
  bool_decide (n = 32 ∨ n = 9 ∨ n = 10 ∨ n = 13).

Definition is_digit (c : ascii) : bool :=
  let n := nat_of_ascii c in bool_decide (48 ≤ n ≤ 57).

(** Value of a hexadecimal digit, as [HEXDIGITS] accepts them. *)
Definition hex_value (c : ascii) : option nat :=
  let n := nat_of_ascii c in
  if bool_decide (48 ≤ n ≤ 57) then Some (n - 48)
  else if bool_decide (65 ≤ n ≤ 70) then Some (n - 55)
  else if bool_decide (97 ≤ n ≤ 102) then Some (n - 87)
  else None.

(** [WHITESPACE.match(s, end).end()] *)
Fixpoint skip_ws (s : string) : string :=
  match s with
  | String c r => if is_ws c then skip_ws r else s
  | EmptyString => s
  end.

(** The [BACKSLASH] table of the decoder. *)
Definition unescape (c : ascii) : option ascii :=
  let n := nat_of_ascii c in
  if decide (n = 34) then Some c
  else if decide (n = 92) then Some c
  else if decide (n = 47) then Some c
  else if decide (n = 98) then Some (ascii_of_nat 8)
  else if decide (n = 102) then Some (ascii_of_nat 12)
  else if decide (n = 110) then Some (ascii_of_nat 10)
  else if decide (n = 114) then Some (ascii_of_nat 13)
  else if decide (n = 116) then Some (ascii_of_nat 9)
  else None.

Definition cons_result (c : ascii) (r : result (string * string))
  : result (string * string) :=
  match r with
  | Ok (s, rest) => Ok (String c s, rest)
  | Raise e => Raise e
  end.

(** [py_scanstring] in strict mode, entered after the opening quote: the
    decoded string and the text after the closing quote. *)
Fixpoint scanstring (s : string) : result (string * string) :=
  match s with
  | EmptyString => Raise JSONDecodeError
  | String c r =>
      let n := nat_of_ascii c in
      if decide (n = 34) then Ok (EmptyString, r)
      else if decide (n = 92) then
        match r with
        | EmptyString => Raise JSONDecodeError
        | String e r1 =>
            if decide (nat_of_ascii e = 117) then
              match r1 with
              | String h1 (String h2 (String h3 (String h4 r2))) =>
                  match hex_value h1, hex_value h2, hex_value h3, hex_value h4 with
                  | Some a, Some b, Some x, Some y =>
                      if decide (a = 0 ∧ b = 0)
                      then cons_result (ascii_of_nat (16 * x + y)) (scanstring r2)
                      else Raise Unmodelled
                  | _, _, _, _ => Raise JSONDecodeError
                  end
              | _ => Raise JSONDecodeError
              end
            else
              match unescape e with
              | Some d => cons_result d (scanstring r1)
              | None => Raise JSONDecodeError
              end
        end
      else if decide (n < 32) then Raise JSONDecodeError
      else cons_result c (scanstring r)
  end.

(** The longest run of decimal digits at the head of [s]. *)
Fixpoint span_digits (s : string) : string * string :=
  match s with
  | String c r =>
      if is_digit c then
        let '(ds, rest) := span_digits r in (String c ds, rest)
      else (EmptyString, s)
  | EmptyString => (EmptyString, s)
  end.

(** The integer part of [NUMBER_RE], without the sign: a lone zero, or a
    non-zero digit followed by digits. *)
Definition lex_int (s : string) : option (string * string) :=
  match s with
  | String c r =>
      if decide (nat_of_ascii c = 48) then Some ("0", r)
      else if is_digit c then
        let '(ds, rest) := span_digits r in Some (String c ds, rest)
      else None
  | EmptyString => None
  end.

(** The optional fraction: a dot and at least one digit. *)
Definition lex_frac (s : string) : string * string :=
  match s with
  | String c r =>
      if decide (nat_of_ascii c = 46) then
        match span_digits r with
        | (EmptyString, _) => (EmptyString, s)
        | (ds, rest) => (String c ds, rest)
        end
      else (EmptyString, s)
  | EmptyString => (EmptyString, s)
  end.

(** The optional exponent: [e] or [E], an optional sign, at least one
    digit. *)
Definition lex_exp (s : string) : string * string :=
  match s with
  | String c r =>
      if decide (nat_of_ascii c = 101 ∨ nat_of_ascii c = 69) then
        match r with
        | String g r1 =>
            if decide (nat_of_ascii g = 43 ∨ nat_of_ascii g = 45) then
              match span_digits r1 with
              | (EmptyString, _) => (EmptyString, s)
              | (ds, rest) => (String c (String g ds), rest)
              end
            else
              match span_digits r with
              | (EmptyString, _) => (EmptyString, s)
              | (ds, rest) => (String c ds, rest)
              end
        | EmptyString => (EmptyString, s)
        end
      else (EmptyString, s)
  | EmptyString => (EmptyString, s)
  end.

(** [NUMBER_RE.match]: the lexeme matched and the text after it. *)
Definition match_number (s : string) : option (string * string) :=
  let '(sign, s1) :=
    match s with
    | String c r => if decide (nat_of_ascii c = 45) then ("-", r) else (EmptyString, s)
    | EmptyString => (EmptyString, s)
    end in
  match lex_int s1 with
  | None => None
  | Some (int, s2) =>
      let '(frac, s3) := lex_frac s2 in
      let '(exp, s4) := lex_exp s3 in
      Some (sign +:+ int +:+ frac +:+ exp, s4)
  end.

(** [s[idx:idx + len(w)] == w]: the text after [w] when [s] starts with it. *)
Fixpoint strip_prefix (w s : string) : option string :=
  match w, s with
  | EmptyString, _ => Some s
  | String a w', String b s' => if decide (a = b) then strip_prefix w' s' else None
  | String _ _, EmptyString => None
  end.

Definition literals : list (string * json) :=
  [ ("null", JNull); ("true", JBool true); ("false", JBool false) ].

Definition constants : list (string * json) :=
  [ ("NaN", JNum "NaN"); ("Infinity", JNum "Infinity");
    ("-Infinity", JNum "-Infinity") ].

Fixpoint match_word (table : list (string * json)) (s : string)
  : option (json * string) :=
  match table with
  | [] => None
  | (w, v) :: rest =>
      match strip_prefix w s with
      | Some s' => Some (v, s')
      | None => match_word rest s
      end
  end.

Definition starts_with (n : nat) (s : string) : bool :=
  match s with
  | String c _ => bool_decide (nat_of_ascii c = n)
  | EmptyString => false
  end.

Definition tail (s : string) : string :=
  match s with
  | String _ r => r
  | EmptyString => s
  end.

(** [scan_once], [JSONArray] and [JSONObject]. [fuel] bounds the nesting of
    calls; [json_loads] starts from twice the length of the text, and a
    decoder that runs out of it reports [Unmodelled]. Two limits of the
    interpreter have no counterpart here: [json.load] raises
    [RecursionError] on a text nested deeper than the recursion limit
    leaves room for, and [ValueError] on an integer of more digits than
    [sys.int_max_str_digits], where this decoder returns a value.
    [parse_items] is the loop of [JSONArray], entered where a value is
    expected; [parse_members] the loop of [JSONObject], entered after the
    quote that opens a key. *)
Fixpoint scan_once (fuel : nat) (s : string) : result (json * string) :=
  match fuel with
  | 0 => Raise Unmodelled
  | S fuel =>
      if starts_with 34 s then
        match scanstring (tail s) with
        | Ok (str, rest) => Ok (JStr str, rest)
        | Raise e => Raise e
        end
      else if starts_with 123 s then
        let s1 := skip_ws (tail s) in
        if starts_with 125 s1 then Ok (JObj [], tail s1)
        else if starts_with 34 s1 then
          match parse_members fuel (tail s1) with
          | Ok (ms, rest) => Ok (JObj ms, rest)
          | Raise e => Raise e
          end
        else Raise JSONDecodeError
      else if starts_with 91 s then
        let s1 := skip_ws (tail s) in
        if starts_with 93 s1 then Ok (JArr [], tail s1)
        else
          match parse_items fuel s1 with
          | Ok (xs, rest) => Ok (JArr xs, rest)
          | Raise e => Raise e
          end
      else
        match match_word literals s with
        | Some r => Ok r
        | None =>
            match match_number s with
            | Some (lexeme, rest) => Ok (JNum lexeme, rest)
            | None =>
                match match_word constants s with
                | Some r => Ok r
                | None => Raise JSONDecodeError
                end
            end
        end
  end
with parse_items (fuel : nat) (s : string) : result (list json * string) :=
  match fuel with
  | 0 => Raise Unmodelled
  | S fuel =>
      match scan_once fuel s with
      | Raise e => Raise e
      | Ok (x, rest) =>
          let s1 := skip_ws rest in
          if starts_with 93 s1 then Ok ([x], tail s1)
          else if starts_with 44 s1 then
            match parse_items fuel (skip_ws (tail s1)) with
            | Ok (xs, rest') => Ok (x :: xs, rest')
            | Raise e => Raise e
            end
          else Raise JSONDecodeError
      end
  end
with parse_members (fuel : nat) (s : string)
  : result (list (string * json) * string) :=
  match fuel with
  | 0 => Raise Unmodelled
  | S fuel =>
      match scanstring s with
      | Raise e => Raise e
      | Ok (key, rest) =>
          let s1 := skip_ws rest in
          if starts_with 58 s1 then
            match scan_once fuel (skip_ws (tail s1)) with
            | Raise e => Raise e
            | Ok (x, rest1) =>
                let s2 := skip_ws rest1 in
                if starts_with 125 s2 then Ok ([(key, x)], tail s2)
                else if starts_with 44 s2 then
                  let s3 := skip_ws (tail s2) in
                  if starts_with 34 s3 then
                    match parse_members fuel (tail s3) with
                    | Ok (ms, rest') => Ok ((key, x) :: ms, rest')
                    | Raise e => Raise e
                    end
                  else Raise JSONDecodeError
                else Raise JSONDecodeError
            end
          else Raise JSONDecodeError
      end
  end.

(** [json.loads(s)]: one value between optional whitespace, and nothing
    after it. *)
Definition json_loads (s : string) : result json :=
  match scan_once (2 * String.length s + 2) (skip_ws s) with
  | Raise e => Raise e
  | Ok (v, rest) =>
      match skip_ws rest with
      | EmptyString => Ok v
      | String _ _ => Raise JSONDecodeError
      end
  end.

(** [dict.get(key, default)] on the dict [json.load] builds from the members
    of an object: of two members with the same key the later one wins. *)
Fixpoint dict_get (key : string) (members : list (string * json)) (default : json)
  : json :=
  match members with
  | [] => default
  | (k, v) :: rest =>
      if decide (k = key) then dict_get key rest v else dict_get key rest default
  end.

(** ** csv.DictWriter: one line per row *)

(** A field is quoted under [QUOTE_MINIMAL] when it holds the delimiter, the
    quote character or a character of the line terminator. *)
Definition is_special (c : ascii) : bool :=
  let n := nat_of_ascii c in
  bool_decide (n = 44 ∨ n = 34 ∨ n = 13 ∨ n = 10).

Fixpoint has_special (s : string) : bool :=
  match s with
  | EmptyString => false
  | String c r => is_special c || has_special r
  end.

(** [doublequote]: a quote inside a field is written twice. *)
Fixpoint double_quotes (s : string) : string :=
  match s with
  | EmptyString => EmptyString
  | String c r =>
      if decide (nat_of_ascii c = 34)
      then String c (String c (double_quotes r))
      else String c (double_quotes r)
  end.

Definition csv_field (s : string) : string :=
  if has_special s then quote +:+ double_quotes s +:+ quote else s.

(** [writer.writerow]: the fields joined by commas and ended by the line
    terminator of the [excel] dialect; a row made of one empty field is
    written as an empty quoted field. *)
Definition csv_line (fields : list string) : string :=
  match fields with
  | [EmptyString] => quote +:+ quote +:+ carriage_return +:+ newline
  | _ => join "," (map csv_field fields) +:+ carriage_return +:+ newline
  end.

(** The dict appended to [csv_data] for one page (lines 145-152). *)
Record row : Type := Row {
  filename : string;
  case_number : string;
  name : string;
  address : string;
  source_file : string;
  page_number : nat
}.

Definition fieldnames : list string :=
  ["filename"; "case_number"; "name"; "address"; "source_file"; "page_number"].

(** [DictWriter._dict_to_list]: the values in the order of [fieldnames], the
    page number through [str]. *)
Definition row_values (r : row) : list string :=
  [filename r; case_number r; name r; address r; source_file r;
   pretty (page_number r)].

Fixpoint concat_strings (chunks : list string) : string :=
  match chunks with
  | [] => EmptyString
  | c :: rest => c +:+ concat_strings rest
  end.

(** What [writeheader] followed by [writerows] writes. *)
Definition csv_text (rows : list row) : string :=
  csv_line fieldnames +:+ concat_strings (map (λ r, csv_line (row_values r)) rows).

(** ** The state: files, clock, pool *)

(** What the run does not decide: the readings of the clock, the fate of
    each attempt to open a file for writing, the number of cores, and what
    the pool delivers.
    [as_completed l] lists, in the order [concurrent.futures.as_completed]
    yields them, the futures of the submissions [l]: each with the path it
    was submitted for ([future_to_pdf[future]]) and with what
    [PDFProcessor(pdf_path).process_single_pdf()] did in the worker: the
    tuple it returned, or the exception that [future.result()] raises. *)
Inductive write_fault : Type :=
  | NoFault
  | OpenFails
  | TornAfter (k : nat).

Definition pdf_result : Type := bool * nat * string * list row.

Record env : Type := Env {
  clock : nat → string;
  fault : nat → write_fault;
  cpu_count : nat;
  as_completed : list string → list (string * result pdf_result)
}.

(** The part of the state that outlives the call.
    [ticks] counts the calls of [time.time()] and [opens] the files opened
    for writing, so that [clock] and [fault] are consulted once per call.
    [submitted] is a ghost field, written by no statement of the source: it
    logs the paths handed to [executor.submit], in order. *)
Record world : Type := World {
  files : gmap string string;
  ticks : nat;
  opens : nat;
  submitted : list string
}.

(** The local variables of [process_pdfs_enterprise], and the world. *)
Record frame : Type := Frame {
  completed_files : list string;
  failed_files : list string;
  all_csv_data : list row;
  total_pages : nat;
  outside : world
}.

(** ** Computations that may raise *)

Definition prog (S A : Type) : Type := S → S * result A.

#[global] Instance prog_ret {S} : MRet (prog S) := λ A a s, (s, Ok a).

#[global] Instance prog_bind {S} : MBind (prog S) := λ A B k m s,
  match m s with
  | (s', Ok a) => k a s'
  | (s', Raise e) => (s', Raise e)
  end.

Definition raise {S A} (e : exn) : prog S A := λ s, (s, Raise e).

Definition get {S} : prog S S := λ s, (s, Ok s).

Definition modify {S} (f : S → S) : prog S unit := λ s, (f s, Ok tt).

(** Lift a library or worker result into a computation. *)
Definition of_result {S A} (r : result A) : prog S A := λ s, (s, r).

(** [try: body / except Exception: handler]: the handler starts from the
    state the body had reached when it raised. *)
Definition try_except {S A} (body : prog S A) (handler : exn → prog S A)
  : prog S A := λ s,
  match body s with
  | (s', Ok a) => (s', Ok a)
  | (s', Raise e) => handler e s'
  end.

(** [for x in l: body x] *)
Fixpoint for_each {S A} (l : list A) (body : A → prog S unit) : prog S unit :=
  match l with
  | [] => mret tt
  | x :: rest => body x ;; for_each rest body
  end.

(** Run a computation on the world inside a frame. *)
Definition on_outside {A} (m : prog world A) : prog frame A := λ fr,
  let '(w, r) := m (outside fr) in
  (Frame (completed_files fr) (failed_files fr) (all_csv_data fr)
         (total_pages fr) w, r).

(** ** The primitives of the world *)

(** [time.time()] *)
Definition time_time (E : env) : prog world string := λ w,
  (World (files w) (S (ticks w)) (opens w) (submitted w), Ok (clock E (ticks w))).

(** [os.path.exists(path)] followed by [f.read()] on the file opened for
    reading. *)
Definition read_file (path : string) : prog world (option string) := λ w,
  (w, Ok (files w !! path)).

(** [with open(path, 'w') as f: f.write(text)]. Opening truncates the file;
    the text replaces the content. When the attempt is faulty, either the
    open fails and the file is untouched, or the write stops after [k]
    characters and the file is left with that prefix; both raise
    [OSError]. *)
Definition write_file (E : env) (path text : string) : prog world unit := λ w,
  match fault E (opens w) with
  | NoFault =>
      (World (<[path := text]> (files w)) (ticks w) (S (opens w)) (submitted w),
       Ok tt)
  | OpenFails =>
      (World (files w) (ticks w) (S (opens w)) (submitted w), Raise OSError)
  | TornAfter k =>
      (World (<[path := String.substring 0 k text]> (files w)) (ticks w)
             (S (opens w)) (submitted w),
       Raise OSError)
  end.

(** [executor.submit(process_pdf_worker, pdf_path)] for each path, then
    [as_completed(future_to_pdf)]. *)
Definition submit_all (E : env) (pdf_paths : list string)
  : prog world (list (string * result pdf_result)) := λ w,
  (World (files w) (ticks w) (opens w) (submitted w ++ pdf_paths),
   Ok (as_completed E pdf_paths)).

(** ** The helpers of the source *)

(** [process_pdf_worker] (lines 160-164): the tuple of
    [process_single_pdf], with the path in front. *)
Definition process_pdf_worker (pdf_path : string) (r : result pdf_result)
  : result (string * bool * nat * string * list row) :=
  match r with
  | Ok (success, pages, output_dir, csv_data) =>
      Ok (pdf_path, success, pages, output_dir, csv_data)
  | Raise e => Raise e
  end.

(** The dict built at lines 168-172. *)
Definition progress_dict (completed failed : list string) (timestamp : string)
  : json :=
  JObj [ ("completed", JArr (map JStr completed));
         ("failed", JArr (map JStr failed));
         ("timestamp", JNum timestamp) ].

(** [save_progress] (lines 166-174): the clock is read while the dict is
    built, before the file is opened. *)
Definition save_progress (E : env) (completed failed : list string)
    (progress_file : string) : prog world unit :=
  t ← time_time E;
  write_file E progress_file (json_dump (progress_dict completed failed t)).

(** [load_progress] (lines 176-182). [progress.get] exists only on a dict;
    what it returns is not inspected. *)
Definition load_progress (progress_file : string) : prog world (json * json) :=
  content ← read_file progress_file;
  match content with
  | None => mret (JArr [], JArr [])
  | Some text =>
      progress ← of_result (json_loads text);
      match progress with
      | JObj members =>
          mret (dict_get "completed" members (JArr []),
                dict_get "failed" members (JArr []))
      | _ => raise AttributeError
      end
  end.

(** [save_csv_data] (lines 184-196). *)
Definition save_csv_data (E : env) (all_csv_data : list row)
    (csv_filename : string) : prog world unit :=
  match all_csv_data with
  | [] => mret tt
  | _ => write_file E csv_filename (csv_text all_csv_data)
  end.

Definition default_csv_filename : string := "pdf_processing_results.csv".
Definition default_progress_file : string := "processing_progress.json".

(** ** The coordinator: [process_pdfs_enterprise] (lines 198-271) *)

(** Lines 229-231. *)
Definition record_completed (pdf_path : string) (pages : nat)
    (csv_data : list row) : prog frame unit :=
  modify (λ fr, Frame (completed_files fr ++ [pdf_path]) (failed_files fr)
                      (all_csv_data fr ++ csv_data) (total_pages fr + pages)
                      (outside fr)).

(** Lines 234 and 242. *)
Definition record_failed (pdf_path : string) : prog frame unit :=
  modify (λ fr, Frame (completed_files fr) (failed_files fr ++ [pdf_path])
                      (all_csv_data fr) (total_pages fr) (outside fr)).

(** Lines 237-239. *)
Definition checkpoint_if_due (E : env) (progress_file : string) : prog frame unit :=
  fr ← get;
  if decide (length (completed_files fr ++ failed_files fr) mod 10 = 0)
  then on_outside (save_progress E (completed_files fr) (failed_files fr)
                                 progress_file)
  else mret tt.

(** The body of the loop (lines 224-243), for one future. The [try] covers
    the result of the future, the bookkeeping and the periodic save; the
    handler records the path the future was submitted for. The three
    [print] calls of the body return here; [handle_future_printing] below
    has them. *)
Definition handle_future (E : env) (progress_file : string)
    (arrival : string * result pdf_result) : prog frame unit :=
  let '(pdf_path, outcome) := arrival in
  try_except
    ('(pdf_path_result, success, pages, output_dir, csv_data) ←
         of_result (process_pdf_worker pdf_path outcome);
     (if success : bool
      then record_completed pdf_path_result pages csv_data
      else record_failed pdf_path_result);;
     checkpoint_if_due E progress_file)
    (λ _, record_failed pdf_path).

(** The lists of a loaded checkpoint, read at the type the source declares
    for them, [List[str]]. *)
Definition as_str (v : json) : option string :=
  match v with
  | JStr s => Some s
  | _ => None
  end.

Definition as_str_list (v : json) : option (list string) :=
  match v with
  | JArr items => mapM as_str items
  | _ => None
  end.

(** Line 213. *)
Definition remaining_files (pdf_paths completed failed : list string)
  : list string :=
  filter (λ f, (f ∉ completed) ∧ (f ∉ failed)) pdf_paths.

(** Lines 211-215. A checkpoint whose members are not lists of strings is
    where the embedding stops. *)
Definition resume_from (progress_file : string) (pdf_paths : list string)
  : prog frame (list string) :=
  '(c, f) ← on_outside (load_progress progress_file);
  match as_str_list c, as_str_list f with
  | Some completed, Some failed =>
      modify (λ fr, Frame completed failed (all_csv_data fr) (total_pages fr)
                          (outside fr));;
      mret (remaining_files pdf_paths completed failed)
  | _, _ => raise Unmodelled
  end.

(** A division of the report (lines 262-263). *)
Definition divide_by {S} (divisor_is_zero : bool) : prog S unit :=
  if divisor_is_zero then raise ZeroDivisionError else mret tt.

(** [ProcessPoolExecutor(max_workers=...)] refuses a bound below one, with
    [ValueError]. It refuses as well a bound the platform cannot serve:
    above 61 on Windows, from [2**31 - 1] on elsewhere. These refusals have
    no counterpart here, and the statements that need the pool to start
    bound it by 61. *)
Definition new_executor {S} (max_workers : Z) : prog S unit :=
  if decide (max_workers ≤ 0)%Z then raise ValueError else mret tt.

Definition process_pdfs_enterprise (E : env) (pdf_paths : list string)
    (max_workers : option Z) (resume : bool) (progress_file : string)
  : prog frame (nat * nat) :=
  let max_workers := default (Z.of_nat (Nat.min (cpu_count E) 8)) max_workers in
  modify (λ fr, Frame [] [] [] 0 (outside fr));;
  pdf_paths ← (if resume then resume_from progress_file pdf_paths
               else mret pdf_paths);
  start_time ← on_outside (time_time E);
  new_executor max_workers;;
  futures ← on_outside (submit_all E pdf_paths);
  for_each futures (handle_future E progress_file);;
  fr ← get;
  on_outside (save_csv_data E (all_csv_data fr) default_csv_filename);;
  on_outside (save_progress E (completed_files fr) (failed_files fr)
                            progress_file);;
  end_time ← on_outside (time_time E);
  divide_by (bool_decide (length (completed_files fr ++ failed_files fr) = 0));;
  divide_by (bool_decide (end_time = start_time));;
  mret (length (completed_files fr), length (failed_files fr)).

(** The exit status [main] ends with (lines 307-310): 1 when some item
    failed, and 1 as well when the call raised, since [main] catches
    nothing. *)
Definition exit_status (r : result (nat * nat)) : nat :=
  match r with
  | Ok (_, failed) => if decide (0 < failed) then 1 else 0
  | Raise _ => 1
  end.

(** ** re: the patterns of the source *)

(** [str.isspace] on one character, which is also what [\s] matches in a
    [str] pattern. *)
Definition is_space (c : ascii) : bool :=
  let n := nat_of_ascii c in
  bool_decide (9 ≤ n ≤ 13 ∨ 28 ≤ n ≤ 32 ∨ n = 133 ∨ n = 160).

(** The lower case of an ASCII letter; every other character is left as it
    is. *)
Definition ascii_lower (c : ascii) : ascii :=
  let n := nat_of_ascii c in
  if bool_decide (65 ≤ n ≤ 90) then ascii_of_nat (n + 32) else c.

Inductive quantifier : Type :=
  | Once
  | ZeroOrMore
  | OneOrMore.

(** One item of a pattern: a set of characters, how often it repeats, and
    whether it stands inside the parentheses of group 1. Every pattern of
    the source is a sequence of such items. *)
Record atom : Type := Atom {
  accepts : ascii → bool;
  how_many : quantifier;
  in_group : bool
}.

(** A literal character under [re.IGNORECASE], on the characters a [string]
    holds. Beyond them the flag lets an [i] of a pattern match U+0130 and
    U+0131 as well, an [s] U+017F and a [k] U+212A. *)
Definition letter (l : ascii) : atom :=
  Atom (λ c, bool_decide (ascii_lower c = ascii_lower l)) Once false.

Fixpoint literal (s : string) : list atom :=
  match s with
  | EmptyString => []
  | String l r => letter l :: literal r
  end.

(** [\s+] and [\s*] *)
Definition spaces1 : atom := Atom is_space OneOrMore false.
Definition spaces0 : atom := Atom is_space ZeroOrMore false.

(** [[A-Za-z0-9\-]] on the characters a [string] holds: the ASCII letters,
    the ASCII digits and the hyphen. Under [re.IGNORECASE] the class accepts
    four characters more, all above U+00FF: U+0130, U+0131, U+017F and
    U+212A, which fold to an ASCII letter. *)
Definition is_appeal_char (c : ascii) : bool :=
  let n := nat_of_ascii c in
  bool_decide (65 ≤ n ≤ 90 ∨ 97 ≤ n ≤ 122 ∨ 48 ≤ n ≤ 57 ∨ n = 45).

(** [([A-Za-z0-9\-]+)] and [([^\n]+)] *)
Definition appeal_chars : atom := Atom is_appeal_char OneOrMore true.
Definition rest_of_line : atom :=
  Atom (λ c, bool_decide (nat_of_ascii c ≠ 10)) OneOrMore true.

Definition keep (a : atom) (c : ascii) (g : string) : string :=
  if in_group a then String c g else g.

(** A repeated item: it takes as many characters as it can and gives them
    back one at a time while [rest], the items after it, fail. *)
Fixpoint match_repeat (a : atom) (rest : string → option string) (s : string)
  : option string :=
  match s with
  | String c s' =>
      if accepts a c then
        match match_repeat a rest s' with
        | Some g => Some (keep a c g)
        | None => rest s
        end
      else rest s
  | EmptyString => rest s
  end.

(** [pattern.match] at the head of [s]: the text of group 1 when the items
    match there. *)
Fixpoint match_at (p : list atom) (s : string) : option string :=
  match p with
  | [] => Some EmptyString
  | a :: p' =>
      match how_many a, s with
      | ZeroOrMore, _ => match_repeat a (match_at p') s
      | _, EmptyString => None
      | Once, String c s' =>
          if accepts a c then keep a c <$> match_at p' s' else None
      | OneOrMore, String c s' =>
          if accepts a c then keep a c <$> match_repeat a (match_at p') s'
          else None
      end
  end.

(** [re.search]: the match at the leftmost position that has one. *)
Fixpoint re_search (p : list atom) (s : string) : option string :=
  match match_at p s with
  | Some g => Some g
  | None =>
      match s with
      | String _ s' => re_search p s'
      | EmptyString => None
      end
  end.

(** [str.strip()] *)
Fixpoint lstrip (s : string) : string :=
  match s with
  | String c r => if is_space c then lstrip r else s
  | EmptyString => EmptyString
  end.

Fixpoint rstrip (s : string) : string :=
  match s with
  | String c r =>
      match rstrip r with
      | EmptyString => if is_space c then EmptyString else String c EmptyString
      | r' => String c r'
      end
  | EmptyString => EmptyString
  end.

Definition strip (s : string) : string := rstrip (lstrip s).

(** ** [PDFProcessor]: one document (lines 44-158) *)

(** A page as the two libraries show it: what [page.extract_text()] gives
    (a text, [None], or an exception), and what becomes of the iteration
    that copies the page out. [copies] is false when a statement of the
    iteration raises: the [print] in the handler of an extraction (lines 73
    and 116), taking the page from either reader, [add_page], opening the
    output file, or [pdf_writer.write]. [leaves_file] is read only then: it
    tells whether the exception comes after line 141 has opened the output
    file, which is then in the directory, empty or with a part of the
    page. *)
Record page : Type := Page {
  extract_text : result (option string);
  copies : bool;
  leaves_file : bool
}.

(** Line 60 and line 66. *)
Definition appeal_pattern : list atom :=
  literal "Appeal" ++ [spaces1] ++ literal "No." ++ [spaces0; appeal_chars].
Definition fallback_pattern : list atom :=
  literal "Appeal" ++ [spaces1; appeal_chars].

(** [extract_appeal_number_from_page] (lines 54-74): what the call returns.
    The handler prints before it returns; when that [print] raises the call
    raises, and the page does not copy. *)
Definition extract_appeal_number_from_page (p : page) : option string :=
  match extract_text p with
  | Ok (Some text) =>
      if decide (text = EmptyString) then None
      else match re_search appeal_pattern text with
           | Some g => Some (strip g)
           | None =>
               match re_search fallback_pattern text with
               | Some g => Some (strip g)
               | None => None
               end
           end
  | Ok None => None
  | Raise _ => None
  end.

(** A label followed by [\s*([^\n]+)]. *)
Definition labelled (label : string) : list atom :=
  literal label ++ [spaces0; rest_of_line].

(** Lines 84-89 and 99-104. *)
Definition name_patterns : list (list atom) :=
  [ labelled "Company/Applicant:"; labelled "Applicant:"; labelled "Name:";
    labelled "Property Owner:" ].
Definition address_patterns : list (list atom) :=
  [ labelled "Property Location:"; labelled "Address:";
    labelled "Property Address:"; labelled "Location:" ].

(** The loops at lines 91-96 and 106-111: the first pattern that is found
    decides, and the default is the empty string. *)
Fixpoint first_match (patterns : list (list atom)) (text : string) : string :=
  match patterns with
  | [] => EmptyString
  | p :: rest =>
      match re_search p text with
      | Some g => strip g
      | None => first_match rest text
      end
  end.

(** [extract_person_info_from_page] (lines 76-117): the values of the keys
    ["name"] and ["address"] of what the call returns. As above, a [print]
    of the handler that raises makes the page one that does not copy. *)
Definition extract_person_info_from_page (p : page) : string * string :=
  match extract_text p with
  | Ok (Some text) =>
      if decide (text = EmptyString) then (EmptyString, EmptyString)
      else (first_match name_patterns text, first_match address_patterns text)
  | Ok None => (EmptyString, EmptyString)
  | Raise _ => (EmptyString, EmptyString)
  end.

(** Line 137. *)
Definition page_filename (appeal_number : string) (page_num : nat) : string :=
  "Case_Number_" +:+ appeal_number +:+ "_Page_Num_" +:+ pretty (page_num + 1)
  +:+ ".pdf".

(** The local [csv_data] of [process_single_pdf], and two ghost fields for
    the output directory: the names of the files written in full, in order,
    and the names of the files opened and not written in full. *)
Record splitting : Type := Splitting {
  csv_data : list row;
  page_files : list string;
  partial_files : list string
}.

Fixpoint enumerate {A} (start : nat) (l : list A) : list (nat * A) :=
  match l with
  | [] => []
  | x :: rest => (start, x) :: enumerate (S start) rest
  end.

(** The body of the loop over the pages (lines 127-152). *)
Definition split_page (input_name : string) (numbered : nat * page)
  : prog splitting unit :=
  let '(page_num, p) := numbered in
  let appeal_number := extract_appeal_number_from_page p in
  let person_info := extract_person_info_from_page p in
  let appeal_number :=
    match appeal_number with
    | None => "UNKNOWN"
    | Some EmptyString => "UNKNOWN"
    | Some a => a
    end in
  let filename := page_filename appeal_number page_num in
  (if copies p
   then modify (λ st, Splitting (csv_data st) (page_files st ++ [filename])
                                (partial_files st))
   else (if leaves_file p
         then modify (λ st, Splitting (csv_data st) (page_files st)
                                      (partial_files st ++ [filename]))
         else mret tt);;
        raise OSError);;
  modify (λ st,
    Splitting (csv_data st ++ [Row filename appeal_number person_info.1
                                   person_info.2 input_name (page_num + 1)])
              (page_files st) (partial_files st)).

(** [process_single_pdf] (lines 119-158) for the document at
    [input_pdf_path]: [input_name] is [input_pdf_path.name], [output_dir]
    is [str(self.output_dir)], and [document] is what the two readers find
    there: the pages, or the exception that opening the file raises.
    [print_error] is what the [print] of line 157 does when the call gets
    there: it returns, or it raises (the output is closed, or its encoding
    cannot write the path). That [print] stands in the handler, so what it
    raises leaves the call. *)
Definition process_single_pdf (input_name output_dir : string)
    (document : result (list page)) (print_error : result unit)
  : prog splitting pdf_result :=
  modify (λ st, Splitting [] (page_files st) (partial_files st));;
  try_except
    (pages ← of_result document;
     let total_pages := length pages in
     for_each (enumerate 0 pages) (split_page input_name);;
     st ← get;
     mret (true, total_pages, output_dir, csv_data st))
    (λ _, of_result print_error;; mret (false, 0, output_dir, [])).

(** ** [main] (lines 273-310) *)

(** [s.startswith(prefix)], [s.endswith(suffix)], [c in s] *)
Definition startswith (s prefix : string) : bool :=
  match strip_prefix prefix s with
  | Some _ => true
  | None => false
  end.

Definition endswith (s suffix : string) : bool :=
  startswith (String.rev s) (String.rev suffix).

Fixpoint contains (s : string) (c : ascii) : bool :=
  match s with
  | EmptyString => false
  | String a r => bool_decide (a = c) || contains r c
  end.

(** [s.split(sep)] for a separator of one character. *)
Fixpoint str_split (sep : ascii) (s : string) : list string :=
  match s with
  | EmptyString => [EmptyString]
  | String c r =>
      if decide (c = sep) then EmptyString :: str_split sep r
      else match str_split sep r with
           | [] => [String c EmptyString]
           | part :: parts => String c part :: parts
           end
  end.

(** [int(text)]: blanks around, a sign, then decimal digits, single
    underscores allowed between two digits. The blanks [int] strips are not
    those of [str.strip]. More than 4300 digits are refused, the default of
    [sys.int_max_str_digits]. *)
Definition is_int_space (c : ascii) : bool :=
  let n := nat_of_ascii c in
  bool_decide (9 ≤ n ≤ 13 ∨ n = 32 ∨ n = 133 ∨ n = 160).

Fixpoint lstrip_int (s : string) : string :=
  match s with
  | String c r => if is_int_space c then lstrip_int r else s
  | EmptyString => EmptyString
  end.

Fixpoint rstrip_int (s : string) : string :=
  match s with
  | String c r =>
      match rstrip_int r with
      | EmptyString => if is_int_space c then EmptyString else String c EmptyString
      | r' => String c r'
      end
  | EmptyString => EmptyString
  end.

(** The value of the digits of [s] after [acc], and how many there are;
    [after_digit] tells whether the character before was a digit. *)
Fixpoint digits_value (s : string) (acc : Z) (count : nat) (after_digit : bool)
  : option (Z * nat) :=
  match s with
  | EmptyString => if after_digit then Some (acc, count) else None
  | String c r =>
      if is_digit c
      then digits_value r (10 * acc + Z.of_nat (nat_of_ascii c - 48))%Z (S count) true
      else if bool_decide (nat_of_ascii c = 95) && after_digit
      then digits_value r acc count false
      else None
  end.

Definition int (text : string) : result Z :=
  let s := rstrip_int (lstrip_int text) in
  let '(negative, digits) :=
    match s with
    | String c r =>
        if decide (nat_of_ascii c = 45) then (true, r)
        else if decide (nat_of_ascii c = 43) then (false, r)
        else (false, s)
    | EmptyString => (false, s)
    end in
  match digits_value digits 0 0 false with
  | Some (v, count) =>
      if decide (4300 < count) then Raise ValueError
      else Ok (if negative then (- v)%Z else v)
  | None => Raise ValueError
  end.

(** The three locals the loop over the arguments sets (lines 282-284). *)
Record options : Type := Options {
  pdf_files : list string;
  max_workers : option Z;
  resume : bool
}.

(** The body of the loop over [sys.argv[1:]] (lines 287-294). An argument
    that starts with [--workers=] has a second part. *)
Definition parse_arg (arg : string) : prog options unit :=
  if decide (arg = "--resume")
  then modify (λ o, Options (pdf_files o) (max_workers o) true)
  else if startswith arg "--workers="
  then n ← of_result (int (str_split "=" arg !!! 1));
       modify (λ o, Options (pdf_files o) (Some n) (resume o))
  else if endswith arg ".pdf"
  then modify (λ o, Options (pdf_files o ++ [arg]) (max_workers o) (resume o))
  else mret tt.

(** [main]: the exit status of the process. [sys.exit(1)] ends it with 1,
    and so does an exception, which [main] does not catch. [glob_glob] is
    [glob.glob] on the file system of the run. *)
Definition main (E : env) (glob_glob : string → list string)
    (argv : list string) (fr : frame) : frame * nat :=
  if decide (length argv < 2) then (fr, 1)
  else
    match for_each (drop 1 argv) parse_arg (Options [] None false) with
    | (_, Raise _) => (fr, 1)
    | (o, Ok _) =>
        match pdf_files o with
        | [] => (fr, 1)
        | _ =>
            let pdf_files :=
              if bool_decide (length argv = 2) && contains (argv !!! 1) "*"
              then glob_glob (argv !!! 1)
              else pdf_files o in
            let '(fr', r) :=
              process_pdfs_enterprise E pdf_files (max_workers o) (resume o)
                                      default_progress_file fr in
            (fr', exit_status r)
        end
    end.

(** ** The lines the coordinator prints (lines 196-270) *)

(** The coordinator above is the run in which every [print] returns. Here
    the [print] calls are back in, for the statements about a [print] that
    raises. A line is named after the statement that prints it, with the
    values it shows. *)
Inductive line : Type :=
  | LProcessing (pdf_paths : nat) (max_workers : Z)
  | LResuming (completed failed remaining : nat)
  | LCompleted (pdf_path : string) (pages : nat) (output_dir : string)
  | LFailed (pdf_path : string)
  | LException (pdf_path : string) (e : exn)
  | LCsvSaved (csv_filename : string)
  | LRule (after_blank_line : bool)
  | LProcessingComplete
  | LTotalFiles (n : nat)
  | LSuccessful (n : nat)
  | LFailedCount (n : nat)
  | LTotalPages (n : nat)
  | LProcessingTime (start_time end_time : string)
  | LAverageTime (start_time end_time : string) (n : nat)
  | LPagesPerSecond (pages : nat) (start_time end_time : string)
  | LCsvRecords (n : nat)
  | LFailedFiles
  | LFailedFile (pdf_path : string).

(** [print(...)]. [out] tells what becomes of a line: it is written, or the
    call raises, because the output is closed or because its encoding has
    no character for one of the line. *)
Definition print_line {S} (out : line → result unit) (l : line) : prog S unit :=
  of_result (out l).

(** The body of the loop (lines 224-243) with its three [print] calls: two
    inside the [try], one in the handler, whose exception leaves the
    loop. *)
Definition handle_future_printing (out : line → result unit) (E : env)
    (progress_file : string) (arrival : string * result pdf_result)
  : prog frame unit :=
  let '(pdf_path, outcome) := arrival in
  try_except
    ('(pdf_path_result, success, pages, output_dir, csv_data) ←
         of_result (process_pdf_worker pdf_path outcome);
     (if success : bool
      then record_completed pdf_path_result pages csv_data;;
           print_line out (LCompleted pdf_path_result pages output_dir)
      else record_failed pdf_path_result;;
           print_line out (LFailed pdf_path_result));;
     checkpoint_if_due E progress_file)
    (λ e, record_failed pdf_path;; print_line out (LException pdf_path e)).

(** [save_csv_data] with the [print] of line 196. *)
Definition save_csv_data_printing (out : line → result unit) (E : env)
    (all_csv_data : list row) (csv_filename : string) : prog world unit :=
  match all_csv_data with
  | [] => mret tt
  | _ => write_file E csv_filename (csv_text all_csv_data);;
         print_line out (LCsvSaved csv_filename)
  end.

(** Lines 211-215 with the [print] of line 214. *)
Definition resume_from_printing (out : line → result unit)
    (progress_file : string) (pdf_paths : list string)
  : prog frame (list string) :=
  '(c, f) ← on_outside (load_progress progress_file);
  match as_str_list c, as_str_list f with
  | Some completed, Some failed =>
      modify (λ fr, Frame completed failed (all_csv_data fr) (total_pages fr)
                          (outside fr));;
      let remaining := remaining_files pdf_paths completed failed in
      print_line out (LResuming (length completed) (length failed)
                                (length remaining));;
      mret remaining
  | _, _ => raise Unmodelled
  end.

(** [process_pdfs_enterprise] with every [print] of lines 198-271. The two
    divisions stand inside the lines 262 and 263, and are computed before
    the line is printed. *)
Definition process_pdfs_enterprise_printing (out : line → result unit) (E : env)
    (pdf_paths : list string) (max_workers : option Z) (resume : bool)
    (progress_file : string) : prog frame (nat * nat) :=
  let max_workers := default (Z.of_nat (Nat.min (cpu_count E) 8)) max_workers in
  print_line out (LProcessing (length pdf_paths) max_workers);;
  modify (λ fr, Frame [] [] [] 0 (outside fr));;
  pdf_paths ← (if resume then resume_from_printing out progress_file pdf_paths
               else mret pdf_paths);
  start_time ← on_outside (time_time E);
  new_executor max_workers;;
  futures ← on_outside (submit_all E pdf_paths);
  for_each futures (handle_future_printing out E progress_file);;
  fr ← get;
  on_outside (save_csv_data_printing out E (all_csv_data fr) default_csv_filename);;
  on_outside (save_progress E (completed_files fr) (failed_files fr)
                            progress_file);;
  end_time ← on_outside (time_time E);
  let processed := length (completed_files fr ++ failed_files fr) in
  for_each [ LRule true; LProcessingComplete; LRule false;
             LTotalFiles processed;
             LSuccessful (length (completed_files fr));
             LFailedCount (length (failed_files fr));
             LTotalPages (total_pages fr);
             LProcessingTime start_time end_time ] (print_line out);;
  divide_by (bool_decide (processed = 0));;
  print_line out (LAverageTime start_time end_time processed);;
  divide_by (bool_decide (end_time = start_time));;
  print_line out (LPagesPerSecond (total_pages fr) start_time end_time);;
  print_line out (LCsvRecords (length (all_csv_data fr)));;
  match failed_files fr with
  | [] => mret tt
  | _ => print_line out LFailedFiles;;
         for_each (failed_files fr) (λ failed, print_line out (LFailedFile failed))
  end;;
  mret (length (completed_files fr), length (failed_files fr)).

(** * Definitions used by the statements *)

(** ** A run, cut into pieces *)

(** What one attempt to write a file does to the files, and whether it
    raises. *)
Definition written (E : env) (path text : string) (w : world)
  : gmap string string * result unit :=
  match fault E (opens w) with
  | NoFault => (<[path := text]> (files w), Ok tt)
  | OpenFails => (files w, Raise OSError)
  | TornAfter k => (<[path := String.substring 0 k text]> (files w), Raise OSError)
  end.

(** The frame after the bookkeeping of a returned tuple (lines 228-235). *)
Definition booked (pdf_path : string) (r : pdf_result) (fr : frame) : frame :=
  let '(success, pages, _, csv_data) := r in
  if success
  then Frame (completed_files fr ++ [pdf_path]) (failed_files fr)
             (all_csv_data fr ++ csv_data) (total_pages fr + pages) (outside fr)
  else Frame (completed_files fr) (failed_files fr ++ [pdf_path])
             (all_csv_data fr) (total_pages fr) (outside fr).

(** The frame with its world replaced. *)
Definition with_outside (fr : frame) (w : world) : frame :=
  Frame (completed_files fr) (failed_files fr) (all_csv_data fr) (total_pages fr) w.

(** The frame once the handler of the loop has run (line 242). *)
Definition fail_again (pdf_path : string) (fr : frame) : frame :=
  Frame (completed_files fr) (failed_files fr ++ [pdf_path]) (all_csv_data fr)
        (total_pages fr) (outside fr).

(** The test of line 238. *)
Definition due (fr : frame) : Prop :=
  length (completed_files fr ++ failed_files fr) mod 10 = 0.

#[global] Instance due_dec fr : Decision (due fr).
Proof. unfold due. apply _. Defined.

(** What one iteration of the loop makes of a frame, for the future of
    path [p] with outcome [o]: the four ways through the [try] statement. *)
Inductive handled (E : env) (pf p : string) (o : result pdf_result) (fr : frame)
  : frame → Prop :=
  | handled_raised e :
      o = Raise e →
      handled E pf p o fr (fail_again p fr)
  | handled_quiet r :
      o = Ok r → ¬ due (booked p r fr) →
      handled E pf p o fr (booked p r fr)
  | handled_saved r :
      let fr1 := booked p r fr in
      let saved := save_progress E (completed_files fr1) (failed_files fr1) pf
                                 (outside fr1) in
      o = Ok r → due fr1 → saved.2 = Ok tt →
      handled E pf p o fr (with_outside fr1 saved.1)
  | handled_save_raised r e :
      let fr1 := booked p r fr in
      let saved := save_progress E (completed_files fr1) (failed_files fr1) pf
                                 (outside fr1) in
      o = Ok r → due fr1 → saved.2 = Raise e →
      handled E pf p o fr (fail_again p (with_outside fr1 saved.1)).

(** The frame after the loop has handled the futures [l]. *)
Definition loop (E : env) (pf : string) (l : list (string * result pdf_result))
    (fr : frame) : frame :=
  (for_each l (handle_future E pf) fr).1.

(** The lists of the checkpoint, when it loads and holds lists of strings. *)
Definition loaded (pf : string) (w : world) : option (list string * list string) :=
  match (load_progress pf w).2 with
  | Ok (jc, jf) =>
      match as_str_list jc, as_str_list jf with
      | Some c, Some f => Some (c, f)
      | _, _ => None
      end
  | Raise _ => None
  end.

(** The lists a run starts from: empty, or the ones of the checkpoint. *)
Definition starting_lists (resume : bool) (pf : string) (w : world)
  : option (list string * list string) :=
  if resume then loaded pf w else Some ([], []).

(** The paths handed to the pool. *)
Definition to_submit (resume : bool) (pdf_paths c0 f0 : list string) : list string :=
  if resume then remaining_files pdf_paths c0 f0 else pdf_paths.

(** The bound on the pool (lines 202-203). *)
Definition workers (E : env) (max_workers : option Z) : Z :=
  default (Z.of_nat (Nat.min (cpu_count E) 8)) max_workers.

(** The frame when the loop starts: the clock has been read once and the
    paths are submitted. *)
Definition entry_frame (c0 f0 todo : list string) (w : world) : frame :=
  Frame c0 f0 [] 0
        (World (files w) (S (ticks w)) (opens w) (submitted w ++ todo)).

(** The frame when the pool has drained. *)
Definition drained (E : env) (pf : string) (c0 f0 todo : list string) (w : world)
  : frame :=
  loop E pf (as_completed E todo) (entry_frame c0 f0 todo w).

(** The frame of a run after [k] futures have been handled. *)
Definition point (E : env) (pf : string) (c0 f0 todo : list string) (w : world)
    (k : nat) : frame :=
  loop E pf (take k (as_completed E todo)) (entry_frame c0 f0 todo w).

(** The statements after the loop (lines 245-271), from the frame the loop
    leaves and the reading taken at line 217. *)
Definition report (E : env) (pf start_time : string) : prog frame (nat * nat) :=
  fr ← get;
  on_outside (save_csv_data E (all_csv_data fr) default_csv_filename);;
  on_outside (save_progress E (completed_files fr) (failed_files fr) pf);;
  end_time ← on_outside (time_time E);
  divide_by (bool_decide (length (completed_files fr ++ failed_files fr) = 0));;
  divide_by (bool_decide (end_time = start_time));;
  mret (length (completed_files fr), length (failed_files fr)).

(** The records of the futures that returned a success, in the order the
    futures arrive. *)
Definition records_of (l : list (string * result pdf_result)) : list row :=
  concat (map (λ a, match a.2 with
                    | Ok (true, _, _, csv_data) => csv_data
                    | _ => []
                    end) l).

(** ** Assumptions on the environment *)

(** No write is faulty. *)
Definition no_fault (E : env) : Prop := ∀ n, fault E n = NoFault.

(** The pool yields every future once: the paths of what arrives are the
    submitted paths, in some order. *)
Definition delivers (E : env) : Prop :=
  ∀ l, (as_completed E l).*1 ≡ₚ l.

(** Every future returns: none makes [future.result()] raise. *)
Definition all_return (l : list (string * result pdf_result)) : Prop :=
  Forall (λ a, ∃ r, a.2 = Ok r) l.

(** ** The text of a checkpoint *)

(** The text of a checkpoint before the reading of the clock. *)
Definition checkpoint_head (c f : list string) : string :=
  "{" +:+ newline_indent 1
      +:+ encode_basestring_ascii "completed" +:+ ": "
      +:+ iterencode 1 (JArr (map JStr c)) +:+ "," +:+ newline_indent 1
      +:+ encode_basestring_ascii "failed" +:+ ": "
      +:+ iterencode 1 (JArr (map JStr f)) +:+ "," +:+ newline_indent 1
      +:+ encode_basestring_ascii "timestamp" +:+ ": ".

(** The text of a checkpoint after the reading of the clock. *)
Definition checkpoint_tail : string := newline_indent 0 +:+ "}".

(** ** Reading a checkpoint back *)

(** The text of the items of a list of strings at [level], up to the
    closing bracket, followed by [rest]. *)
Definition items_text (level : nat) (xs : list string) (rest : string) : string :=
  join ("," +:+ newline_indent (S level)) (map (iterencode (S level)) (map JStr xs))
    +:+ newline_indent level +:+ "]" +:+ rest.

(** A clock reading that [json.load] reads back as a number when it stands
    at the end of a checkpoint. *)
Definition number_text (t : string) : Prop :=
  match_number (t +:+ checkpoint_tail) = Some (t, checkpoint_tail).

(** A JSON value with nothing nested below a list: a constant, a string,
    or a list of strings. *)
Inductive flat : json → Prop :=
  | flat_null : flat JNull
  | flat_bool b : flat (JBool b)
  | flat_str s : flat (JStr s)
  | flat_strs xs : flat (JArr (map JStr xs)).

(** The text of a checkpoint file with [c] and [f] under the two keys, as
    [json.dump] with [indent=2] writes it. *)
Definition checkpoint_of (c f : json) : string :=
  json_dump (JObj [("completed", c); ("failed", f)]).

(** The number of items of a list. *)
Definition items_of (v : json) : nat :=
  match v with
  | JArr items => length items
  | _ => 0
  end.

(** Only decimal digits. *)
Fixpoint all_digits (s : string) : bool :=
  match s with
  | EmptyString => true
  | String c r => is_digit c && all_digits r
  end.

(** ** Reading a dataset back *)

(** To count the rows of a dataset the text is read back. The source has no
    reader; this one follows the description of the [excel] dialect
    ([_csv.c], without the strict mode): fields are separated by commas,
    records ended by a carriage return, a line feed or both, a field that
    starts with a quote runs to the next quote that is not doubled. *)
Inductive char_class : Type := Quote | Comma | CR | LF | Other.

(** The characters the reader tells apart. *)
Definition classify (c : ascii) : char_class :=
  let n := nat_of_ascii c in
  if decide (n = 34) then Quote
  else if decide (n = 44) then Comma
  else if decide (n = 13) then CR
  else if decide (n = 10) then LF
  else Other.

(** The states of the reader. *)
Inductive reader_state : Type :=
  | StartRecord
  | StartField
  | InField
  | InQuoted
  | QuoteInQuoted
  | AfterCR.

(** The field being read, the fields of the record being read, and the
    records read so far. *)
Record reader : Type := Reader {
  r_state : reader_state;
  r_field : string;
  r_record : list string;
  r_rows : list (list string)
}.

(** Add a character to the field being read. *)
Definition add_char (st : reader_state) (c : ascii) (r : reader) : reader :=
  Reader st (r_field r +:+ String c EmptyString) (r_record r) (r_rows r).

(** Close the field being read. *)
Definition end_field (r : reader) : reader :=
  Reader StartField EmptyString (r_record r ++ [r_field r]) (r_rows r).

(** Close the field and the record being read. *)
Definition end_record (next : reader_state) (r : reader) : reader :=
  Reader next EmptyString [] (r_rows r ++ [r_record r ++ [r_field r]]).

(** An empty line is an empty record. *)
Definition blank_line (next : reader_state) (r : reader) : reader :=
  Reader next EmptyString [] (r_rows r ++ [[]]).

(** A character at the start of a field. *)
Definition start_field (r : reader) (c : ascii) : reader :=
  match classify c with
  | Quote => Reader InQuoted (r_field r) (r_record r) (r_rows r)
  | Comma => end_field r
  | CR => end_record AfterCR r
  | LF => end_record StartRecord r
  | Other => add_char InField c r
  end.

(** A character at the start of a record. *)
Definition start_record (r : reader) (c : ascii) : reader :=
  match classify c with
  | CR => blank_line AfterCR r
  | LF => blank_line StartRecord r
  | _ => start_field r c
  end.

(** One step of the reader. *)
Definition read_char (r : reader) (c : ascii) : reader :=
  match r_state r with
  | StartRecord => start_record r c
  | AfterCR =>
      match classify c with
      | LF => Reader StartRecord (r_field r) (r_record r) (r_rows r)
      | _ => start_record r c
      end
  | StartField => start_field r c
  | InField =>
      match classify c with
      | Comma => end_field r
      | CR => end_record AfterCR r
      | LF => end_record StartRecord r
      | _ => add_char InField c r
      end
  | InQuoted =>
      match classify c with
      | Quote => Reader QuoteInQuoted (r_field r) (r_record r) (r_rows r)
      | _ => add_char InQuoted c r
      end
  | QuoteInQuoted =>
      match classify c with
      | Quote => add_char InQuoted c r
      | Comma => end_field r
      | CR => end_record AfterCR r
      | LF => end_record StartRecord r
      | Other => add_char InField c r
      end
  end.

(** The reader run over a text. *)
Fixpoint read_all (r : reader) (s : string) : reader :=
  match s with
  | EmptyString => r
  | String c s' => read_all (read_char r c) s'
  end.

(** At the end of the text a record that was begun is closed. *)
Definition finish (r : reader) : list (list string) :=
  match r_state r with
  | StartRecord | AfterCR => r_rows r
  | _ => r_rows r ++ [r_record r ++ [r_field r]]
  end.

(** The records of a text. *)
Definition csv_rows (text : string) : list (list string) :=
  finish (read_all (Reader StartRecord EmptyString [] []) text).

(** What is pending once the text of a field has been read: the next comma
    closes the field, the next carriage return closes the record. *)
Definition pending (f : string) (rec : list string) (rows : list (list string))
    (r : reader) : Prop :=
  read_char r "," = Reader StartField EmptyString (rec ++ [f]) rows ∧
  (r_state r ≠ StartRecord →
   read_char r (ascii_of_nat 13)
   = Reader AfterCR EmptyString [] (rows ++ [rec ++ [f]])).

(** ** Concrete environments and inputs *)

(** A clock whose readings grow and print as JSON numbers. *)
Definition ticking_clock (n : nat) : string :=
  "170000000" +:+ pretty n +:+ ".5".

(** A pool that yields the futures in the order [order] gives, each with
    what [work] says of its path. *)
Definition pool_of (order : list string → list string)
    (work : string → result pdf_result) (l : list string)
  : list (string * result pdf_result) :=
  map (λ p, (p, work p)) (order l).

(** The record of a one-page document without an appeal number. *)
Definition one_page (p : string) : row :=
  Row ("Case_Number_UNKNOWN_Page_Num_1.pdf") "UNKNOWN" EmptyString EmptyString p 1.

(** Every document has one page and is split without error. *)
Definition all_succeed (p : string) : result pdf_result :=
  Ok (true, 1, "split pdfs", [one_page p]).

(** Documents whose name starts with [bad] cannot be read, those whose name
    starts with [gone] make the worker raise; the others succeed. *)
Definition some_fail (p : string) : result pdf_result :=
  if String.prefix "bad" p then Ok (false, 0, "split pdfs", [])
  else if String.prefix "gone" p then Raise OSError
  else all_succeed p.

(** No faulty write, four cores, futures arriving in reverse order of
    submission. *)
Definition quiet_env (work : string → result pdf_result) : env :=
  Env ticking_clock (λ _, NoFault) 4 (pool_of reverse work).

(** No file, nothing submitted yet. *)
Definition empty_world : world := World ∅ 0 0 [].

(** A frame around a world; the call resets the local variables anyway. *)
Definition fresh_frame (w : world) : frame := Frame [] [] [] 0 w.

(** A world in which an earlier run has left a checkpoint at [pf]. *)
Definition world_with_checkpoint (pf : string) (completed failed : list string)
  : world :=
  World {[ pf := json_dump (progress_dict completed failed "1699999999.25") ]}
        0 0 [].

(** The first write is cut before its first character, the others are not
    faulty. *)
Definition first_write_torn (n : nat) : write_fault :=
  match n with
  | 0 => TornAfter 0
  | _ => NoFault
  end.

(** Every write is cut after [k] characters. *)
Definition always_torn (k : nat) : env :=
  Env ticking_clock (λ _, TornAfter k) 4 (pool_of id all_succeed).

(** Ten documents. *)
Definition ten_paths : list string :=
  ["d0.pdf"; "d1.pdf"; "d2.pdf"; "d3.pdf"; "d4.pdf";
   "d5.pdf"; "d6.pdf"; "d7.pdf"; "d8.pdf"; "d9.pdf"].

(** Two records, one with a comma in a field and one with quotes. *)
Definition two_rows : list row :=
  [ Row "Case_Number_A-12_Page_Num_1.pdf" "A-12" "Doe, Jane" "1 Main St" "in.pdf" 1;
    Row "Case_Number_UNKNOWN_Page_Num_2.pdf" "UNKNOWN" EmptyString
        ("Flat " +:+ quote +:+ "B" +:+ quote) "in.pdf" 2 ].

(** A checkpoint file whose [completed] is a number and whose [failed] is a
    string: a JSON object, but no record of two lists of ids. *)
Definition malformed_checkpoint : string :=
  "{" +:+ quote +:+ "completed" +:+ quote +:+ ": 7, "
      +:+ quote +:+ "failed" +:+ quote +:+ ": " +:+ quote +:+ "zzz" +:+ quote +:+ "}".

(** ** Patterns, pages and documents *)

(** Every character of [s] passes the test [P]. *)
Fixpoint all_chars (P : ascii → bool) (s : string) : bool :=
  match s with
  | EmptyString => true
  | String c r => P c && all_chars P r
  end.

(** The characters group 1 of a pattern can hold. *)
Definition group_accepts (p : list atom) (c : ascii) : bool :=
  existsb (λ a, in_group a && accepts a c) p.

(** [[^\n]] *)
Definition not_a_newline (c : ascii) : bool := bool_decide (nat_of_ascii c ≠ 10).

(** The address patterns without the third one. *)
Definition address_patterns_in_use : list (list atom) :=
  [ labelled "Property Location:"; labelled "Address:"; labelled "Location:" ].

(** [g] stands in [text], and what follows it there, if anything, is a
    character that [stop] holds. *)
Definition occurs_up_to (stop : ascii → bool) (g text : string) : Prop :=
  ∃ x y, text = x +:+ g +:+ y ∧
         match y with
         | String c _ => stop c = true
         | EmptyString => True
         end.

(** The case number a page is filed under (lines 128-132). *)
Definition case_number_of (p : page) : string :=
  match extract_appeal_number_from_page p with
  | None => "UNKNOWN"
  | Some EmptyString => "UNKNOWN"
  | Some a => a
  end.

(** The record of page [page_num] (lines 145-152). *)
Definition page_row (input_name : string) (numbered : nat * page) : row :=
  Row (page_filename (case_number_of numbered.2) numbered.1)
      (case_number_of numbered.2)
      (extract_person_info_from_page numbered.2).1
      (extract_person_info_from_page numbered.2).2
      input_name (numbered.1 + 1).

(** A character of a file name that [process_single_pdf] builds. *)
Definition is_name_char (c : ascii) : bool :=
  is_appeal_char c || bool_decide (nat_of_ascii c = 95 ∨ nat_of_ascii c = 46).

(** The characters that take a name out of its directory, or cut it: the
    slash, the backslash and NUL. *)
Definition is_separator (c : ascii) : bool :=
  let n := nat_of_ascii c in bool_decide (n = 47 ∨ n = 92 ∨ n = 0).

(** The characters a case number must not hold for its file name to be
    read back: the separators, the blanks, and the underscore and the dot
    that frame it there. *)
Definition frames_case_number (c : ascii) : bool :=
  is_separator c || is_space c
  || bool_decide (nat_of_ascii c = 95 ∨ nat_of_ascii c = 46).

(** The file that a page which does not copy leaves in the directory, if
    any: the one opened for it at line 141. *)
Definition left_behind (numbered : nat * page) : list string :=
  if leaves_file numbered.2
  then [page_filename (case_number_of numbered.2) numbered.1]
  else [].

(** What the handler of [process_single_pdf] ends with (lines 157-158):
    the tuple of a failure, unless its [print] raises. *)
Definition reported_failure (output_dir : string) (print_error : result unit)
  : result pdf_result :=
  match print_error with
  | Ok _ => Ok (false, 0, output_dir, [])
  | Raise e => Raise e
  end.

(** An outcome that comes from [process_single_pdf]: the future raised
    (in [PDFProcessor.__init__], or in the handler of the call), or it
    returns what some call returned. *)
Definition from_splitter (o : result pdf_result) : Prop :=
  match o with
  | Raise _ => True
  | Ok r => ∃ input_name output_dir document print_error st,
      (process_single_pdf input_name output_dir document print_error st).2 = Ok r
  end.

(** The workers of the pool run [process_single_pdf]. *)
Definition splits (E : env) : Prop :=
  ∀ l, Forall (λ a, from_splitter a.2) (as_completed E l).

(** Three pages: one with an appeal number, a name and an address, one
    without text, one whose text cannot be extracted. *)
Definition sample_pages : list page :=
  [ Page (Ok (Some ("Notice of Appeal No. 12-AB" +:+ newline
                    +:+ "Name:  Jane Doe " +:+ newline
                    +:+ "Property Address: 1 Main St"))) true false;
    Page (Ok None) true false;
    Page (Raise OSError) true false ].

(** Documents by path: those that start with [gone] cannot be opened, those
    that start with [torn] have a fourth page whose file is opened and not
    written in full. *)
Definition sample_documents (pdf_path : string) : result (list page) :=
  if String.prefix "gone" pdf_path then Raise OSError
  else if String.prefix "torn" pdf_path
  then Ok (sample_pages ++ [Page (Ok None) false true])
  else Ok sample_pages.

(** A worker on these documents, whose [print] returns. *)
Definition sample_worker (pdf_path : string) : result pdf_result :=
  (process_single_pdf pdf_path "split pdfs" (sample_documents pdf_path) (Ok tt)
                      (Splitting [] [] [])).2.

(** ** The command line *)

(** The arguments the loop of [main] takes for a bound on the pool, and
    those it takes for a document. *)
Definition is_workers (arg : string) : bool := startswith arg "--workers=".

Definition is_document (arg : string) : bool :=
  negb (is_workers arg) && endswith arg ".pdf".

(** The bound an argument [--workers=...] asks for. *)
Definition workers_value (arg : string) : result Z :=
  int (str_split "=" arg !!! 1).

(** The arguments that reach the warning of line 294. *)
Definition is_skipped (arg : string) : bool :=
  bool_decide (arg ≠ "--resume") && negb (is_workers arg) && negb (endswith arg ".pdf").

(** The documents [main] hands to the coordinator (lines 296-305). *)
Definition documents_of (glob_glob : string → list string) (argv : list string)
  : list string :=
  if bool_decide (length argv = 2) && contains (argv !!! 1) "*"
  then glob_glob (argv !!! 1)
  else filter is_document (drop 1 argv).

(** A directory in which no pattern matches. *)
Definition no_glob (pattern : string) : list string := [].

(** ** More environments *)

(** An outcome that puts its path in the list of the failed ones. *)
Definition fails (o : result pdf_result) : Prop :=
  match o with
  | Ok (success, _, _, _) => success = false
  | Raise _ => True
  end.

(** The first file opened for writing cannot be opened. *)
Definition first_open_fails (n : nat) : write_fault :=
  match n with
  | 0 => OpenFails
  | _ => NoFault
  end.

(** A clock that always gives the same reading. *)
Definition stuck_clock (n : nat) : string := "1700000000.5".

(** The line of a returned tuple (lines 232 and 235). *)
Definition line_of (pdf_path : string) (r : pdf_result) : line :=
  let '(success, pages, output_dir, _) := r in
  if success then LCompleted pdf_path pages output_dir else LFailed pdf_path.

(** An output that writes every line. *)
Definition writes_all (out : line → result unit) : Prop := ∀ l, out l = Ok tt.

(** An output that cannot write the name of the paths under [secret]. *)
Definition no_secret (l : line) : result unit :=
  match l with
  | LCompleted p _ _ | LFailed p | LException p _ | LFailedFile p =>
      if String.prefix "secret" p then Raise ValueError else Ok tt
  | _ => Ok tt
  end.

(** * Properties *)

(** ** Running a computation *)

Lemma bind_run {S A B} (m : prog S A) (k : A → prog S B) (s : S) :
  (m ≫= k) s = match m s with
               | (s', Ok a) => k a s'
               | (s', Raise e) => (s', Raise e)
               end.
Proof. reflexivity. Qed.

Lemma on_outside_run {A} (m : prog world A) (fr : frame) :
  on_outside m fr =
    (Frame (completed_files fr) (failed_files fr) (all_csv_data fr)
           (total_pages fr) (m (outside fr)).1,
     (m (outside fr)).2).
Proof. unfold on_outside. by destruct (m (outside fr)). Qed.

Lemma write_file_run E path text w :
  write_file E path text w =
    (World (written E path text w).1 (ticks w) (S (opens w)) (submitted w),
     (written E path text w).2).
Proof. unfold write_file, written. by destruct (fault E (opens w)). Qed.

Lemma save_progress_run E c f pf w :
  save_progress E c f pf w =
    (World (written E pf (json_dump (progress_dict c f (clock E (ticks w)))) w).1
           (S (ticks w)) (S (opens w)) (submitted w),
     (written E pf (json_dump (progress_dict c f (clock E (ticks w)))) w).2).
Proof.
  unfold save_progress. rewrite bind_run. cbn [time_time].
  rewrite write_file_run. reflexivity.
Qed.

Lemma handle_future_raised E pf p e fr :
  handle_future E pf (p, Raise e) fr = (fail_again p fr, Ok tt).
Proof. reflexivity. Qed.

Lemma handle_future_returned E pf p r fr :
  handle_future E pf (p, Ok r) fr =
    let fr1 := booked p r fr in
    if decide (due fr1) then
      let saved := save_progress E (completed_files fr1) (failed_files fr1) pf
                                 (outside fr1) in
      match saved.2 with
      | Ok _ => (with_outside fr1 saved.1, Ok tt)
      | Raise _ => (fail_again p (with_outside fr1 saved.1), Ok tt)
      end
    else (fr1, Ok tt).
Proof.
  destruct r as [[[success pages] od] csv].
  unfold handle_future, try_except, checkpoint_if_due. cbn [process_pdf_worker].
  rewrite bind_run. cbn [of_result]. rewrite bind_run.
  destruct success; cbn [record_completed record_failed modify booked];
    rewrite bind_run; cbn [get];
    (case_decide as Hdue; [rewrite decide_True by exact Hdue|
                           rewrite decide_False by exact Hdue; reflexivity]);
    rewrite on_outside_run; cbn -[save_progress];
    match goal with |- context [save_progress ?a ?b ?c ?d ?e] =>
      destruct (save_progress a b c d e) as [w' [[]|e']] end; reflexivity.
Qed.

(** The loop never raises: whatever a future does ends in one of the two
    lists. *)
Lemma handle_future_ok E pf a fr : (handle_future E pf a fr).2 = Ok tt.
Proof.
  destruct a as [p [r|e]]; [|reflexivity].
  rewrite handle_future_returned. cbv zeta.
  case_decide; [|reflexivity].
  by destruct (save_progress _ _ _ _ _).2.
Qed.

Lemma for_each_handle_future E pf l fr :
  for_each l (handle_future E pf) fr = (loop E pf l fr, Ok tt).
Proof.
  unfold loop. revert fr. induction l as [|a l IH]; intros fr; [reflexivity|].
  cbn [for_each]. rewrite bind_run.
  pose proof (handle_future_ok E pf a fr) as Hok.
  destruct (handle_future E pf a fr) as [fr1 r1]. cbn in Hok. subst r1.
  rewrite IH. reflexivity.
Qed.

Lemma loop_nil E pf fr : loop E pf [] fr = fr.
Proof. reflexivity. Qed.

Lemma loop_cons E pf a l fr :
  loop E pf (a :: l) fr = loop E pf l (handle_future E pf a fr).1.
Proof.
  unfold loop. cbn [for_each]. rewrite bind_run.
  pose proof (handle_future_ok E pf a fr) as Hok.
  destruct (handle_future E pf a fr) as [fr1 r1]. cbn in Hok. by subst r1.
Qed.

Lemma loop_app E pf l1 l2 fr :
  loop E pf (l1 ++ l2) fr = loop E pf l2 (loop E pf l1 fr).
Proof.
  revert fr. induction l1 as [|a l1 IH]; intros fr; [reflexivity|].
  cbn [app]. rewrite !loop_cons. apply IH.
Qed.

Lemma loop_snoc E pf l a fr :
  loop E pf (l ++ [a]) fr = (handle_future E pf a (loop E pf l fr)).1.
Proof. rewrite loop_app, loop_cons, loop_nil. reflexivity. Qed.

(** ** Strings *)

Lemma append_cons (c : ascii) (s1 s2 : string) :
  String c s1 +:+ s2 = String c (s1 +:+ s2).
Proof. reflexivity. Qed.

Lemma append_nil_l (s : string) : EmptyString +:+ s = s.
Proof. reflexivity. Qed.

Lemma append_assoc (s1 s2 s3 : string) : (s1 +:+ s2) +:+ s3 = s1 +:+ s2 +:+ s3.
Proof.
  induction s1 as [|c s1 IH]; [done|]. rewrite !append_cons. by f_equal.
Qed.

Lemma append_nil_r (s : string) : s +:+ EmptyString = s.
Proof. induction s as [|c s IH]; [done|]. rewrite append_cons. by f_equal. Qed.

Lemma length_append (s1 s2 : string) :
  String.length (s1 +:+ s2) = String.length s1 + String.length s2.
Proof.
  induction s1 as [|c s1 IH]; [done|]. rewrite append_cons. cbn. by rewrite IH.
Qed.

(** ** The shape of a run *)

Lemma load_progress_world pf w : (load_progress pf w).1 = w.
Proof.
  unfold load_progress. rewrite bind_run. cbn [read_file].
  destruct (files w !! pf) as [text|]; [|reflexivity].
  rewrite bind_run. cbn [of_result].
  destruct (json_loads text) as [[]|]; reflexivity.
Qed.

Lemma load_progress_result pf w :
  (load_progress pf w).2 =
    match files w !! pf with
    | None => Ok (JArr [], JArr [])
    | Some text =>
        match json_loads text with
        | Raise e => Raise e
        | Ok (JObj members) =>
            Ok (dict_get "completed" members (JArr []),
                dict_get "failed" members (JArr []))
        | Ok _ => Raise AttributeError
        end
    end.
Proof.
  unfold load_progress. rewrite bind_run. cbn [read_file].
  destruct (files w !! pf) as [text|]; [|reflexivity].
  rewrite bind_run. cbn [of_result].
  destruct (json_loads text) as [[]|]; reflexivity.
Qed.

(** What loads depends on the files alone. *)
Lemma loaded_files pf w w' : files w = files w' → loaded pf w = loaded pf w'.
Proof. intros H. unfold loaded. by rewrite !load_progress_result, H. Qed.

Lemma resume_from_run pf pdf_paths fr :
  resume_from pf pdf_paths fr =
    match (load_progress pf (outside fr)).2 with
    | Ok (jc, jf) =>
        match as_str_list jc, as_str_list jf with
        | Some c, Some f =>
            (Frame c f (all_csv_data fr) (total_pages fr) (outside fr),
             Ok (remaining_files pdf_paths c f))
        | _, _ => (fr, Raise Unmodelled)
        end
    | Raise e => (fr, Raise e)
    end.
Proof.
  unfold resume_from. rewrite bind_run, on_outside_run, load_progress_world.
  destruct fr as [c f a t w]. cbn [completed_files failed_files all_csv_data
    total_pages outside].
  destruct (load_progress pf w).2 as [[jc jf]|e]; [|reflexivity].
  destruct (as_str_list jc), (as_str_list jf); reflexivity.
Qed.

(** A run, cut at the loop: the start, the loop on what the pool delivers,
    the statements after it. *)
Lemma process_pdfs_enterprise_run E pdf_paths mw resume pf fr :
  process_pdfs_enterprise E pdf_paths mw resume pf fr =
    let w := outside fr in
    match (if resume then (load_progress pf w).2 else Ok (JArr [], JArr [])) with
    | Raise e => (Frame [] [] [] 0 w, Raise e)
    | Ok _ =>
        match starting_lists resume pf w with
        | None => (Frame [] [] [] 0 w, Raise Unmodelled)
        | Some (c0, f0) =>
            let todo := to_submit resume pdf_paths c0 f0 in
            if decide (workers E mw ≤ 0)%Z
            then (Frame c0 f0 [] 0
                        (World (files w) (S (ticks w)) (opens w) (submitted w)),
                  Raise ValueError)
            else report E pf (clock E (ticks w)) (drained E pf c0 f0 todo w)
        end
    end.
Proof.
  unfold process_pdfs_enterprise. fold (workers E mw). cbv zeta.
  rewrite bind_run. cbn [modify all_csv_data total_pages outside].
  rewrite bind_run.
  destruct resume; cbn [starting_lists to_submit].
  - rewrite resume_from_run. cbn [outside all_csv_data total_pages]. unfold loaded.
    destruct (load_progress pf (outside fr)).2 as [[jc jf]|e]; [|reflexivity].
    destruct (as_str_list jc) as [c|]; [|reflexivity].
    destruct (as_str_list jf) as [f|]; [|reflexivity].
    rewrite bind_run, on_outside_run. cbn [time_time fst snd outside
      completed_files failed_files all_csv_data total_pages files ticks opens
      submitted].
    rewrite bind_run. unfold new_executor at 1.
    case_decide; [reflexivity|]. cbn [mret prog_ret].
    rewrite bind_run, on_outside_run. cbn [submit_all fst snd outside
      completed_files failed_files all_csv_data total_pages files ticks opens
      submitted].
    rewrite bind_run, for_each_handle_future. reflexivity.
  - cbn [mret prog_ret].
    rewrite bind_run, on_outside_run. cbn [time_time fst snd outside
      completed_files failed_files all_csv_data total_pages files ticks opens
      submitted].
    rewrite bind_run. unfold new_executor at 1.
    case_decide; [reflexivity|]. cbn [mret prog_ret].
    rewrite bind_run, on_outside_run. cbn [submit_all fst snd outside
      completed_files failed_files all_csv_data total_pages files ticks opens
      submitted].
    rewrite bind_run, for_each_handle_future. reflexivity.
Qed.

Lemma report_run E pf t0 fr :
  report E pf t0 fr =
    let csv := save_csv_data E (all_csv_data fr) default_csv_filename (outside fr) in
    match csv.2 with
    | Raise e => (with_outside fr csv.1, Raise e)
    | Ok _ =>
        let chk := save_progress E (completed_files fr) (failed_files fr) pf csv.1 in
        let w := World (files chk.1) (S (ticks chk.1)) (opens chk.1)
                       (submitted chk.1) in
        match chk.2 with
        | Raise e => (with_outside fr chk.1, Raise e)
        | Ok _ =>
            if decide (length (completed_files fr ++ failed_files fr) = 0)
            then (with_outside fr w, Raise ZeroDivisionError)
            else if decide (clock E (ticks chk.1) = t0)
            then (with_outside fr w, Raise ZeroDivisionError)
            else (with_outside fr w,
                  Ok (length (completed_files fr), length (failed_files fr)))
        end
    end.
Proof.
  unfold report. rewrite bind_run. cbn [get]. rewrite bind_run, on_outside_run.
  fold (with_outside fr
    (save_csv_data E (all_csv_data fr) default_csv_filename (outside fr)).1).
  cbv zeta.
  destruct (save_csv_data E (all_csv_data fr) default_csv_filename (outside fr))
    as [w3 [[]|e]]; cbn [fst snd]; [|reflexivity].
  rewrite bind_run, on_outside_run.
  cbn [with_outside completed_files failed_files all_csv_data total_pages outside].
  destruct (save_progress E (completed_files fr) (failed_files fr) pf w3)
    as [w4 [[]|e]]; cbn [fst snd]; [|reflexivity].
  rewrite bind_run, on_outside_run.
  cbn [time_time fst snd completed_files failed_files all_csv_data total_pages
       outside].
  rewrite bind_run. unfold divide_by at 1.
  case_bool_decide as H0.
  - rewrite decide_True by exact H0. reflexivity.
  - rewrite decide_False by exact H0. cbn [mret prog_ret].
    rewrite bind_run. unfold divide_by.
    case_bool_decide as H1.
    + rewrite decide_True by exact H1. reflexivity.
    + rewrite decide_False by exact H1. reflexivity.
Qed.

(** ** One iteration of the loop, by cases *)

Lemma handle_future_handled E pf p o fr :
  handled E pf p o fr (handle_future E pf (p, o) fr).1.
Proof.
  destruct o as [r|e].
  - rewrite handle_future_returned. cbv zeta. case_decide as Hdue.
    + destruct (save_progress E (completed_files (booked p r fr))
                  (failed_files (booked p r fr)) pf (outside (booked p r fr))).2
        as [[]|e] eqn:Hs.
      * by apply handled_saved.
      * by eapply handled_save_raised.
    + by apply handled_quiet.
  - rewrite handle_future_raised. by eapply handled_raised.
Qed.

(** The bookkeeping puts the path at the end of exactly one list. *)
Lemma booked_lists p r fr :
  (completed_files (booked p r fr) = completed_files fr ++ [p] ∧
   failed_files (booked p r fr) = failed_files fr)
  ∨ (completed_files (booked p r fr) = completed_files fr ∧
     failed_files (booked p r fr) = failed_files fr ++ [p]).
Proof. destruct r as [[[[] ?] ?] ?]; cbn; auto. Qed.

Lemma booked_outside p r fr : outside (booked p r fr) = outside fr.
Proof. by destruct r as [[[[] ?] ?] ?]. Qed.

Lemma save_progress_no_fault E c f pf w :
  fault E (opens w) = NoFault →
  save_progress E c f pf w =
    (World (<[pf := json_dump (progress_dict c f (clock E (ticks w)))]> (files w))
           (S (ticks w)) (S (opens w)) (submitted w), Ok tt).
Proof. intros H. rewrite save_progress_run. unfold written. by rewrite H. Qed.

(** Without faulty writes an iteration adds the path once, to one list. *)
Lemma handled_once E pf p o fr fr' :
  no_fault E → handled E pf p o fr fr' →
  (completed_files fr' = completed_files fr ++ [p] ∧
   failed_files fr' = failed_files fr)
  ∨ (completed_files fr' = completed_files fr ∧
     failed_files fr' = failed_files fr ++ [p]).
Proof.
  intros HE [e _|r _ _|r fr1 saved _ _ _|r e fr1 saved _ _ Hs].
  - right. by cbn.
  - apply booked_lists.
  - apply booked_lists.
  - subst saved. rewrite save_progress_no_fault in Hs by apply HE. discriminate.
Qed.

(** In any case the path is added, and nothing else is. *)
Lemma handled_elem_of E pf p o fr fr' x :
  handled E pf p o fr fr' →
  x ∈ completed_files fr' ++ failed_files fr' ↔
  x ∈ completed_files fr ++ failed_files fr ∨ x = p.
Proof.
  intros [e _|r _ _|r fr1 saved _ _ _|r e fr1 saved _ _ _]; try subst fr1;
    cbn [fail_again with_outside completed_files failed_files];
    try (destruct (booked_lists p r fr) as [[-> ->]|[-> ->]]);
    rewrite ?elem_of_app, ?list_elem_of_singleton; tauto.
Qed.

(** ** What the loop does to the frame *)

Lemma save_csv_data_submitted E rows path w :
  submitted (save_csv_data E rows path w).1 = submitted w.
Proof.
  destruct rows; [done|]. cbn [save_csv_data]. by rewrite write_file_run.
Qed.

Lemma save_progress_submitted E c f pf w :
  submitted (save_progress E c f pf w).1 = submitted w.
Proof. by rewrite save_progress_run. Qed.

Lemma save_progress_files_other E c f pf w path :
  path ≠ pf →
  files (save_progress E c f pf w).1 !! path = files w !! path.
Proof.
  intros Hne. rewrite save_progress_run. cbn [fst files]. unfold written.
  destruct (fault E (opens w)); cbn [fst];
    rewrite ?lookup_insert_ne by congruence; reflexivity.
Qed.

Lemma handled_outside E pf p o fr fr' :
  handled E pf p o fr fr' →
  submitted (outside fr') = submitted (outside fr) ∧
  ∀ path, path ≠ pf → files (outside fr') !! path = files (outside fr) !! path.
Proof.
  intros [e _|r _ _|r fr1 saved _ _ _|r e fr1 saved _ _ _]; try subst fr1 saved;
    cbn [fail_again with_outside outside].
  - done.
  - by rewrite booked_outside.
  - split.
    + by rewrite save_progress_submitted, booked_outside.
    + intros path Hne. by rewrite save_progress_files_other, booked_outside.
  - split.
    + by rewrite save_progress_submitted, booked_outside.
    + intros path Hne. by rewrite save_progress_files_other, booked_outside.
Qed.

Lemma handled_records E pf p o fr fr' :
  handled E pf p o fr fr' →
  all_csv_data fr' = all_csv_data fr ++ records_of [(p, o)].
Proof.
  unfold records_of. cbn [map concat snd]. rewrite app_nil_r.
  intros [e ->|r -> _|r fr1 saved -> _ _|r e fr1 saved -> _ _]; try subst fr1;
    cbn [fail_again with_outside all_csv_data]; rewrite ?app_nil_r; try done;
    by destruct r as [[[[] ?] ?] ?]; cbn; rewrite ?app_nil_r.
Qed.

Section Loop.
Context (E : env) (pf : string).

Lemma loop_elem_of l fr x :
  x ∈ completed_files (loop E pf l fr) ++ failed_files (loop E pf l fr) ↔
  x ∈ completed_files fr ++ failed_files fr ∨ x ∈ l.*1.
Proof.
  revert fr. induction l as [|[p o] l IH]; intros fr.
  - rewrite loop_nil. cbn. rewrite elem_of_nil. tauto.
  - rewrite loop_cons, IH.
    rewrite (handled_elem_of _ _ _ _ _ _ x (handle_future_handled E pf p o fr)).
    cbn [fmap list_fmap fst]. rewrite elem_of_cons. tauto.
Qed.

Lemma loop_permutation l fr :
  no_fault E →
  completed_files (loop E pf l fr) ++ failed_files (loop E pf l fr)
  ≡ₚ (completed_files fr ++ failed_files fr) ++ l.*1.
Proof.
  intros HE. revert fr. induction l as [|[p o] l IH]; intros fr.
  - rewrite loop_nil. cbn. by rewrite app_nil_r.
  - rewrite loop_cons, IH. cbn [fmap list_fmap fst].
    destruct (handled_once _ _ _ _ _ _ HE (handle_future_handled E pf p o fr))
      as [[-> ->]|[-> ->]].
    + rewrite <- !app_assoc. f_equiv. cbn [app].
      by rewrite <- Permutation_middle.
    + rewrite <- !app_assoc. reflexivity.
Qed.

Lemma loop_submitted l fr :
  submitted (outside (loop E pf l fr)) = submitted (outside fr).
Proof.
  revert fr. induction l as [|[p o] l IH]; intros fr; [done|].
  rewrite loop_cons, IH.
  apply (handled_outside _ _ _ _ _ _ (handle_future_handled E pf p o fr)).
Qed.

Lemma loop_files_other l fr path :
  path ≠ pf →
  files (outside (loop E pf l fr)) !! path = files (outside fr) !! path.
Proof.
  intros Hne. revert fr. induction l as [|[p o] l IH]; intros fr; [done|].
  rewrite loop_cons, IH.
  by apply (handled_outside _ _ _ _ _ _ (handle_future_handled E pf p o fr)).
Qed.

Lemma loop_records l fr :
  all_csv_data (loop E pf l fr) = all_csv_data fr ++ records_of l.
Proof.
  revert fr. induction l as [|[p o] l IH]; intros fr.
  - rewrite loop_nil. unfold records_of. cbn. by rewrite app_nil_r.
  - rewrite loop_cons, IH.
    rewrite (handled_records _ _ _ _ _ _ (handle_future_handled E pf p o fr)).
    unfold records_of. cbn [map concat]. rewrite app_nil_r, app_assoc. done.
Qed.
End Loop.

(** ** What the statements after the loop do *)

Lemma report_locals E pf t0 fr :
  completed_files (report E pf t0 fr).1 = completed_files fr ∧
  failed_files (report E pf t0 fr).1 = failed_files fr ∧
  all_csv_data (report E pf t0 fr).1 = all_csv_data fr.
Proof.
  rewrite report_run. cbv zeta.
  destruct (save_csv_data E _ _ _).2; [|done].
  destruct (save_progress E _ _ _ _).2; [|done].
  repeat case_decide; done.
Qed.

Lemma report_ok E pf t0 fr n m :
  (report E pf t0 fr).2 = Ok (n, m) →
  n = length (completed_files fr) ∧ m = length (failed_files fr).
Proof.
  rewrite report_run. cbv zeta.
  destruct (save_csv_data E _ _ _).2; [|done].
  destruct (save_progress E _ _ _ _).2; [|done].
  repeat case_decide; cbn; intros; simplify_eq; done.
Qed.

Lemma report_submitted E pf t0 fr :
  submitted (outside (report E pf t0 fr).1) = submitted (outside fr).
Proof.
  rewrite report_run. cbv zeta.
  destruct (save_csv_data E _ _ _).2 eqn:Hc.
  - destruct (save_progress E _ _ _ _).2 eqn:Hs;
      repeat case_decide; cbn [fst with_outside outside submitted];
      by rewrite save_progress_submitted, save_csv_data_submitted.
  - cbn [fst with_outside outside]. by rewrite save_csv_data_submitted.
Qed.

(** ** The pool *)

(** A run that returns has started from some lists, and ends with the lists
    the loop leaves. *)
Lemma run_ok_inv E pdf_paths mw resume pf fr fr' n m :
  process_pdfs_enterprise E pdf_paths mw resume pf fr = (fr', Ok (n, m)) →
  ∃ c0 f0,
    starting_lists resume pf (outside fr) = Some (c0, f0) ∧
    (0 < workers E mw)%Z ∧
    let fr2 := drained E pf c0 f0 (to_submit resume pdf_paths c0 f0) (outside fr) in
    fr' = (report E pf (clock E (ticks (outside fr))) fr2).1 ∧
    (report E pf (clock E (ticks (outside fr))) fr2).2 = Ok (n, m).
Proof.
  rewrite process_pdfs_enterprise_run. cbv zeta.
  destruct (if resume then _ else _); [|intros; simplify_eq].
  destruct (starting_lists resume pf (outside fr)) as [[c0 f0]|];
    [|intros; simplify_eq].
  case_decide; [intros; simplify_eq|].
  intros Hrun. exists c0, f0. split; [done|]. split; [lia|].
  by rewrite Hrun.
Qed.

(** ** What [json.dump] writes, [json.load] reads *)

Lemma checkpoint_text c f t :
  json_dump (progress_dict c f t) =
    checkpoint_head c f +:+ t +:+ checkpoint_tail.
Proof.
  unfold json_dump, progress_dict, checkpoint_head, checkpoint_tail.
  cbn [iterencode map join].
  generalize (iterencode 1 (JArr (map JStr c))) as tc.
  generalize (iterencode 1 (JArr (map JStr f))) as tf.
  intros tf tc. by rewrite !append_assoc.
Qed.

(** The text of a checkpoint, as [json.dump] lays it out with [indent=2]. *)
Example checkpoint_text_sample :
  json_dump (progress_dict ["a.pdf"] [] "1700000000.5") =
    "{" +:+ newline
    +:+ "  " +:+ quote +:+ "completed" +:+ quote +:+ ": [" +:+ newline
    +:+ "    " +:+ quote +:+ "a.pdf" +:+ quote +:+ newline
    +:+ "  ]," +:+ newline
    +:+ "  " +:+ quote +:+ "failed" +:+ quote +:+ ": []," +:+ newline
    +:+ "  " +:+ quote +:+ "timestamp" +:+ quote +:+ ": 1700000000.5" +:+ newline
    +:+ "}".
Proof. vm_compute. reflexivity. Qed.

Lemma scanstring_escape_char c s :
  scanstring (escape_char c +:+ s) = cons_result c (scanstring s).
Proof.
  destruct c as [[] [] [] [] [] [] [] []]; reflexivity.
Qed.

Lemma scanstring_escape_string s rest :
  scanstring (escape_string s +:+ quote +:+ rest) = Ok (s, rest).
Proof.
  induction s as [|c s IH]; [reflexivity|].
  cbn [escape_string]. by rewrite append_assoc, scanstring_escape_char, IH.
Qed.

Lemma skip_ws_spaces n s : skip_ws (spaces n +:+ s) = skip_ws s.
Proof. induction n as [|n IH]; [done|]. cbn [spaces]. by rewrite append_assoc. Qed.

Lemma skip_ws_newline_indent level s :
  skip_ws (newline_indent level +:+ s) = skip_ws s.
Proof.
  unfold newline_indent, newline, chr. rewrite append_assoc, append_cons, append_nil_l.
  cbn [skip_ws]. change (is_ws (ascii_of_nat 10)) with true. cbv iota.
  apply skip_ws_spaces.
Qed.

Lemma encode_basestring_ascii_cons s rest :
  encode_basestring_ascii s +:+ rest
  = String (ascii_of_nat 34) (escape_string s +:+ quote +:+ rest).
Proof. unfold encode_basestring_ascii. by rewrite !append_assoc. Qed.

(** A string written by the encoder is read back by the scanner. *)
Lemma scan_once_string fuel s rest :
  scan_once (S fuel) (encode_basestring_ascii s +:+ rest) = Ok (JStr s, rest).
Proof.
  rewrite encode_basestring_ascii_cons. cbn [scan_once starts_with tail].
  change (bool_decide (nat_of_ascii (ascii_of_nat 34) = 34)) with true. cbv iota.
  by rewrite scanstring_escape_string.
Qed.

Lemma skip_ws_encoded s rest :
  skip_ws (encode_basestring_ascii s +:+ rest) = encode_basestring_ascii s +:+ rest.
Proof. by rewrite encode_basestring_ascii_cons. Qed.

Lemma items_text_one level x rest :
  items_text level [x] rest
  = encode_basestring_ascii x +:+ newline_indent level +:+ String "]" rest.
Proof. reflexivity. Qed.

Lemma items_text_more level x x' xs rest :
  items_text level (x :: x' :: xs) rest
  = encode_basestring_ascii x
      +:+ String "," (newline_indent (S level) +:+ items_text level (x' :: xs) rest).
Proof.
  unfold items_text.
  change (join ("," +:+ newline_indent (S level))
            (map (iterencode (S level)) (map JStr (x :: x' :: xs))))
    with (encode_basestring_ascii x +:+ ("," +:+ newline_indent (S level))
            +:+ join ("," +:+ newline_indent (S level))
                  (map (iterencode (S level)) (map JStr (x' :: xs)))).
  by rewrite !append_assoc.
Qed.

Lemma items_text_quote level xs rest :
  xs ≠ [] → ∃ s, items_text level xs rest = String (ascii_of_nat 34) s.
Proof.
  destruct xs as [|x [|x' xs]]; [done|..]; intros _.
  - rewrite items_text_one, encode_basestring_ascii_cons. eauto.
  - rewrite items_text_more, encode_basestring_ascii_cons. eauto.
Qed.

Lemma parse_items_S fuel s :
  parse_items (S fuel) s =
    match scan_once fuel s with
    | Raise e => Raise e
    | Ok (x, rest) =>
        let s1 := skip_ws rest in
        if starts_with 93 s1 then Ok ([x], tail s1)
        else if starts_with 44 s1 then
          match parse_items fuel (skip_ws (tail s1)) with
          | Ok (xs, rest') => Ok (x :: xs, rest')
          | Raise e => Raise e
          end
        else Raise JSONDecodeError
    end.
Proof. reflexivity. Qed.

(** The items of a list of strings, as the encoder lays them out, are read
    back by the loop of the array. *)
Lemma parse_items_strings fuel level xs rest :
  xs ≠ [] → length xs < fuel →
  parse_items fuel (items_text level xs rest) = Ok (map JStr xs, rest).
Proof.
  revert fuel. induction xs as [|x xs IH]; intros fuel Hxs Hfuel; [done|].
  destruct fuel as [|[|fuel]]; [cbn in Hfuel; lia..|].
  rewrite parse_items_S.
  destruct xs as [|x' xs].
  - rewrite items_text_one, scan_once_string. cbv zeta.
    rewrite skip_ws_newline_indent. reflexivity.
  - rewrite items_text_more, scan_once_string. cbv zeta.
    cbn [skip_ws]. change (is_ws ",") with false. cbv iota.
    cbn [starts_with tail].
    change (bool_decide (nat_of_ascii "," = 93)) with false.
    change (bool_decide (nat_of_ascii "," = 44)) with true. cbv iota.
    rewrite skip_ws_newline_indent.
    destruct (items_text_quote level (x' :: xs) rest ltac:(done)) as [s Hs].
    rewrite Hs. cbn [skip_ws]. change (is_ws (ascii_of_nat 34)) with false.
    cbv iota. rewrite <- Hs.
    rewrite IH by (done || cbn in *; lia). reflexivity.
Qed.

Lemma scan_once_S fuel s :
  scan_once (S fuel) s =
      if starts_with 34 s then
        match scanstring (tail s) with
        | Ok (str, rest) => Ok (JStr str, rest)
        | Raise e => Raise e
        end
      else if starts_with 123 s then
        let s1 := skip_ws (tail s) in
        if starts_with 125 s1 then Ok (JObj [], tail s1)
        else if starts_with 34 s1 then
          match parse_members fuel (tail s1) with
          | Ok (ms, rest) => Ok (JObj ms, rest)
          | Raise e => Raise e
          end
        else Raise JSONDecodeError
      else if starts_with 91 s then
        let s1 := skip_ws (tail s) in
        if starts_with 93 s1 then Ok (JArr [], tail s1)
        else
          match parse_items fuel s1 with
          | Ok (xs, rest) => Ok (JArr xs, rest)
          | Raise e => Raise e
          end
      else
        match match_word literals s with
        | Some r => Ok r
        | None =>
            match match_number s with
            | Some (lexeme, rest) => Ok (JNum lexeme, rest)
            | None =>
                match match_word constants s with
                | Some r => Ok r
                | None => Raise JSONDecodeError
                end
            end
        end.
Proof. reflexivity. Qed.

(** A list of strings written by the encoder is read back by the scanner. *)
Lemma scan_once_strings fuel level xs rest :
  length xs < fuel →
  scan_once (S fuel) (iterencode level (JArr (map JStr xs)) +:+ rest)
  = Ok (JArr (map JStr xs), rest).
Proof.
  intros Hfuel. destruct xs as [|x xs]; [reflexivity|].
  change (iterencode level (JArr (map JStr (x :: xs))) +:+ rest)
    with (("[" +:+ newline_indent (S level)
           +:+ join ("," +:+ newline_indent (S level))
                    (map (iterencode (S level)) (map JStr (x :: xs)))
           +:+ newline_indent level +:+ "]") +:+ rest).
  rewrite !append_assoc. fold (items_text level (x :: xs) rest).
  rewrite append_cons, append_nil_l, scan_once_S. cbn [starts_with tail].
  change (bool_decide (nat_of_ascii "[" = 34)) with false.
  change (bool_decide (nat_of_ascii "[" = 123)) with false.
  change (bool_decide (nat_of_ascii "[" = 91)) with true. cbv iota zeta.
  rewrite skip_ws_newline_indent.
  destruct (items_text_quote level (x :: xs) rest ltac:(done)) as [s Hs].
  rewrite Hs. cbn [skip_ws]. change (is_ws (ascii_of_nat 34)) with false.
  cbv iota. cbn [starts_with].
  change (bool_decide (nat_of_ascii (ascii_of_nat 34) = 93)) with false. cbv iota.
  rewrite <- Hs, parse_items_strings by done. reflexivity.
Qed.

Lemma skip_ws_strings level xs rest :
  skip_ws (iterencode level (JArr (map JStr xs)) +:+ rest)
  = iterencode level (JArr (map JStr xs)) +:+ rest.
Proof. by destruct xs. Qed.

(** A text that starts with a number starts with a sign or a digit. *)
Lemma match_number_head s r :
  match_number s = Some r →
  ∃ c s', s = String c s' ∧ (nat_of_ascii c = 45 ∨ is_digit c = true).
Proof.
  destruct s as [|c s']; [done|]. intros H. exists c, s'. split; [done|].
  destruct (decide (nat_of_ascii c = 45)) as [|H45]; [by left|right].
  unfold match_number in H. rewrite decide_False in H by done.
  unfold lex_int in H. destruct (decide (nat_of_ascii c = 48)) as [H48|H48].
  - unfold is_digit. cbv zeta. rewrite H48. done.
  - by destruct (is_digit c).
Qed.

(** A number is read by the scanner whatever the fuel, and has no leading
    whitespace. *)
Lemma scan_once_number fuel s t rest :
  match_number s = Some (t, rest) →
  scan_once (S fuel) s = Ok (JNum t, rest) ∧ skip_ws s = s.
Proof.
  intros H. destruct (match_number_head _ _ H) as (c & s' & -> & Hc).
  rewrite scan_once_S, H.
  assert (Hcases : starts_with 34 (String c s') = false ∧
                   starts_with 123 (String c s') = false ∧
                   starts_with 91 (String c s') = false ∧
                   match_word literals (String c s') = None ∧
                   is_ws c = false).
  { clear H. unfold is_digit in Hc. cbv zeta in Hc.
    rewrite bool_decide_eq_true in Hc.
    destruct c as [[] [] [] [] [] [] [] []];
      first [ by (exfalso; vm_compute in Hc; lia) | by vm_compute ]. }
  destruct Hcases as (-> & -> & -> & -> & Hws). split; [done|].
  cbn [skip_ws]. by rewrite Hws.
Qed.

Lemma parse_members_S fuel s :
  parse_members (S fuel) s =
      match scanstring s with
      | Raise e => Raise e
      | Ok (key, rest) =>
          let s1 := skip_ws rest in
          if starts_with 58 s1 then
            match scan_once fuel (skip_ws (tail s1)) with
            | Raise e => Raise e
            | Ok (x, rest1) =>
                let s2 := skip_ws rest1 in
                if starts_with 125 s2 then Ok ([(key, x)], tail s2)
                else if starts_with 44 s2 then
                  let s3 := skip_ws (tail s2) in
                  if starts_with 34 s3 then
                    match parse_members fuel (tail s3) with
                    | Ok (ms, rest') => Ok ((key, x) :: ms, rest')
                    | Raise e => Raise e
                    end
                  else Raise JSONDecodeError
                else Raise JSONDecodeError
            end
          else Raise JSONDecodeError
      end.
Proof. reflexivity. Qed.

(** A member whose value is read as [v], followed by another member. *)
Lemma parse_members_more fuel key x v key' more :
  skip_ws x = x →
  scan_once fuel x
    = Ok (v, String "," (newline_indent 1 +:+ encode_basestring_ascii key' +:+ more)) →
  parse_members (S fuel) (escape_string key +:+ quote +:+ String ":" (String " " x))
  = match parse_members fuel (escape_string key' +:+ quote +:+ more) with
    | Ok (ms, rest') => Ok ((key, v) :: ms, rest')
    | Raise e => Raise e
    end.
Proof.
  intros Hws Hx. rewrite parse_members_S, scanstring_escape_string. cbv zeta.
  cbn [skip_ws]. change (is_ws ":") with false. cbv iota.
  cbn [starts_with tail]. change (bool_decide (nat_of_ascii ":" = 58)) with true.
  cbv iota. cbn [skip_ws]. change (is_ws " ") with true. cbv iota.
  rewrite Hws, Hx. cbn [skip_ws]. change (is_ws ",") with false. cbv iota.
  cbn [starts_with tail].
  change (bool_decide (nat_of_ascii "," = 125)) with false.
  change (bool_decide (nat_of_ascii "," = 44)) with true. cbv iota.
  rewrite skip_ws_newline_indent, encode_basestring_ascii_cons.
  cbn [skip_ws]. change (is_ws (ascii_of_nat 34)) with false. cbv iota.
  cbn [starts_with tail].
  change (bool_decide (nat_of_ascii (ascii_of_nat 34) = 34)) with true. cbv iota.
  reflexivity.
Qed.

(** The last member, followed by the closing brace. *)
Lemma parse_members_last fuel key x v rest :
  skip_ws x = x →
  scan_once fuel x = Ok (v, newline_indent 0 +:+ String "}" rest) →
  parse_members (S fuel) (escape_string key +:+ quote +:+ String ":" (String " " x))
  = Ok ([(key, v)], rest).
Proof.
  intros Hws Hx. rewrite parse_members_S, scanstring_escape_string. cbv zeta.
  cbn [skip_ws]. change (is_ws ":") with false. cbv iota.
  cbn [starts_with tail]. change (bool_decide (nat_of_ascii ":" = 58)) with true.
  cbv iota. cbn [skip_ws]. change (is_ws " ") with true. cbv iota.
  rewrite Hws, Hx, skip_ws_newline_indent. reflexivity.
Qed.

(** The text of a checkpoint is read back by the scanner as the dict that
    was dumped. *)
Lemma scan_once_checkpoint fuel c f t :
  number_text t → length c ≤ S fuel → length f ≤ fuel →
  scan_once (S (S (S (S (S fuel))))) (json_dump (progress_dict c f t))
  = Ok (progress_dict c f t, EmptyString).
Proof.
  intros Ht Hc Hf. rewrite checkpoint_text. unfold checkpoint_head, checkpoint_tail.
  rewrite !append_assoc, append_cons, append_nil_l, scan_once_S.
  cbn [starts_with tail].
  change (bool_decide (nat_of_ascii "{" = 34)) with false.
  change (bool_decide (nat_of_ascii "{" = 123)) with true. cbv iota zeta.
  rewrite skip_ws_newline_indent, encode_basestring_ascii_cons.
  cbn [skip_ws]. change (is_ws (ascii_of_nat 34)) with false. cbv iota.
  cbn [starts_with tail].
  change (bool_decide (nat_of_ascii (ascii_of_nat 34) = 125)) with false.
  change (bool_decide (nat_of_ascii (ascii_of_nat 34) = 34)) with true. cbv iota.
  rewrite !(append_cons ":"), !(append_cons " "), !(append_cons ","), !append_nil_l.
  set (m3 := String ":" (String " " (t +:+ newline_indent 0 +:+ String "}" EmptyString))).
  set (m2 := String ":" (String " " (iterencode 1 (JArr (map JStr f)) +:+
               String "," (newline_indent 1 +:+
                 encode_basestring_ascii "timestamp" +:+ m3)))).
  rewrite (parse_members_more _ "completed" _ (JArr (map JStr c)) "failed" m2);
    [|apply skip_ws_strings|apply scan_once_strings; lia].
  subst m2.
  rewrite (parse_members_more _ "failed" _ (JArr (map JStr f)) "timestamp" m3);
    [|apply skip_ws_strings|apply scan_once_strings; lia].
  subst m3.
  destruct (scan_once_number fuel _ _ _ Ht) as [Hnum Hws].
  unfold checkpoint_tail in Hnum, Hws.
  rewrite (parse_members_last _ "timestamp" _ (JNum t) EmptyString Hws Hnum).
  reflexivity.
Qed.

Lemma length_join sep (l : list string) :
  Forall (λ s, 1 ≤ String.length s) l → length l ≤ String.length (join sep l).
Proof.
  induction 1 as [|s l Hs _ IH]; [done|].
  destruct l as [|s' l]; [cbn in *; lia|].
  change (join sep (s :: s' :: l)) with (s +:+ sep +:+ join sep (s' :: l)).
  rewrite !length_append. cbn [length] in *. lia.
Qed.

Lemma length_strings level xs :
  length xs + 2 ≤ String.length (iterencode level (JArr (map JStr xs))).
Proof.
  destruct xs as [|x xs]; [done|].
  change (iterencode level (JArr (map JStr (x :: xs))))
    with ("[" +:+ newline_indent (S level)
           +:+ join ("," +:+ newline_indent (S level))
                    (map (iterencode (S level)) (map JStr (x :: xs)))
           +:+ newline_indent level +:+ "]").
  rewrite !length_append.
  pose proof (length_join ("," +:+ newline_indent (S level))
                (map (iterencode (S level)) (map JStr (x :: xs)))) as Hj.
  rewrite !length_map in Hj.
  assert (Hall : Forall (λ s, 1 ≤ String.length s)
                   (map (iterencode (S level)) (map JStr (x :: xs)))).
  { apply Forall_forall. intros s (j & -> & (y & -> & _)%list_elem_of_fmap)%list_elem_of_fmap.
    cbn [iterencode]. unfold encode_basestring_ascii. rewrite !length_append.
    cbn. lia. }
  specialize (Hj Hall). cbn [String.length] in *. lia.
Qed.

Lemma length_checkpoint c f t :
  length c + length f + 5 ≤ String.length (json_dump (progress_dict c f t)).
Proof.
  rewrite checkpoint_text. unfold checkpoint_head. rewrite !length_append.
  pose proof (length_strings 1 c). pose proof (length_strings 1 f).
  cbn [String.length]. lia.
Qed.

(** What [save_progress] writes, [json.load] reads back. *)
Lemma json_loads_checkpoint c f t :
  number_text t →
  json_loads (json_dump (progress_dict c f t)) = Ok (progress_dict c f t).
Proof.
  intros Ht. unfold json_loads.
  pose proof (length_checkpoint c f t) as Hlen.
  replace (skip_ws (json_dump (progress_dict c f t)))
    with (json_dump (progress_dict c f t)) by (by rewrite checkpoint_text).
  replace (2 * String.length (json_dump (progress_dict c f t)) + 2)
    with (S (S (S (S (S (2 * String.length (json_dump (progress_dict c f t)) - 3))))))
    by lia.
  rewrite scan_once_checkpoint by (done || lia). reflexivity.
Qed.

Lemma as_str_list_strings xs : as_str_list (JArr (map JStr xs)) = Some xs.
Proof. cbn [as_str_list]. by apply mapM_fmap_Some. Qed.

(** After a save that returns, the checkpoint loads as the lists saved. *)
Lemma loaded_after_save E c f pf w :
  number_text (clock E (ticks w)) →
  (save_progress E c f pf w).2 = Ok tt →
  loaded pf (save_progress E c f pf w).1 = Some (c, f).
Proof.
  intros Ht. rewrite save_progress_run. cbn [fst snd]. unfold written.
  destruct (fault E (opens w)); [|done..]. intros _. cbn [fst].
  unfold loaded, load_progress. rewrite bind_run. cbn [read_file files].
  rewrite lookup_insert_eq, bind_run. cbn [of_result].
  rewrite json_loads_checkpoint by done. cbn [progress_dict mret prog_ret snd].
  change (dict_get "completed" _ _) with (JArr (map JStr c)).
  change (dict_get "failed" _ _) with (JArr (map JStr f)).
  by rewrite !as_str_list_strings.
Qed.

(** ** Concrete environments *)

Lemma pool_of_delivers order work clk flt cpus :
  (∀ l, order l ≡ₚ l) → delivers (Env clk flt cpus (pool_of order work)).
Proof.
  intros Horder l. cbn [as_completed]. unfold pool_of.
  rewrite <- list_fmap_compose.
  replace (fst ∘ (λ p : string, (p, work p))) with (@id string) by done.
  by rewrite list_fmap_id.
Qed.

Lemma quiet_env_delivers work : delivers (quiet_env work).
Proof. apply pool_of_delivers. intros l. apply reverse_Permutation. Qed.

Lemma quiet_env_no_fault work : no_fault (quiet_env work).
Proof. intros n. reflexivity. Qed.

Lemma is_digit_pretty_N_char x : is_digit (pretty_N_char x) = true.
Proof. unfold pretty_N_char. by repeat case_match. Qed.

Lemma all_digits_pretty_N_go x s :
  all_digits s = true → all_digits (pretty_N_go x s) = true.
Proof.
  revert s. induction (N.lt_wf_0 x) as [x _ IH]; intros s Hs.
  destruct (decide (x = 0)%N) as [->|Hx]; [by rewrite pretty_N_go_0|].
  rewrite pretty_N_go_step by lia. apply IH.
  - apply N.div_lt; lia.
  - cbn [all_digits]. by rewrite is_digit_pretty_N_char.
Qed.

Lemma all_digits_pretty (n : nat) : all_digits (pretty n) = true.
Proof.
  unfold pretty, pretty_nat, pretty, pretty_N.
  case_decide; [done|]. by apply all_digits_pretty_N_go.
Qed.

Lemma all_digits_app s1 s2 :
  all_digits (s1 +:+ s2) = all_digits s1 && all_digits s2.
Proof.
  induction s1 as [|c s1 IH]; [done|]. rewrite append_cons. cbn [all_digits].
  by rewrite IH, andb_assoc.
Qed.

(** A run of digits in front of a character that is not one. *)
Lemma span_digits_app ds c rest :
  all_digits ds = true → is_digit c = false →
  span_digits (ds +:+ String c rest) = (ds, String c rest).
Proof.
  intros Hds Hc. induction ds as [|d ds IH].
  - rewrite append_nil_l. cbn [span_digits]. by rewrite Hc.
  - cbn [all_digits] in Hds. apply andb_true_iff in Hds as [Hd Hds].
    rewrite append_cons. cbn [span_digits]. by rewrite Hd, IH.
Qed.

(** A number that starts with a digit other than zero. *)
Lemma match_number_digit c r :
  is_digit c = true → nat_of_ascii c ≠ 48 →
  match_number (String c r) =
    let '(ds, rest) := span_digits r in
    let '(frac, s3) := lex_frac rest in
    let '(exp, s4) := lex_exp s3 in
    Some (EmptyString +:+ String c ds +:+ frac +:+ exp, s4).
Proof.
  intros Hd H48. unfold match_number, lex_int.
  assert (H45 : nat_of_ascii c ≠ 45).
  { unfold is_digit in Hd. cbv zeta in Hd. apply bool_decide_eq_true in Hd. lia. }
  rewrite (decide_False (P := nat_of_ascii c = 45)) by done.
  rewrite (decide_False (P := nat_of_ascii c = 48)) by done.
  rewrite Hd. by destruct (span_digits r).
Qed.

Lemma number_text_ticking_clock n : number_text (ticking_clock n).
Proof.
  unfold number_text, ticking_clock.
  rewrite !append_assoc.
  change ("170000000" +:+ pretty n +:+ ".5" +:+ checkpoint_tail)
    with (String "1" (("70000000" +:+ pretty n)
                        +:+ String "." (String "5" checkpoint_tail))).
  rewrite match_number_digit by (done || (vm_compute; lia)).
  rewrite span_digits_app; [|by rewrite all_digits_app, all_digits_pretty|done].
  cbv zeta.
  change (lex_frac (String "." (String "5" checkpoint_tail)))
    with (".5", checkpoint_tail).
  cbv iota beta.
  change (lex_exp checkpoint_tail) with (EmptyString, checkpoint_tail).
  cbv iota beta.
  by rewrite append_nil_l, append_nil_r, ?append_cons, ?append_nil_l, ?append_assoc.
Qed.

(** ** C1: the terminal states cover the input *)




(** ** C2: a resumed run skips the ids of the checkpoint *)

Lemma elem_of_remaining_files pdf_paths c f p :
  p ∈ remaining_files pdf_paths c f ↔ p ∈ pdf_paths ∧ (p ∉ c) ∧ (p ∉ f).
Proof. unfold remaining_files. rewrite list_elem_of_filter. tauto. Qed.

(** C2. With [resume] set and a checkpoint that loads as the lists [c0] and
    [f0], the paths handed to the pool are the input without the ids of [c0]
    and [f0], in input order (or no path at all, when the pool cannot be
    created): no id of the checkpoint is processed again. *)
Theorem resume_skips_terminal_ids E pdf_paths mw pf fr fr' r c0 f0 :
  loaded pf (outside fr) = Some (c0, f0) →
  process_pdfs_enterprise E pdf_paths mw true pf fr = (fr', r) →
  submitted (outside fr') =
    submitted (outside fr) ++
      (if decide (workers E mw ≤ 0)%Z then []
       else remaining_files pdf_paths c0 f0) ∧
  ∀ p, p ∈ remaining_files pdf_paths c0 f0 ↔ p ∈ pdf_paths ∧ (p ∉ c0) ∧ (p ∉ f0).
Proof.
  intros Hload Hrun. split; [|intros p; apply elem_of_remaining_files].
  rewrite process_pdfs_enterprise_run in Hrun. cbv zeta in Hrun.
  cbn [starting_lists to_submit] in Hrun. rewrite Hload in Hrun.
  unfold loaded in Hload.
  destruct (load_progress pf (outside fr)).2 as [[jc jf]|e]; [|done].
  case_decide.
  - simplify_eq. cbn. by rewrite app_nil_r.
  - apply (f_equal fst) in Hrun. cbn [fst] in Hrun. rewrite <- Hrun.
    rewrite report_submitted. unfold drained. by rewrite loop_submitted.
Qed.

Lemma resume_skips_terminal_ids_witness :
  let w := world_with_checkpoint default_progress_file ["a.pdf"] ["bad.pdf"] in
  let run := process_pdfs_enterprise (quiet_env some_fail)
               ["a.pdf"; "bad.pdf"; "c.pdf"; "d.pdf"] None true
               default_progress_file (fresh_frame w) in
  submitted (outside run.1) =
    submitted w ++
      (if decide (workers (quiet_env some_fail) None ≤ 0)%Z then []
       else remaining_files ["a.pdf"; "bad.pdf"; "c.pdf"; "d.pdf"]
                            ["a.pdf"] ["bad.pdf"]) ∧
  ∀ p, p ∈ remaining_files ["a.pdf"; "bad.pdf"; "c.pdf"; "d.pdf"]
                           ["a.pdf"] ["bad.pdf"] ↔
       p ∈ ["a.pdf"; "bad.pdf"; "c.pdf"; "d.pdf"] ∧ (p ∉ ["a.pdf"]) ∧ (p ∉ ["bad.pdf"]).
Proof.
  intros w run.
  apply (resume_skips_terminal_ids (quiet_env some_fail)
           ["a.pdf"; "bad.pdf"; "c.pdf"; "d.pdf"] None default_progress_file
           (fresh_frame w) run.1 run.2 ["a.pdf"] ["bad.pdf"]).
  - vm_compute. reflexivity.
  - apply surjective_pairing.
Defined.

(** That run hands only the two new paths to the pool. *)
Example resume_submits_the_rest :
  submitted (outside (process_pdfs_enterprise (quiet_env some_fail)
               ["a.pdf"; "bad.pdf"; "c.pdf"; "d.pdf"] None true
               default_progress_file
               (fresh_frame (world_with_checkpoint default_progress_file
                               ["a.pdf"] ["bad.pdf"]))).1)
  = ["c.pdf"; "d.pdf"].
Proof. vm_compute. reflexivity. Qed.

(** After the statements that follow the loop, the checkpoint loads as the
    lists of the frame. *)
Lemma report_loaded E pf t0 fr n m :
  (∀ k, number_text (clock E k)) →
  (report E pf t0 fr).2 = Ok (n, m) →
  loaded pf (outside (report E pf t0 fr).1)
  = Some (completed_files fr, failed_files fr).
Proof.
  intros Hclock. rewrite report_run. cbv zeta.
  destruct (save_csv_data E _ _ _).2; [|done].
  set (w3 := (save_csv_data E _ _ _).1).
  pose proof (loaded_after_save E (completed_files fr) (failed_files fr) pf w3
                (Hclock _)) as Hload.
  destruct (save_progress E _ _ _ _).2 as [[]|]; [|done].
  specialize (Hload eq_refl).
  repeat case_decide; try done; intros _;
    cbn [fst with_outside outside]; rewrite <- Hload; by apply loaded_files.
Qed.

(** A run that returned, called again with [resume] set on the same input,
    submits nothing: every input id is in the checkpoint the first run
    left. The corollary ties [save_progress], [load_progress] and the
    filter of line 213 together through the text of the checkpoint. *)
Corollary rerun_submits_nothing E pdf_paths mw mw' resume pf fr fr1 n m fr2 r2 :
  delivers E →
  (∀ k, number_text (clock E k)) →
  process_pdfs_enterprise E pdf_paths mw resume pf fr = (fr1, Ok (n, m)) →
  process_pdfs_enterprise E pdf_paths mw' true pf fr1 = (fr2, r2) →
  submitted (outside fr2) = submitted (outside fr1).
Proof.
  intros HE Hclock Hrun1 Hrun2.
  destruct (run_ok_inv _ _ _ _ _ _ _ _ _ Hrun1)
    as (c0 & f0 & Hstart & _ & Hfr & Hok).
  cbv zeta in Hfr, Hok.
  set (d := drained E pf c0 f0 (to_submit resume pdf_paths c0 f0) (outside fr)) in *.
  pose proof (report_loaded E pf _ d n m Hclock Hok) as Hload.
  rewrite <- Hfr in Hload.
  assert (Hall : remaining_files pdf_paths (completed_files d) (failed_files d) = []).
  { destruct (remaining_files pdf_paths (completed_files d) (failed_files d))
      as [|x l] eqn:Hrem; [done|].
    assert (Hx : x ∈ remaining_files pdf_paths (completed_files d) (failed_files d))
      by (rewrite Hrem; apply list_elem_of_here).
    apply elem_of_remaining_files in Hx as (Hx & Hc & Hf). exfalso.
    assert (Hin : x ∈ completed_files d ++ failed_files d).
    { unfold d, drained. rewrite loop_elem_of, (HE _).
      cbn [entry_frame completed_files failed_files].
      destruct resume; cbn [to_submit]; [|by right].
      rewrite elem_of_remaining_files, elem_of_app.
      destruct (decide (x ∈ c0)), (decide (x ∈ f0)); tauto. }
    apply elem_of_app in Hin. tauto. }
  rewrite process_pdfs_enterprise_run in Hrun2. cbv zeta in Hrun2.
  cbn [starting_lists to_submit] in Hrun2. rewrite Hload, Hall in Hrun2.
  unfold loaded in Hload.
  destruct (load_progress pf (outside fr1)).2 as [[jc jf]|e]; [|done].
  apply (f_equal fst) in Hrun2. cbn [fst] in Hrun2. rewrite <- Hrun2.
  case_decide; [done|].
  rewrite report_submitted. unfold drained. rewrite loop_submitted.
  cbn. by rewrite app_nil_r.
Qed.

(** The assumptions of the corollary hold in the quiet environment. *)
Example rerun_submits_nothing_here :
  let E := quiet_env some_fail in
  let first := process_pdfs_enterprise E ["a.pdf"; "bad.pdf"; "gone.pdf"] None
                 false default_progress_file (fresh_frame empty_world) in
  let second := process_pdfs_enterprise E ["a.pdf"; "bad.pdf"; "gone.pdf"]
                  (Some 2%Z) true default_progress_file first.1 in
  first.2 = Ok (1, 2) ∧
  submitted (outside second.1) = ["a.pdf"; "bad.pdf"; "gone.pdf"] ∧
  second.2 = Ok (1, 2).
Proof. vm_compute. done. Qed.

(** ** C3: each outcome is recorded once *)

Lemma point_all E pf c0 f0 todo w :
  point E pf c0 f0 todo w (length (as_completed E todo)) = drained E pf c0 f0 todo w.
Proof. unfold point, drained. by rewrite firstn_all. Qed.

Lemma point_S E pf c0 f0 todo w k a :
  as_completed E todo !! k = Some a →
  point E pf c0 f0 todo w (S k) =
    (handle_future E pf a (point E pf c0 f0 todo w k)).1.
Proof.
  intros Hk. unfold point. rewrite (take_S_r _ _ _ Hk). apply loop_snoc.
Qed.

(** At any point of a run without faulty writes, the two lists hold, counted
    with multiplicity, the ids the run started from and the ids of the
    futures handled so far. *)
Lemma point_permutation E pf c0 f0 todo w k :
  no_fault E →
  completed_files (point E pf c0 f0 todo w k) ++
  failed_files (point E pf c0 f0 todo w k)
  ≡ₚ (c0 ++ f0) ++ (take k (as_completed E todo)).*1.
Proof. intros HE. unfold point. by rewrite loop_permutation. Qed.

Lemma starting_lists_fresh pf w c0 f0 :
  starting_lists false pf w = Some (c0, f0) → c0 = [] ∧ f0 = [].
Proof. cbn. intros; by simplify_eq. Qed.



(** The lists of that run, point by point: the futures arrive in reverse
    order of submission. *)
Example each_outcome_recorded_once_here :
  let at_ j := point (quiet_env some_fail) default_progress_file [] []
                 ["a.pdf"; "bad.pdf"; "gone.pdf"] empty_world j in
  map (λ j, (completed_files (at_ j), failed_files (at_ j))) [0; 1; 2; 3]
  = [ ([], []); ([], ["gone.pdf"]); ([], ["gone.pdf"; "bad.pdf"]);
      (["a.pdf"], ["gone.pdf"; "bad.pdf"]) ].
Proof. vm_compute. reflexivity. Qed.


(** A fault of the periodic save inside the loop is caught by the handler of
    the loop, which records the path once more: here the tenth document,
    split without error, ends in both lists. This is why C3 and C6 are
    stated for runs without faulty writes. *)
Remark faulty_save_lists_the_item_twice :
  let E := Env ticking_clock first_write_torn 4 (pool_of id all_succeed) in
  let run := process_pdfs_enterprise E ten_paths None false default_progress_file
               (fresh_frame empty_world) in
  run.2 = Ok (10, 1) ∧
  "d9.pdf" ∈ completed_files run.1 ∧ failed_files run.1 = ["d9.pdf"].
Proof.
  intros E run. split; [vm_compute; reflexivity|]. split.
  - replace (completed_files run.1) with ten_paths by (vm_compute; reflexivity).
    unfold ten_paths. set_solver.
  - vm_compute. reflexivity.
Qed.

(** ** C4: the empty input *)

Lemma delivers_nil E : delivers E → as_completed E [] = [].
Proof.
  intros HE. specialize (HE []). apply Permutation_nil_r in HE.
  by apply fmap_nil_inv in HE.
Qed.

(** C4 fails on the code. With an empty input and [resume] off the call
    never returns its pair of counts: it raises [ValueError] when the pool
    cannot be created, [OSError] when the final checkpoint cannot be
    written, and otherwise [ZeroDivisionError], at the average per file of
    the report (line 262), after the checkpoint has been written. The exit
    status is 1 in each case. *)
Theorem empty_input_raises E mw pf fr :
  delivers E →
  let run := process_pdfs_enterprise E [] mw false pf fr in
  run.2 = (if decide (workers E mw ≤ 0)%Z then Raise ValueError
           else match fault E (opens (outside fr)) with
                | NoFault => Raise ZeroDivisionError
                | _ => Raise OSError
                end) ∧
  exit_status run.2 = 1.
Proof.
  intros HE run.
  assert (Hrun : run.2 = (if decide (workers E mw ≤ 0)%Z then Raise ValueError
           else match fault E (opens (outside fr)) with
                | NoFault => Raise ZeroDivisionError
                | _ => Raise OSError
                end)).
  { subst run. rewrite process_pdfs_enterprise_run. cbv zeta.
    cbn [starting_lists to_submit]. case_decide; [done|].
    unfold drained. rewrite (delivers_nil E HE), loop_nil, report_run. cbv zeta.
    cbn [entry_frame all_csv_data save_csv_data mret prog_ret fst snd outside
         completed_files failed_files].
    rewrite save_progress_run. cbn [fst snd opens]. unfold written. cbn [opens].
    destruct (fault E (opens (outside fr))); done. }
  split; [done|]. rewrite Hrun.
  case_decide; [done|]. by destruct (fault E (opens (outside fr))).
Qed.

Lemma empty_input_raises_witness :
  let run := process_pdfs_enterprise (quiet_env all_succeed) [] None false
               default_progress_file (fresh_frame empty_world) in
  run.2 = (if decide (workers (quiet_env all_succeed) None ≤ 0)%Z
           then Raise ValueError
           else match fault (quiet_env all_succeed)
                            (opens (outside (fresh_frame empty_world))) with
                | NoFault => Raise ZeroDivisionError
                | _ => Raise OSError
                end) ∧
  exit_status run.2 = 1.
Proof.
  apply (empty_input_raises (quiet_env all_succeed) None default_progress_file
           (fresh_frame empty_world)).
  apply quiet_env_delivers.
Defined.

(** On the default arguments: the division raises, the checkpoint has been
    written with two empty lists, and there is no dataset file. *)
Example empty_input_at_defaults :
  let run := process_pdfs_enterprise (quiet_env all_succeed) [] None false
               default_progress_file (fresh_frame empty_world) in
  run.2 = Raise ZeroDivisionError ∧
  files (outside run.1) !! default_progress_file
    = Some (json_dump (progress_dict [] [] "1700000001.5")) ∧
  files (outside run.1) !! default_csv_filename = None.
Proof. vm_compute. done. Qed.

(** ** C5: a save writes the checkpoint in place *)

(** C5, as the code has it. A save touches no file but the checkpoint. When
    it returns, the checkpoint holds exactly the text of the new state, and
    loading it gives back the two lists. When it raises, the checkpoint
    holds either what it held before (the file could not be opened) or a
    prefix of the new text (the write was cut short): there is no second
    file and no rename, so the previous content is kept only in the first
    case. *)
Theorem save_progress_writes_in_place E c f pf w :
  number_text (clock E (ticks w)) →
  let text := json_dump (progress_dict c f (clock E (ticks w))) in
  let run := save_progress E c f pf w in
  (∀ path, path ≠ pf → files run.1 !! path = files w !! path) ∧
  match run.2 with
  | Ok _ => files run.1 !! pf = Some text ∧ loaded pf run.1 = Some (c, f)
  | Raise _ =>
      files run.1 = files w
      ∨ ∃ k, files run.1 !! pf = Some (String.substring 0 k text)
  end.
Proof.
  intros Ht text run. split.
  - intros path Hne. by apply save_progress_files_other.
  - pose proof (loaded_after_save E c f pf w Ht) as Hload. fold run in Hload.
    subst run. revert Hload. rewrite save_progress_run. cbn [fst snd files].
    unfold written.
    destruct (fault E (opens w)) as [| |k]; cbn [fst snd]; intros Hload.
    + split; [by rewrite lookup_insert_eq|by apply Hload].
    + by left.
    + right. exists k. by rewrite lookup_insert_eq.
Qed.

Lemma save_progress_writes_in_place_witness :
  let E := quiet_env all_succeed in
  let w := world_with_checkpoint default_progress_file ["a.pdf"] [] in
  let text := json_dump (progress_dict ["a.pdf"; "b.pdf"] ["bad.pdf"]
                                       (clock E (ticks w))) in
  let run := save_progress E ["a.pdf"; "b.pdf"] ["bad.pdf"]
                           default_progress_file w in
  (∀ path, path ≠ default_progress_file →
           files run.1 !! path = files w !! path) ∧
  match run.2 with
  | Ok _ => files run.1 !! default_progress_file = Some text ∧
            loaded default_progress_file run.1
            = Some (["a.pdf"; "b.pdf"], ["bad.pdf"])
  | Raise _ =>
      files run.1 = files w
      ∨ ∃ k, files run.1 !! default_progress_file
             = Some (String.substring 0 k text)
  end.
Proof.
  apply (save_progress_writes_in_place (quiet_env all_succeed)
           ["a.pdf"; "b.pdf"] ["bad.pdf"] default_progress_file
           (world_with_checkpoint default_progress_file ["a.pdf"] [])).
  apply number_text_ticking_clock.
Defined.

(** C5, as the specification states it, fails when a write is cut short: the save
    raises, the checkpoint of the earlier run is gone, and what is left
    does not load. *)
Lemma torn_save_loses_checkpoint :
  let w := world_with_checkpoint default_progress_file ["a.pdf"] [] in
  let run := save_progress (always_torn 20) ["a.pdf"; "b.pdf"] []
               default_progress_file w in
  (load_progress default_progress_file w).2 = Ok (JArr [JStr "a.pdf"], JArr []) ∧
  run.2 = Raise OSError ∧
  files run.1 !! default_progress_file ≠ files w !! default_progress_file ∧
  (load_progress default_progress_file run.1).2 = Raise JSONDecodeError.
Proof.
  intros w run. split; [vm_compute; reflexivity|].
  split; [vm_compute; reflexivity|].
  split; [|vm_compute; reflexivity].
  vm_compute. discriminate.
Qed.

(** ** C6: when the checkpoint is written *)

Lemma handle_future_returned_no_fault E pf p r fr :
  no_fault E →
  let fr1 := booked p r fr in
  (handle_future E pf (p, Ok r) fr).1 =
    if decide (due fr1)
    then with_outside fr1
           (World (<[pf := json_dump (progress_dict (completed_files fr1)
                                        (failed_files fr1)
                                        (clock E (ticks (outside fr))))]>
                     (files (outside fr)))
                  (S (ticks (outside fr))) (S (opens (outside fr)))
                  (submitted (outside fr)))
    else fr1.
Proof.
  intros HE fr1. rewrite handle_future_returned. cbv zeta. fold fr1.
  case_decide; [|done].
  rewrite save_progress_no_fault by apply HE. cbn [fst snd].
  subst fr1. by rewrite booked_outside.
Qed.

Lemma booked_length p r fr :
  length (completed_files (booked p r fr) ++ failed_files (booked p r fr))
  = S (length (completed_files fr ++ failed_files fr)).
Proof.
  destruct (booked_lists p r fr) as [[-> ->]|[-> ->]];
    rewrite !length_app; cbn; lia.
Qed.

Section Cadence.
Context (E : env) (pf : string) (c0 f0 todo : list string) (w : world).
Context (HE : no_fault E) (Hret : all_return (as_completed E todo)).

Local Abbreviation at_ k := (point E pf c0 f0 todo w k).

Lemma point_step k :
  k < length (as_completed E todo) →
  ∃ p r, as_completed E todo !! k = Some (p, Ok r) ∧
         at_ (S k) = (handle_future E pf (p, Ok r) (at_ k)).1.
Proof.
  intros Hk. destruct (lookup_lt_is_Some_2 _ _ Hk) as [[p o] Ha].
  destruct (proj1 (Forall_lookup _ _) Hret k _ Ha) as [r Hr].
  cbn in Hr. subst o. exists p, r. split; [done|].
  by apply point_S.
Qed.

Lemma point_recorded k :
  k ≤ length (as_completed E todo) →
  length (completed_files (at_ k) ++ failed_files (at_ k))
  = length c0 + length f0 + k.
Proof.
  intros Hk. rewrite (point_permutation E pf c0 f0 todo w k HE).
  rewrite !length_app, length_fmap, length_take. lia.
Qed.

(** After a future has returned and been booked, the checkpoint is
    written in the same iteration exactly when the number of recorded ids
    is a multiple of ten. *)
Lemma point_cadence k :
  k < length (as_completed E todo) →
  if decide (due (at_ (S k)))
  then files (outside (at_ (S k))) !! pf
       = Some (json_dump (progress_dict (completed_files (at_ (S k)))
                            (failed_files (at_ (S k)))
                            (clock E (ticks (outside (at_ k))))))
  else outside (at_ (S k)) = outside (at_ k).
Proof.
  intros Hk. destruct (point_step k Hk) as (p & r & _ & ->).
  rewrite handle_future_returned_no_fault by done. cbv zeta.
  destruct (decide (due (booked p r (at_ k)))) as [Hdue|Hdue].
  - rewrite decide_True by done.
    cbn [with_outside outside files completed_files failed_files].
    by rewrite lookup_insert_eq.
  - rewrite decide_False by done. apply booked_outside.
Qed.

(** At every point the checkpoint on disk is the one of a point at most
    nine outcomes back, or nothing has been written since the loop
    started, which is then at most nine outcomes back. *)
Lemma point_lag k :
  k ≤ length (as_completed E todo) →
  ∃ j, j ≤ k ∧
       k - j ≤ length (completed_files (at_ k) ++ failed_files (at_ k)) mod 10 ∧
       if decide (j = 0) then outside (at_ k) = outside (at_ 0)
       else ∃ t, files (outside (at_ k)) !! pf
                 = Some (json_dump (progress_dict (completed_files (at_ j))
                                      (failed_files (at_ j)) t)).
Proof.
  induction k as [|k IH]; intros Hk.
  - exists 0. split; [done|]. split; [lia|]. by rewrite decide_True.
  - destruct IH as (j & Hj & Hlag & Hdisk); [lia|].
    pose proof (point_cadence k ltac:(lia)) as Hcad.
    pose proof (point_recorded k ltac:(lia)) as Hlk.
    pose proof (point_recorded (S k) Hk) as HlSk.
    destruct (decide (due (at_ (S k)))) as [Hdue|Hdue].
    + exists (S k). split; [done|]. split; [lia|].
      rewrite decide_False by lia. eauto.
    + exists j. split; [lia|]. split.
      * unfold due in Hdue. rewrite HlSk in *. rewrite Hlk in Hlag.
        replace (length c0 + length f0 + S k) with
          (S (length c0 + length f0 + k)) in * by lia.
        pose proof (Nat.mod_upper_bound (length c0 + length f0 + k) 10).
        pose proof (Nat.div_mod_eq (length c0 + length f0 + k) 10).
        pose proof (Nat.div_mod_eq (S (length c0 + length f0 + k)) 10).
        pose proof (Nat.mod_upper_bound (S (length c0 + length f0 + k)) 10).
        lia.
      * rewrite Hcad. done.
Qed.
End Cadence.

Lemma report_final_checkpoint E pf t0 fr n m :
  (report E pf t0 fr).2 = Ok (n, m) →
  ∃ t, files (outside (report E pf t0 fr).1) !! pf
       = Some (json_dump (progress_dict (completed_files fr) (failed_files fr) t)).
Proof.
  rewrite report_run. cbv zeta.
  destruct (save_csv_data E _ _ _).2; [|done].
  set (w3 := (save_csv_data E _ _ _).1).
  rewrite save_progress_run. cbn [fst snd files ticks]. unfold written.
  destruct (fault E (opens w3)); cbn [fst snd]; [|done..].
  repeat case_decide; try done; intros _;
    cbn [fst with_outside outside files];
    rewrite lookup_insert_eq; eauto.
Qed.




(** A future that raises is recorded by the handler of the loop, after the
    test of line 238: when it is the tenth outcome, no checkpoint is written
    for it. This is why C6 is stated for runs in which every future
    returns. *)
Remark raising_future_skips_the_save :
  let E := Env ticking_clock (λ _, NoFault) 4 (pool_of id some_fail) in
  let todo := ["d0.pdf"; "d1.pdf"; "d2.pdf"; "d3.pdf"; "d4.pdf";
               "d5.pdf"; "d6.pdf"; "d7.pdf"; "d8.pdf"; "gone.pdf"] in
  let at_ k := point E default_progress_file [] [] todo empty_world k in
  length (completed_files (at_ 10) ++ failed_files (at_ 10)) = 10 ∧
  outside (at_ 10) = outside (at_ 0) ∧
  files (outside (at_ 10)) !! default_progress_file = None.
Proof. vm_compute. done. Qed.

(** ** C7: loading a checkpoint *)

Lemma scan_once_flat fuel level v rest :
  flat v → items_of v < fuel →
  scan_once (S fuel) (iterencode level v +:+ rest) = Ok (v, rest) ∧
  skip_ws (iterencode level v +:+ rest) = iterencode level v +:+ rest.
Proof.
  intros [|[]|s|xs] Hfuel.
  - done.
  - done.
  - done.
  - split; [apply scan_once_string|apply skip_ws_encoded].
  - cbn [items_of] in Hfuel. rewrite length_map in Hfuel.
    split; [by apply scan_once_strings|apply skip_ws_strings].
Qed.

Lemma length_flat level v :
  flat v → items_of v ≤ String.length (iterencode level v).
Proof.
  intros [|b|s|xs]; cbn [items_of]; try lia.
  rewrite length_map. pose proof (length_strings level xs). lia.
Qed.

Lemma checkpoint_of_text c f :
  checkpoint_of c f =
    String "{" (newline_indent 1 +:+ encode_basestring_ascii "completed"
      +:+ String ":" (String " " (iterencode 1 c +:+ String "," (newline_indent 1
      +:+ encode_basestring_ascii "failed"
      +:+ String ":" (String " " (iterencode 1 f +:+ newline_indent 0
      +:+ String "}" EmptyString)))))).
Proof.
  unfold checkpoint_of, json_dump. cbn [iterencode map join].
  rewrite !append_assoc. reflexivity.
Qed.

Lemma scan_once_checkpoint_of fuel c f :
  flat c → flat f → items_of c < S fuel → items_of f < fuel →
  scan_once (S (S (S (S fuel)))) (checkpoint_of c f)
  = Ok (JObj [("completed", c); ("failed", f)], EmptyString).
Proof.
  intros Hc Hf Hlc Hlf. rewrite checkpoint_of_text, scan_once_S.
  cbn [starts_with tail].
  change (bool_decide (nat_of_ascii "{" = 34)) with false.
  change (bool_decide (nat_of_ascii "{" = 123)) with true. cbv iota zeta.
  rewrite skip_ws_newline_indent, encode_basestring_ascii_cons.
  cbn [skip_ws]. change (is_ws (ascii_of_nat 34)) with false. cbv iota.
  cbn [starts_with tail].
  change (bool_decide (nat_of_ascii (ascii_of_nat 34) = 125)) with false.
  change (bool_decide (nat_of_ascii (ascii_of_nat 34) = 34)) with true. cbv iota.
  set (m2 := String ":" (String " " (iterencode 1 f +:+ newline_indent 0
               +:+ String "}" EmptyString))).
  destruct (scan_once_flat (S fuel) 1 c
              (String "," (newline_indent 1 +:+ encode_basestring_ascii "failed" +:+ m2))
              Hc Hlc) as [Hsc Hwc].
  rewrite (parse_members_more _ "completed" _ c "failed" m2 Hwc Hsc).
  subst m2.
  destruct (scan_once_flat fuel 1 f (newline_indent 0 +:+ String "}" EmptyString)
              Hf Hlf) as [Hsf Hwf].
  rewrite (parse_members_last _ "failed" _ f EmptyString Hwf Hsf).
  reflexivity.
Qed.

Lemma length_checkpoint_of c f :
  flat c → flat f →
  items_of c + items_of f + 4 ≤ String.length (checkpoint_of c f).
Proof.
  intros Hc Hf. rewrite checkpoint_of_text.
  repeat (progress cbn [String.length] || rewrite !length_append).
  pose proof (length_flat 1 c Hc). pose proof (length_flat 1 f Hf). lia.
Qed.

(** A file with flat values under the two keys is read back as those
    values. *)
Lemma json_loads_checkpoint_of c f :
  flat c → flat f →
  json_loads (checkpoint_of c f) = Ok (JObj [("completed", c); ("failed", f)]).
Proof.
  intros Hc Hf. unfold json_loads.
  pose proof (length_checkpoint_of c f Hc Hf) as Hlen.
  replace (skip_ws (checkpoint_of c f)) with (checkpoint_of c f)
    by (by rewrite checkpoint_of_text).
  replace (2 * String.length (checkpoint_of c f) + 2)
    with (S (S (S (S (2 * String.length (checkpoint_of c f) - 2))))) by lia.
  rewrite scan_once_checkpoint_of by (done || lia). reflexivity.
Qed.

(** C7, as the code has it. Loading changes nothing. A missing file gives
    two empty lists. A state is returned in two cases only: the file is
    missing, or its text is a JSON object, and then the state holds what
    stands under [completed] and [failed], an empty list standing for a
    missing key. A text that is not a JSON object makes the load raise.
    What an object holds under the two keys is not looked at: be it a
    string, a constant or a list of strings on either side, the load
    returns it. *)
Theorem load_progress_cases pf w :
  (load_progress pf w).1 = w ∧
  (files w !! pf = None → (load_progress pf w).2 = Ok (JArr [], JArr [])) ∧
  (∀ c f, (load_progress pf w).2 = Ok (c, f) →
     (files w !! pf = None ∧ c = JArr [] ∧ f = JArr [])
     ∨ ∃ text members,
         files w !! pf = Some text ∧ json_loads text = Ok (JObj members) ∧
         c = dict_get "completed" members (JArr []) ∧
         f = dict_get "failed" members (JArr [])) ∧
  (∀ text, files w !! pf = Some text →
     json_loads text ≠ Raise Unmodelled →
     (∀ members, json_loads text ≠ Ok (JObj members)) →
     ∃ e, (load_progress pf w).2 = Raise e) ∧
  (∀ c f, flat c → flat f → files w !! pf = Some (checkpoint_of c f) →
     (load_progress pf w).2 = Ok (c, f)).
Proof.
  split; [apply load_progress_world|]. rewrite load_progress_result.
  split; [by intros ->|]. split; [|split].
  - intros c f. destruct (files w !! pf) as [text|]; [|intros [= <- <-]; by left].
    destruct (json_loads text) as [[| | | | |members]|e] eqn:Hj; try done.
    intros [= <- <-]. right. by exists text, members.
  - intros text -> _ Hobj.
    destruct (json_loads text) as [[| | | | |members]|e] eqn:Hj; try by eexists.
    by destruct (Hobj members).
  - intros c f Hc Hf ->. by rewrite json_loads_checkpoint_of.
Qed.

(** A file that is not JSON at all, a JSON text that is a list, no file,
    and an object without the two keys. *)
Example load_progress_rejects :
  (load_progress default_progress_file
     (World {[ default_progress_file := "completed: a.pdf" ]} 0 0 [])).2
  = Raise JSONDecodeError ∧
  (load_progress default_progress_file
     (World {[ default_progress_file := "[]" ]} 0 0 [])).2
  = Raise AttributeError ∧
  (load_progress default_progress_file empty_world).2 = Ok (JArr [], JArr []) ∧
  (load_progress default_progress_file
     (World {[ default_progress_file := "{}" ]} 0 0 [])).2
  = Ok (JArr [], JArr []).
Proof. vm_compute. done. Qed.

(** C7, as the specification states it, fails on that file: the load returns, with a
    number and a string in the place of the two lists. *)
Lemma malformed_checkpoint_is_returned :
  let w := World {[ default_progress_file := malformed_checkpoint ]} 0 0 [] in
  (load_progress default_progress_file w).2 = Ok (JNum "7", JStr "zzz") ∧
  as_str_list (JNum "7") = None ∧ as_str_list (JStr "zzz") = None.
Proof. vm_compute. done. Qed.

(** ** C8: the rows of the dataset *)

Lemma read_all_app r s1 s2 :
  read_all r (s1 +:+ s2) = read_all (read_all r s1) s2.
Proof.
  revert r. induction s1 as [|c s1 IH]; intros r; [done|].
  rewrite append_cons. cbn [read_all]. apply IH.
Qed.

Lemma is_special_classify c : is_special c = false ↔ classify c = Other.
Proof.
  unfold is_special, classify. cbv zeta.
  rewrite bool_decide_eq_false. repeat case_decide; split; (done || lia).
Qed.

Lemma classify_quote c : nat_of_ascii c = 34 ↔ classify c = Quote.
Proof. unfold classify. cbv zeta. repeat case_decide; split; (done || lia). Qed.

Lemma has_special_cons c s :
  has_special (String c s) = false ↔ classify c = Other ∧ has_special s = false.
Proof. cbn [has_special]. rewrite orb_false_iff, is_special_classify. done. Qed.

(** An unquoted field is read as it is. *)
Lemma read_plain s fld rec rows :
  has_special s = false →
  read_all (Reader InField fld rec rows) s = Reader InField (fld +:+ s) rec rows.
Proof.
  revert fld. induction s as [|c s IH]; intros fld Hs.
  - by rewrite append_nil_r.
  - apply has_special_cons in Hs as [Hc Hs]. cbn [read_all].
    unfold read_char. cbn [r_state]. rewrite Hc. unfold add_char. cbn [r_field
      r_record r_rows].
    rewrite IH by done. by rewrite append_assoc.
Qed.

(** A quoted field is read with its doubled quotes undone. *)
Lemma read_quoted s fld rec rows :
  read_all (Reader InQuoted fld rec rows) (double_quotes s)
  = Reader InQuoted (fld +:+ s) rec rows.
Proof.
  revert fld. induction s as [|c s IH]; intros fld.
  - by rewrite append_nil_r.
  - cbn [double_quotes]. case_decide as Hc.
    + apply classify_quote in Hc. cbn [read_all]. unfold read_char at 2.
      cbn [r_state]. rewrite Hc. unfold read_char. cbn [r_state]. rewrite Hc.
      unfold add_char. cbn [r_field r_record r_rows].
      rewrite IH. by rewrite append_assoc.
    + cbn [read_all]. unfold read_char. cbn [r_state].
      destruct (classify c) eqn:Hcl;
        try (apply classify_quote in Hcl; done);
        unfold add_char; cbn [r_field r_record r_rows];
        rewrite IH; by rewrite append_assoc.
Qed.

Lemma read_field st f rec rows :
  st = StartField ∨ (st = StartRecord ∧ f ≠ EmptyString) →
  pending f rec rows (read_all (Reader st EmptyString rec rows) (csv_field f)) ∧
  r_state (read_all (Reader st EmptyString rec rows) (csv_field f)) ≠ StartRecord.
Proof.
  intros Hst. unfold csv_field. destruct (has_special f) eqn:Hf.
  - unfold quote, chr. rewrite append_cons, append_nil_l. cbn [read_all].
    replace (read_char (Reader st EmptyString rec rows) (ascii_of_nat 34))
      with (Reader InQuoted EmptyString rec rows)
      by (by destruct Hst as [->|[-> _]]).
    rewrite read_all_app, read_quoted, append_nil_l. by cbn.
  - destruct f as [|c f].
    + destruct Hst as [->|[_ ?]]; [|done]. by cbn.
    + apply has_special_cons in Hf as [Hc Hf]. cbn [read_all].
      replace (read_char (Reader st EmptyString rec rows) c)
        with (Reader InField (String c EmptyString) rec rows).
      2:{ destruct Hst as [->|[-> _]]; unfold read_char, start_record,
            start_field; cbn [r_state]; by rewrite Hc. }
      rewrite read_plain by done. by cbn.
Qed.

Lemma read_field_comma st f rec rows rest :
  st = StartField ∨ (st = StartRecord ∧ f ≠ EmptyString) →
  read_all (Reader st EmptyString rec rows) (csv_field f +:+ "," +:+ rest)
  = read_all (Reader StartField EmptyString (rec ++ [f]) rows) rest.
Proof.
  intros Hst. rewrite read_all_app.
  destruct (read_field st f rec rows Hst) as [[Hcomma _] _].
  rewrite append_cons, append_nil_l. cbn [read_all]. by rewrite Hcomma.
Qed.

Lemma read_field_crlf st f rec rows rest :
  st = StartField ∨ (st = StartRecord ∧ f ≠ EmptyString) →
  read_all (Reader st EmptyString rec rows)
           (csv_field f +:+ carriage_return +:+ newline +:+ rest)
  = read_all (Reader StartRecord EmptyString [] (rows ++ [rec ++ [f]])) rest.
Proof.
  intros Hst. rewrite read_all_app.
  destruct (read_field st f rec rows Hst) as [[_ Hcr] Hne].
  unfold carriage_return, newline, chr.
  rewrite !append_cons, !append_nil_l. cbn [read_all].
  by rewrite (Hcr Hne).
Qed.

(** The fields of a line after the first. *)
Lemma read_fields fs rec rows rest :
  fs ≠ [] →
  read_all (Reader StartField EmptyString rec rows)
           (join "," (map csv_field fs) +:+ carriage_return +:+ newline +:+ rest)
  = read_all (Reader StartRecord EmptyString [] (rows ++ [rec ++ fs])) rest.
Proof.
  revert rec. induction fs as [|f fs IH]; intros rec Hfs; [done|].
  destruct fs as [|f' fs].
  - cbn [map join]. apply read_field_crlf. by left.
  - change (join "," (map csv_field (f :: f' :: fs)))
      with (csv_field f +:+ "," +:+ join "," (map csv_field (f' :: fs))).
    rewrite !append_assoc, read_field_comma by (by left).
    rewrite IH by done. by rewrite <- app_assoc.
Qed.

(** A line written by [writerow] is read back as one record with the same
    fields. *)
Lemma read_line fs rows rest :
  fs ≠ [] →
  read_all (Reader StartRecord EmptyString [] rows) (csv_line fs +:+ rest)
  = read_all (Reader StartRecord EmptyString [] (rows ++ [fs])) rest.
Proof.
  intros Hfs. destruct fs as [|f fs]; [done|].
  destruct fs as [|f' fs].
  - destruct f as [|c f].
    + by cbn.
    + unfold csv_line. cbn [map join]. rewrite !append_assoc.
      rewrite read_field_crlf by (by right). done.
  - replace (csv_line (f :: f' :: fs))
      with (join "," (map csv_field (f :: f' :: fs))
              +:+ carriage_return +:+ newline) by (by destruct f).
    change (join "," (map csv_field (f :: f' :: fs)))
      with (csv_field f +:+ "," +:+ join "," (map csv_field (f' :: fs))).
    rewrite !append_assoc.
    destruct f as [|c f].
    + cbn [csv_field has_special]. rewrite append_nil_l.
      rewrite append_cons, append_nil_l. cbn [read_all].
      change (read_char (Reader StartRecord EmptyString [] rows) ",")
        with (Reader StartField EmptyString ([] ++ [EmptyString]) rows).
      rewrite read_fields by done. done.
    + rewrite read_field_comma by (by right).
      rewrite read_fields by done. done.
Qed.

Lemma read_lines (lines : list (list string)) rows rest :
  Forall (λ fs, fs ≠ []) lines →
  read_all (Reader StartRecord EmptyString [] rows)
           (concat_strings (map csv_line lines) +:+ rest)
  = read_all (Reader StartRecord EmptyString [] (rows ++ lines)) rest.
Proof.
  intros Hlines. revert rows.
  induction Hlines as [|fs lines Hfs _ IH]; intros rows.
  - by rewrite app_nil_r.
  - cbn [map concat_strings]. rewrite append_assoc, read_line by done.
    rewrite IH. by rewrite <- app_assoc.
Qed.

(** The dataset read back: the header, then one record per row, in order. *)
Lemma csv_rows_csv_text rows :
  csv_rows (csv_text rows) = fieldnames :: map row_values rows.
Proof.
  unfold csv_rows, csv_text.
  rewrite read_line by done.
  rewrite <- (append_nil_r (concat_strings _)).
  rewrite <- (map_map row_values csv_line).
  rewrite read_lines; [done|].
  apply Forall_forall. intros fs (r & -> & _)%list_elem_of_fmap. done.
Qed.

Lemma save_csv_data_empty E path w : save_csv_data E [] path w = (w, Ok tt).
Proof. reflexivity. Qed.

(** C8. When the accumulated sequence is empty the serialization returns
    without opening any file: the world is unchanged. Otherwise, the write
    not being faulty, the file holds the header line and one line per
    record; read back, it gives the six column names and then, for each
    record in order, its six values. *)
Theorem dataset_has_one_row_per_record E rows path w :
  fault E (opens w) = NoFault →
  let run := save_csv_data E rows path w in
  run.2 = Ok tt ∧
  match rows with
  | [] => run.1 = w
  | _ =>
      files run.1 !! path = Some (csv_text rows) ∧
      csv_rows (csv_text rows) = fieldnames :: map row_values rows ∧
      length (csv_rows (csv_text rows)) = S (length rows) ∧
      Forall (λ fs, length fs = length fieldnames) (csv_rows (csv_text rows))
  end.
Proof.
  intros Hfault run. subst run. destruct rows as [|r rows]; [done|].
  cbn [save_csv_data]. rewrite write_file_run. unfold written. rewrite Hfault.
  cbn [fst snd files]. rewrite lookup_insert_eq, csv_rows_csv_text.
  repeat split; try done.
  - cbn [length]. by rewrite length_map.
  - apply Forall_cons. split; [done|].
    apply Forall_forall. intros fs (r' & -> & _)%list_elem_of_fmap. done.
Qed.

Lemma dataset_has_one_row_per_record_witness :
  let run := save_csv_data (quiet_env all_succeed) two_rows default_csv_filename
                           empty_world in
  run.2 = Ok tt ∧
  files run.1 !! default_csv_filename = Some (csv_text two_rows) ∧
  csv_rows (csv_text two_rows) = fieldnames :: map row_values two_rows ∧
  length (csv_rows (csv_text two_rows)) = S (length two_rows) ∧
  Forall (λ fs, length fs = length fieldnames) (csv_rows (csv_text two_rows)).
Proof.
  apply (dataset_has_one_row_per_record (quiet_env all_succeed) two_rows
           default_csv_filename empty_world).
  reflexivity.
Defined.

(** The text of these two rows: the name with a comma and the address with
    quotes are quoted, the quotes doubled. *)
Example two_rows_text :
  csv_text two_rows =
    "filename,case_number,name,address,source_file,page_number"
      +:+ carriage_return +:+ newline
      +:+ "Case_Number_A-12_Page_Num_1.pdf,A-12," +:+ quote +:+ "Doe, Jane" +:+ quote
      +:+ ",1 Main St,in.pdf,1" +:+ carriage_return +:+ newline
      +:+ "Case_Number_UNKNOWN_Page_Num_2.pdf,UNKNOWN,,"
      +:+ quote +:+ "Flat " +:+ quote +:+ quote +:+ "B" +:+ quote +:+ quote +:+ quote
      +:+ ",in.pdf,2" +:+ carriage_return +:+ newline.
Proof. vm_compute. reflexivity. Qed.

(** ** C9: saving twice *)

(** C9. Two saves of the same lists in a row, neither faulty, leave
    checkpoints that differ only by the reading of the clock written in
    them: the text before it and the text after it are the same, no other
    file changes, and with equal readings the files are identical. *)
Theorem save_progress_idempotent E c f pf w :
  fault E (opens w) = NoFault →
  fault E (S (opens w)) = NoFault →
  let first := save_progress E c f pf w in
  let second := save_progress E c f pf first.1 in
  first.2 = Ok tt ∧ second.2 = Ok tt ∧
  files first.1 !! pf
    = Some (checkpoint_head c f +:+ clock E (ticks w) +:+ checkpoint_tail) ∧
  files second.1 !! pf
    = Some (checkpoint_head c f +:+ clock E (S (ticks w)) +:+ checkpoint_tail) ∧
  (∀ path, path ≠ pf → files second.1 !! path = files first.1 !! path) ∧
  (clock E (S (ticks w)) = clock E (ticks w) → files second.1 = files first.1).
Proof.
  intros H1 H2 first second. subst second first.
  rewrite (save_progress_no_fault E c f pf w H1). cbn [fst snd].
  rewrite save_progress_no_fault by exact H2. cbn [fst snd files ticks].
  rewrite !lookup_insert_eq, !checkpoint_text.
  repeat split; try done.
  - intros path Hne. by rewrite !lookup_insert_ne by congruence.
  - intros ->. by rewrite insert_insert_eq.
Qed.

Lemma save_progress_idempotent_witness :
  let E := quiet_env all_succeed in
  let first := save_progress E ["a.pdf"] ["bad.pdf"] default_progress_file
                             empty_world in
  let second := save_progress E ["a.pdf"] ["bad.pdf"] default_progress_file
                              first.1 in
  first.2 = Ok tt ∧ second.2 = Ok tt ∧
  files first.1 !! default_progress_file
    = Some (checkpoint_head ["a.pdf"] ["bad.pdf"]
              +:+ clock E (ticks empty_world) +:+ checkpoint_tail) ∧
  files second.1 !! default_progress_file
    = Some (checkpoint_head ["a.pdf"] ["bad.pdf"]
              +:+ clock E (S (ticks empty_world)) +:+ checkpoint_tail) ∧
  (∀ path, path ≠ default_progress_file →
           files second.1 !! path = files first.1 !! path) ∧
  (clock E (S (ticks empty_world)) = clock E (ticks empty_world) →
   files second.1 = files first.1).
Proof.
  apply (save_progress_idempotent (quiet_env all_succeed) ["a.pdf"] ["bad.pdf"]
           default_progress_file empty_world); reflexivity.
Defined.

(** ** C10: the dataset of a resumed run *)

Lemma save_csv_data_ok E rows path w :
  (save_csv_data E rows path w).2 = Ok tt →
  files (save_csv_data E rows path w).1 !! path =
    match rows with
    | [] => files w !! path
    | _ => Some (csv_text rows)
    end.
Proof.
  destruct rows as [|r rows]; [done|].
  cbn [save_csv_data]. rewrite write_file_run. unfold written.
  destruct (fault E (opens w)); cbn [fst snd files]; [|done..].
  intros _. by rewrite lookup_insert_eq.
Qed.

Lemma report_dataset E pf t0 fr n m :
  pf ≠ default_csv_filename →
  (report E pf t0 fr).2 = Ok (n, m) →
  files (outside (report E pf t0 fr).1) !! default_csv_filename =
    match all_csv_data fr with
    | [] => files (outside fr) !! default_csv_filename
    | _ => Some (csv_text (all_csv_data fr))
    end.
Proof.
  intros Hne. rewrite report_run. cbv zeta.
  destruct (save_csv_data E _ _ _).2 as [[]|] eqn:Hcsv; [|done].
  apply save_csv_data_ok in Hcsv.
  destruct (save_progress E _ _ _ _).2 eqn:Hs; [|done].
  repeat case_decide; try done; intros _;
    cbn [fst with_outside outside files];
    by rewrite save_progress_files_other by congruence.
Qed.

(** C10. The dataset a resumed run writes holds the records of the futures
    of that run and nothing else: the aggregator starts empty, every future
    is for a path of the input that is in neither list of the checkpoint,
    and the file is rewritten from the aggregator alone. When the run
    produces no record the file is left as it was. *)
Theorem resumed_dataset_holds_only_new_records
    E pdf_paths mw pf fr fr' n m c0 f0 :
  delivers E →
  pf ≠ default_csv_filename →
  loaded pf (outside fr) = Some (c0, f0) →
  process_pdfs_enterprise E pdf_paths mw true pf fr = (fr', Ok (n, m)) →
  let futures := as_completed E (remaining_files pdf_paths c0 f0) in
  all_csv_data fr' = records_of futures ∧
  Forall (λ a, a.1 ∈ pdf_paths ∧ (a.1 ∉ c0) ∧ (a.1 ∉ f0)) futures ∧
  files (outside fr') !! default_csv_filename =
    match records_of futures with
    | [] => files (outside fr) !! default_csv_filename
    | _ => Some (csv_text (records_of futures))
    end.
Proof.
  intros HE Hne Hload Hrun futures.
  destruct (run_ok_inv _ _ _ _ _ _ _ _ _ Hrun)
    as (c0' & f0' & Hstart & _ & Hfr & Hok).
  cbn [starting_lists] in Hstart. rewrite Hload in Hstart. simplify_eq.
  cbv zeta in Hok |- *. cbn [to_submit] in *.
  set (fr2 := drained E pf c0' f0' (remaining_files pdf_paths c0' f0') (outside fr))
    in *.
  assert (Hrecs : all_csv_data fr2 = records_of futures).
  { unfold fr2, drained. by rewrite loop_records. }
  split; [|split].
  - destruct (report_locals E pf (clock E (ticks (outside fr))) fr2)
      as (_ & _ & ->). done.
  - apply Forall_forall. intros a Ha.
    apply elem_of_remaining_files. rewrite <- (HE _).
    by apply list_elem_of_fmap_2.
  - rewrite (report_dataset _ _ _ _ _ _ Hne Hok), Hrecs.
    destruct (records_of futures); [|done].
    unfold fr2, drained. by rewrite loop_files_other by congruence.
Qed.

Lemma resumed_dataset_holds_only_new_records_witness :
  let E := quiet_env some_fail in
  let w := world_with_checkpoint default_progress_file ["a.pdf"] ["bad.pdf"] in
  let input := ["a.pdf"; "bad.pdf"; "c.pdf"; "bad2.pdf"; "d.pdf"] in
  let run := process_pdfs_enterprise E input None true default_progress_file
               (fresh_frame w) in
  let futures := as_completed E (remaining_files input ["a.pdf"] ["bad.pdf"]) in
  all_csv_data run.1 = records_of futures ∧
  Forall (λ a, a.1 ∈ input ∧ (a.1 ∉ ["a.pdf"]) ∧ (a.1 ∉ ["bad.pdf"])) futures ∧
  files (outside run.1) !! default_csv_filename =
    match records_of futures with
    | [] => files (outside (fresh_frame w)) !! default_csv_filename
    | _ => Some (csv_text (records_of futures))
    end.
Proof.
  intros E w input run.
  apply (resumed_dataset_holds_only_new_records E input None
           default_progress_file (fresh_frame w) run.1 3 2 ["a.pdf"] ["bad.pdf"]).
  - apply quiet_env_delivers.
  - discriminate.
  - vm_compute. reflexivity.
  - vm_compute. reflexivity.
Defined.

(** The dataset of that run: the two new documents, in arrival order. *)
Example resumed_dataset_rows :
  let w := world_with_checkpoint default_progress_file ["a.pdf"] ["bad.pdf"] in
  let run := process_pdfs_enterprise (quiet_env some_fail)
               ["a.pdf"; "bad.pdf"; "c.pdf"; "bad2.pdf"; "d.pdf"] None true
               default_progress_file (fresh_frame w) in
  csv_rows <$> files (outside run.1) !! default_csv_filename
  = Some [fieldnames; row_values (one_page "d.pdf"); row_values (one_page "c.pdf")].
Proof. vm_compute. reflexivity. Qed.

(** ** Patterns and what they capture *)

Lemma all_chars_mono (P Q : ascii → bool) s :
  (∀ c, P c → Q c) → all_chars P s → all_chars Q s.
Proof.
  intros HPQ. induction s as [|c s IH]; [done|]. cbn [all_chars].
  rewrite !andb_True. intros [? ?]. auto.
Qed.

Lemma all_chars_app P s1 s2 :
  all_chars P (s1 +:+ s2) = all_chars P s1 && all_chars P s2.
Proof.
  induction s1 as [|c s1 IH]; [done|]. rewrite append_cons. cbn [all_chars].
  by rewrite IH, andb_assoc.
Qed.

Lemma keep_group a p c g :
  accepts a c → all_chars (group_accepts (a :: p)) g →
  all_chars (group_accepts (a :: p)) (keep a c g).
Proof.
  intros Hc Hg. unfold keep. destruct (in_group a) eqn:Ha; [|done].
  cbn [all_chars]. rewrite andb_True. split; [|done].
  unfold group_accepts. cbn [existsb]. rewrite Ha. by destruct (accepts a c).
Qed.

Lemma group_accepts_cons a p c : group_accepts p c → group_accepts (a :: p) c.
Proof. unfold group_accepts. cbn [existsb]. rewrite orb_True. auto. Qed.

Lemma match_repeat_group a p :
  (∀ s g, match_at p s = Some g → all_chars (group_accepts p) g) →
  ∀ s g, match_repeat a (match_at p) s = Some g →
         all_chars (group_accepts (a :: p)) g.
Proof.
  intros IH s. induction s as [|c s IHs]; intros g; cbn [match_repeat].
  - intros H. eapply all_chars_mono; [apply group_accepts_cons|]. by eapply IH.
  - destruct (accepts a c) eqn:Hc.
    + destruct (match_repeat a (match_at p) s) as [g'|] eqn:Hr.
      * intros [= <-]. apply keep_group; [by rewrite Hc|]. by apply IHs.
      * intros H. eapply all_chars_mono; [apply group_accepts_cons|]. by eapply IH.
    + intros H. eapply all_chars_mono; [apply group_accepts_cons|]. by eapply IH.
Qed.

(** Group 1 holds only characters that an item inside the parentheses
    accepts. *)
Lemma match_at_group p s g :
  match_at p s = Some g → all_chars (group_accepts p) g.
Proof.
  revert s g. induction p as [|a p IH]; intros s g.
  - by intros [= <-].
  - cbn [match_at]. destruct (how_many a) eqn:Hq.
    + destruct s as [|c s]; [done|]. destruct (accepts a c) eqn:Hc; [|done].
      destruct (match_at p s) as [g'|] eqn:Hm; [|done]. intros [= <-].
      apply keep_group; [by rewrite Hc|].
      eapply all_chars_mono; [apply group_accepts_cons|]. by eapply IH.
    + by apply match_repeat_group.
    + destruct s as [|c s]; [done|]. destruct (accepts a c) eqn:Hc; [|done].
      destruct (match_repeat a (match_at p) s) as [g'|] eqn:Hm; [|done].
      intros [= <-]. apply keep_group; [by rewrite Hc|].
      by eapply match_repeat_group.
Qed.

Lemma keep_nonempty a c g : g ≠ EmptyString → keep a c g ≠ EmptyString.
Proof. unfold keep. by destruct (in_group a). Qed.

(** An item inside the parentheses that takes at least one character makes
    group 1 non-empty. *)
Lemma match_at_nonempty p s g :
  Exists (λ a, in_group a = true ∧ how_many a ≠ ZeroOrMore) p →
  match_at p s = Some g → g ≠ EmptyString.
Proof.
  revert s g. induction p as [|a p IH]; intros s g Hex; [by inversion Hex|].
  assert (Hrep : ¬ (in_group a = true ∧ how_many a ≠ ZeroOrMore) →
                 ∀ s g, match_repeat a (match_at p) s = Some g → g ≠ EmptyString).
  { intros Hna. apply Exists_cons in Hex as [?|Hex]; [done|].
    intros s'. induction s' as [|c s' IHs]; intros g'; cbn [match_repeat].
    - by apply IH.
    - destruct (accepts a c); [|by apply IH].
      destruct (match_repeat a (match_at p) s') as [g''|]; [|by apply IH].
      intros [= <-]. apply keep_nonempty. by apply IHs. }
  cbn [match_at]. destruct (how_many a) eqn:Hq.
  - destruct s as [|c s]; [done|]. destruct (accepts a c); [|done].
    destruct (match_at p s) as [g'|] eqn:Hm; [|done]. intros [= <-].
    unfold keep. destruct (in_group a) eqn:Ha; [done|].
    apply Exists_cons in Hex as [[? ?]|Hex]; [congruence|]. by eapply IH.
  - apply Hrep. intros [_ ?]. done.
  - destruct s as [|c s]; [done|]. destruct (accepts a c); [|done].
    destruct (match_repeat a (match_at p) s) as [g'|] eqn:Hm; [|done].
    intros [= <-]. unfold keep. destruct (in_group a) eqn:Ha; [done|].
    eapply Hrep; [|done]. intros [? _]. congruence.
Qed.

Lemma re_search_inv p s g :
  re_search p s = Some g → ∃ pre s', s = pre +:+ s' ∧ match_at p s' = Some g.
Proof.
  induction s as [|c s IH]; cbn [re_search].
  - destruct (match_at p EmptyString) eqn:Hm; [|done]. intros [= <-].
    by exists EmptyString, EmptyString.
  - destruct (match_at p (String c s)) eqn:Hm.
    + intros [= <-]. by exists EmptyString, (String c s).
    + intros (pre & s' & -> & ?)%IH. by exists (String c pre), s'.
Qed.

Lemma re_search_is_Some p pre s g :
  match_at p s = Some g → is_Some (re_search p (pre +:+ s)).
Proof.
  intros Hm. induction pre as [|c pre IH].
  - rewrite append_nil_l. destruct s; cbn [re_search]; rewrite Hm; eexists; reflexivity.
  - rewrite append_cons. cbn [re_search].
    destruct (match_at p (String c (pre +:+ s))); [eexists; reflexivity|exact IH].
Qed.

(** Group 1 of a match that is found holds only accepted characters. *)
Lemma re_search_group p s g :
  re_search p s = Some g → all_chars (group_accepts p) g.
Proof. intros (pre & s' & _ & Hm)%re_search_inv. by eapply match_at_group. Qed.

Lemma re_search_nonempty p s g :
  Exists (λ a, in_group a = true ∧ how_many a ≠ ZeroOrMore) p →
  re_search p s = Some g → g ≠ EmptyString.
Proof. intros Hex (pre & s' & _ & Hm)%re_search_inv. by eapply match_at_nonempty. Qed.

(** A pattern that starts with literal characters matches only where the
    rest of it matches further on. *)
Lemma match_at_literal l p s g :
  match_at (literal l ++ p) s = Some g →
  ∃ pre s', s = pre +:+ s' ∧ match_at p s' = Some g.
Proof.
  revert s. induction l as [|c l IH]; intros s.
  - intros H. by exists EmptyString, s.
  - cbn [literal app match_at letter how_many accepts].
    destruct s as [|a s]; [done|]. case_bool_decide; [|done].
    unfold keep. cbn [in_group letter].
    destruct (match_at (literal l ++ p) s) as [g'|] eqn:Hm; [|done].
    intros [= <-]. destruct (IH s Hm) as (pre & s' & -> & ?).
    by exists (String a pre), s'.
Qed.

Lemma re_search_literal l p s :
  re_search p s = None → re_search (literal l ++ p) s = None.
Proof.
  intros Hnone. destruct (re_search (literal l ++ p) s) as [g|] eqn:Hs; [|done].
  apply re_search_inv in Hs as (pre & s' & -> & Hm).
  apply match_at_literal in Hm as (pre' & s'' & -> & Hm).
  destruct (re_search_is_Some p (pre +:+ pre') s'' g Hm) as [g' Hg].
  rewrite append_assoc in Hg. congruence.
Qed.

(** ** [str.strip] *)

Lemma lstrip_all_chars P s : all_chars P s → all_chars P (lstrip s).
Proof.
  induction s as [|c s IH]; [done|]. cbn [lstrip all_chars].
  destruct (is_space c); [|done]. rewrite andb_True. intros [_ ?]. auto.
Qed.

Lemma rstrip_all_chars P s : all_chars P s → all_chars P (rstrip s).
Proof.
  induction s as [|c s IH]; [done|]. cbn [rstrip all_chars].
  rewrite andb_True. intros [Hc Hs]. specialize (IH Hs).
  destruct (rstrip s) as [|c' r'].
  - destruct (is_space c); [done|]. cbn. by rewrite andb_True.
  - cbn [all_chars] in *. rewrite andb_True. done.
Qed.

Lemma strip_all_chars P s : all_chars P s → all_chars P (strip s).
Proof. intros. by apply rstrip_all_chars, lstrip_all_chars. Qed.

Lemma lstrip_id s : all_chars (λ c, negb (is_space c)) s → lstrip s = s.
Proof. destruct s as [|c s]; [done|]. cbn. by destruct (is_space c). Qed.

Lemma rstrip_id s : all_chars (λ c, negb (is_space c)) s → rstrip s = s.
Proof.
  induction s as [|c s IH]; [done|]. cbn [all_chars rstrip].
  rewrite andb_True. intros [Hc Hs]. rewrite (IH Hs).
  destruct s; [|done]. by destruct (is_space c).
Qed.

(** Stripping leaves a text without blanks as it is. *)
Lemma strip_id s : all_chars (λ c, negb (is_space c)) s → strip s = s.
Proof. intros H. unfold strip. by rewrite (lstrip_id s H), rstrip_id. Qed.

Lemma lstrip_head s :
  match lstrip s with
  | String c _ => is_space c = false
  | EmptyString => True
  end.
Proof.
  induction s as [|c s IH]; [done|]. cbn [lstrip].
  by destruct (is_space c) eqn:Hc.
Qed.

Lemma rstrip_cons c s :
  rstrip (String c s) =
    match rstrip s with
    | EmptyString => if is_space c then EmptyString else String c EmptyString
    | r' => String c r'
    end.
Proof. reflexivity. Qed.

Lemma rstrip_rstrip s : rstrip (rstrip s) = rstrip s.
Proof.
  induction s as [|c s IH]; [done|]. rewrite rstrip_cons.
  destruct (rstrip s) as [|c' r'] eqn:Hr.
  - destruct (is_space c) eqn:Hc; [done|]. cbn. by rewrite Hc.
  - rewrite rstrip_cons, IH. done.
Qed.

Lemma rstrip_head c s :
  is_space c = false → ∃ r, rstrip (String c s) = String c r.
Proof.
  intros Hc. cbn [rstrip]. destruct (rstrip s); rewrite ?Hc; eauto.
Qed.

(** Stripping twice is stripping once: what [strip] returns neither starts
    nor ends with a blank. *)
Lemma strip_strip s : strip (strip s) = strip s.
Proof.
  unfold strip. pose proof (lstrip_head s) as Hh.
  destruct (lstrip s) as [|c t]; [done|].
  destruct (rstrip_head c t Hh) as [r Hr]. rewrite Hr.
  cbn [lstrip]. rewrite Hh, <- Hr. apply rstrip_rstrip.
Qed.

(** ** What the two extractions return *)

Lemma is_appeal_char_not_space c : is_appeal_char c → negb (is_space c).
Proof.
  unfold is_appeal_char, is_space. cbv zeta.
  generalize (nat_of_ascii c). intros n.
  rewrite bool_decide_spec. intros H.
  apply negb_prop_intro. rewrite bool_decide_spec. lia.
Qed.

Lemma group_accepts_appeal_pattern c :
  group_accepts appeal_pattern c = is_appeal_char c.
Proof. unfold group_accepts. cbn. by rewrite orb_false_r. Qed.

Lemma group_accepts_fallback_pattern c :
  group_accepts fallback_pattern c = is_appeal_char c.
Proof. unfold group_accepts. cbn. by rewrite orb_false_r. Qed.

Lemma group_accepts_labelled l c :
  group_accepts (labelled l) c = not_a_newline c.
Proof.
  unfold labelled, group_accepts. induction l as [|a l IH]; [|exact IH].
  cbn. by rewrite orb_false_r.
Qed.

Lemma appeal_group_kept p text g :
  (∀ c, group_accepts p c = is_appeal_char c) →
  Exists (λ a, in_group a = true ∧ how_many a ≠ ZeroOrMore) p →
  re_search p text = Some g →
  strip g = g ∧ g ≠ EmptyString ∧ all_chars is_appeal_char g.
Proof.
  intros Hp Hex Hs.
  assert (all_chars is_appeal_char g) as Hg.
  { eapply all_chars_mono; [|by eapply re_search_group].
    intros c. by rewrite Hp. }
  split; [|split; [by eapply re_search_nonempty|done]].
  apply strip_id. eapply all_chars_mono; [|exact Hg].
  apply is_appeal_char_not_space.
Qed.

Lemma found_appeal_number p a :
  extract_appeal_number_from_page p = Some a →
  a ≠ EmptyString ∧ all_chars is_appeal_char a.
Proof.
  unfold extract_appeal_number_from_page.
  destruct (extract_text p) as [[text|]|]; [|done..].
  case_decide; [done|].
  destruct (re_search appeal_pattern text) as [g|] eqn:H1.
  - intros [= <-].
    destruct (appeal_group_kept appeal_pattern text g) as (-> & ? & ?);
      [apply group_accepts_appeal_pattern| |done|done].
    unfold appeal_pattern. rewrite !Exists_app. right. right. right.
    apply Exists_cons. right. apply Exists_cons. left. done.
  - destruct (re_search fallback_pattern text) as [g|] eqn:H2; [|done].
    intros [= <-].
    destruct (appeal_group_kept fallback_pattern text g) as (-> & ? & ?);
      [apply group_accepts_fallback_pattern| |done|done].
    unfold fallback_pattern. rewrite !Exists_app. right.
    apply Exists_cons. right. apply Exists_cons. left. done.
Qed.

Lemma first_match_shape patterns text :
  Forall (λ p, ∀ c, group_accepts p c = not_a_newline c) patterns →
  all_chars not_a_newline (first_match patterns text) ∧
  strip (first_match patterns text) = first_match patterns text.
Proof.
  induction 1 as [|p patterns Hp _ IH]; [done|]. cbn [first_match].
  destruct (re_search p text) as [g|] eqn:Hs; [|done].
  split; [|apply strip_strip].
  apply strip_all_chars. eapply all_chars_mono; [|by eapply re_search_group].
  intros c. by rewrite Hp.
Qed.

(** X1. Whatever the page, the name and the address that
    [extract_person_info_from_page] returns hold no line feed, and stripping
    them again changes nothing: they neither start nor end with a blank. *)
Theorem person_info_shape p :
  let info := extract_person_info_from_page p in
  (all_chars not_a_newline info.1 ∧ strip info.1 = info.1) ∧
  (all_chars not_a_newline info.2 ∧ strip info.2 = info.2).
Proof.
  cbv zeta. unfold extract_person_info_from_page.
  destruct (extract_text p) as [[text|]|]; [|done..].
  case_decide; [done|]. cbn [fst snd].
  split; apply first_match_shape; repeat constructor; apply group_accepts_labelled.
Qed.

(** X2. The third address pattern, [Property Address:], never decides: where
    it is found, [Address:] is found as well and is tried before it. The
    address is the one the three other patterns give. *)
Theorem property_address_never_decides text :
  first_match address_patterns text = first_match address_patterns_in_use text.
Proof.
  unfold address_patterns, address_patterns_in_use. cbn [first_match].
  destruct (re_search (labelled "Property Location:") text); [done|].
  destruct (re_search (labelled "Address:") text) eqn:Ha; [done|].
  change (labelled "Property Address:")
    with (literal "Property " ++ labelled "Address:").
  by rewrite re_search_literal.
Qed.

(** ** Where a captured text comes from *)

(** The last item of a pattern, when it repeats inside the parentheses,
    takes the longest run of characters it accepts. *)
Lemma match_repeat_is_Some a rest s :
  (∀ s', rest s' = Some EmptyString) → is_Some (match_repeat a rest s).
Proof.
  intros Hrest. induction s as [|c s [g IH]]; cbn [match_repeat]; rewrite ?Hrest.
  - by eexists.
  - rewrite IH. destruct (accepts a c); by eexists.
Qed.

Lemma match_repeat_last a rest s g :
  in_group a = true → (∀ s', rest s' = Some EmptyString) →
  match_repeat a rest s = Some g →
  ∃ y, s = g +:+ y ∧
       match y with
       | String c _ => accepts a c = false
       | EmptyString => True
       end.
Proof.
  intros Ha Hrest. revert g.
  induction s as [|c s IH]; intros g; cbn [match_repeat]; rewrite ?Hrest.
  - intros [= <-]. by exists EmptyString.
  - destruct (accepts a c) eqn:Hc.
    + destruct (match_repeat a rest s) as [g'|] eqn:Hr.
      * intros [= <-]. destruct (IH g' eq_refl) as (y & -> & Hy).
        exists y. unfold keep. by rewrite Ha.
      * destruct (match_repeat_is_Some a rest s Hrest) as [? ?]. congruence.
    + intros [= <-]. exists (String c s). by rewrite Hc.
Qed.

Lemma match_at_cons a p s :
  match_at (a :: p) s =
    match how_many a, s with
    | ZeroOrMore, _ => match_repeat a (match_at p) s
    | _, EmptyString => None
    | Once, String c s' =>
        if accepts a c then keep a c <$> match_at p s' else None
    | OneOrMore, String c s' =>
        if accepts a c then keep a c <$> match_repeat a (match_at p) s'
        else None
    end.
Proof. reflexivity. Qed.

(** A pattern made of items outside the parentheses followed by one
    repeated item inside them: group 1 stands in the text, and it stops
    only where its item accepts no more. *)
Lemma match_at_occurs pre a s g :
  Forall (λ b, in_group b = false) pre →
  in_group a = true → how_many a = OneOrMore →
  match_at (pre ++ [a]) s = Some g →
  occurs_up_to (λ c, negb (accepts a c)) g s.
Proof.
  intros Hpre Ha Hq. revert s g.
  induction Hpre as [|b pre Hb _ IH]; intros s g.
  - cbn [app]. rewrite match_at_cons, Hq. destruct s as [|c s]; [done|].
    destruct (accepts a c) eqn:Hc; [|done].
    destruct (match_repeat a (match_at []) s) as [g'|] eqn:Hr; [|done].
    intros [= <-].
    destruct (match_repeat_last a (match_at []) s g' Ha (λ _, eq_refl) Hr)
      as (y & -> & Hy).
    exists EmptyString, y. unfold keep. rewrite Ha. split; [done|].
    destruct y; [done|]. by rewrite Hy.
  - assert (∀ s g, match_repeat b (match_at (pre ++ [a])) s = Some g →
                   occurs_up_to (λ c, negb (accepts a c)) g s) as Hrep.
    { clear s g. intros s. induction s as [|c s IHs]; intros g; cbn [match_repeat].
      - apply IH.
      - destruct (accepts b c); [|apply IH].
        destruct (match_repeat b (match_at (pre ++ [a])) s) as [g'|] eqn:Hr;
          [|apply IH].
        intros [= <-]. unfold keep. rewrite Hb.
        destruct (IHs g' eq_refl) as (x & y & -> & Hy).
        by exists (String c x), y. }
    cbn [app]. rewrite match_at_cons. destruct (how_many b).
    + destruct s as [|c s]; [done|]. destruct (accepts b c); [|done].
      destruct (match_at (pre ++ [a]) s) as [g'|] eqn:Hm; [|done].
      intros [= <-]. unfold keep. rewrite Hb.
      destruct (IH s g' Hm) as (x & y & -> & Hy). by exists (String c x), y.
    + apply Hrep.
    + destruct s as [|c s]; [done|]. destruct (accepts b c); [|done].
      destruct (match_repeat b (match_at (pre ++ [a])) s) as [g'|] eqn:Hr; [|done].
      intros [= <-]. unfold keep. rewrite Hb.
      destruct (Hrep s g' Hr) as (x & y & -> & Hy). by exists (String c x), y.
Qed.

Lemma re_search_occurs pre a s g :
  Forall (λ b, in_group b = false) pre →
  in_group a = true → how_many a = OneOrMore →
  re_search (pre ++ [a]) s = Some g →
  occurs_up_to (λ c, negb (accepts a c)) g s.
Proof.
  intros Hpre Ha Hq (before & s' & -> & Hm)%re_search_inv.
  destruct (match_at_occurs pre a s' g Hpre Ha Hq Hm) as (x & y & -> & Hy).
  exists (before +:+ x), y. by rewrite append_assoc.
Qed.

Lemma Forall_literal l : Forall (λ b, in_group b = false) (literal l).
Proof. induction l; constructor; done. Qed.

(** What [strip] removes stands around what it returns. *)
Lemma lstrip_occurs s : ∃ lead, s = lead +:+ lstrip s.
Proof.
  induction s as [|c s [lead IH]]; [by exists EmptyString|]. cbn [lstrip].
  destruct (is_space c); [|by exists EmptyString].
  exists (String c lead). by rewrite append_cons, <- IH.
Qed.

Lemma rstrip_occurs s : ∃ trail, s = rstrip s +:+ trail.
Proof.
  induction s as [|c s [trail IH]]; [by exists EmptyString|]. rewrite rstrip_cons.
  destruct (rstrip s) as [|c' r'] eqn:Hr.
  - destruct (is_space c).
    + by exists (String c s).
    + exists s. done.
  - exists trail. by rewrite append_cons, <- IH.
Qed.

Lemma strip_occurs s : ∃ lead trail, s = lead +:+ strip s +:+ trail.
Proof.
  destruct (lstrip_occurs s) as [lead Hl].
  destruct (rstrip_occurs (lstrip s)) as [trail Hr].
  exists lead, trail. unfold strip. by rewrite <- Hr.
Qed.

Lemma appeal_pattern_shape :
  appeal_pattern
  = (literal "Appeal" ++ [spaces1] ++ literal "No." ++ [spaces0]) ++ [appeal_chars].
Proof. reflexivity. Qed.

Lemma fallback_pattern_shape :
  fallback_pattern = (literal "Appeal" ++ [spaces1]) ++ [appeal_chars].
Proof. reflexivity. Qed.



(** The number stops at a letter that is not one of [A-Z] and [a-z]: here
    U+00E9. *)
Example appeal_number_stops_at_an_accent :
  extract_appeal_number_from_page
    (Page (Ok (Some ("Appeal No. 12" +:+ chr 233 +:+ "34"))) true false)
  = Some "12".
Proof. vm_compute. reflexivity. Qed.

Lemma labelled_shape l : labelled l = (literal l ++ [spaces0]) ++ [rest_of_line].
Proof. unfold labelled. by rewrite <- app_assoc. Qed.

Lemma first_match_occurs labels text :
  ∃ x y, text = x +:+ first_match (map labelled labels) text +:+ y.
Proof.
  induction labels as [|l labels IH]; [by exists EmptyString, text|].
  cbn [map first_match].
  destruct (re_search (labelled l) text) as [g|] eqn:Hs; [|exact IH].
  rewrite labelled_shape in Hs.
  apply re_search_occurs in Hs as (x & y & -> & _); [| |done..].
  - destruct (strip_occurs g) as (lead & trail & Hg).
    exists (x +:+ lead), (trail +:+ y).
    rewrite Hg at 1. by rewrite !append_assoc.
  - rewrite Forall_app. split; [apply Forall_literal|by repeat constructor].
Qed.

(** X22. The name and the address stand in the text of the page: the
    extraction copies, it does not compose. *)
Theorem person_info_occurs_in_the_text p text :
  extract_text p = Ok (Some text) →
  let info := extract_person_info_from_page p in
  (∃ x y, text = x +:+ info.1 +:+ y) ∧ (∃ x y, text = x +:+ info.2 +:+ y).
Proof.
  intros Ht. cbv zeta. unfold extract_person_info_from_page. rewrite Ht.
  case_decide as H0.
  - subst text. split; by exists EmptyString, EmptyString.
  - cbn [fst snd]. split.
    + apply (first_match_occurs
               ["Company/Applicant:"; "Applicant:"; "Name:"; "Property Owner:"]).
    + apply (first_match_occurs
               ["Property Location:"; "Address:"; "Property Address:"; "Location:"]).
Qed.

Lemma person_info_occurs_in_the_text_witness :
  let text := "Name:  Jane Doe " +:+ newline +:+ "Address: 1 Main St" in
  let info := extract_person_info_from_page (Page (Ok (Some text)) true false) in
  info = ("Jane Doe", "1 Main St") ∧
  (∃ x y, text = x +:+ info.1 +:+ y) ∧ (∃ x y, text = x +:+ info.2 +:+ y).
Proof.
  split; [vm_compute; reflexivity|].
  apply (person_info_occurs_in_the_text
           (Page (Ok (Some ("Name:  Jane Doe " +:+ newline +:+ "Address: 1 Main St")))
                 true false)).
  reflexivity.
Defined.

(** ** One document *)

Lemma split_page_run input_name numbered st :
  split_page input_name numbered st =
    if copies numbered.2
    then (Splitting (csv_data st ++ [page_row input_name numbered])
                    (page_files st ++ [filename (page_row input_name numbered)])
                    (partial_files st),
          Ok tt)
    else (Splitting (csv_data st) (page_files st)
                    (partial_files st ++ left_behind numbered),
          Raise OSError).
Proof.
  destruct numbered as [page_num p].
  unfold split_page, page_row, case_number_of, left_behind.
  cbn [fst snd]. rewrite bind_run. destruct (copies p).
  - cbn [modify filename].
    by destruct (extract_appeal_number_from_page p) as [[|? ?]|].
  - rewrite bind_run. destruct (leaves_file p).
    + cbn [modify]. unfold case_number_of.
      by destruct (extract_appeal_number_from_page p) as [[|? ?]|].
    + cbn. rewrite app_nil_r. by destruct st.
Qed.

Lemma enumerate_app {A} k (l1 l2 : list A) :
  enumerate k (l1 ++ l2) = enumerate k l1 ++ enumerate (k + length l1) l2.
Proof.
  revert k. induction l1 as [|x l1 IH]; intros k; cbn [enumerate app length].
  - by rewrite Nat.add_0_r.
  - rewrite IH. do 3 f_equal. lia.
Qed.

Lemma length_enumerate {A} k (l : list A) : length (enumerate k l) = length l.
Proof. revert k. induction l as [|x l IH]; intros k; cbn; [done|]. by rewrite IH. Qed.

Lemma lookup_enumerate {A} k (l : list A) i :
  enumerate k l !! i = (λ x, (k + i, x)) <$> l !! i.
Proof.
  revert k i. induction l as [|x l IH]; intros k [|i]; cbn; [done..| |].
  - by rewrite Nat.add_0_r.
  - rewrite IH. destruct (l !! i); cbn; [|done]. do 2 f_equal. lia.
Qed.

Lemma snd_enumerate {A} k (l : list A) : (enumerate k l).*2 = l.
Proof. revert k. induction l as [|x l IH]; intros k; cbn; [done|]. by rewrite IH. Qed.

(** The loop over pages that all copy. *)
Lemma for_each_split_page input_name numbered st :
  Forall (λ np, copies np.2 = true) numbered →
  for_each numbered (split_page input_name) st =
    (Splitting (csv_data st ++ map (page_row input_name) numbered)
               (page_files st ++ map (λ np, filename (page_row input_name np))
                                     numbered)
               (partial_files st),
     Ok tt).
Proof.
  intros H. revert st. induction H as [|np numbered Hnp _ IH]; intros st.
  - cbn. rewrite !app_nil_r. by destruct st.
  - cbn [for_each]. rewrite bind_run, split_page_run, Hnp, IH.
    cbn [csv_data page_files partial_files map]. by rewrite <- !app_assoc.
Qed.

(** The loop stops at the first page that does not copy. *)
Lemma for_each_split_page_stops input_name before bad after st :
  Forall (λ np, copies np.2 = true) before → copies bad.2 = false →
  for_each (before ++ bad :: after) (split_page input_name) st =
    (Splitting (csv_data st ++ map (page_row input_name) before)
               (page_files st ++ map (λ np, filename (page_row input_name np))
                                     before)
               (partial_files st ++ left_behind bad),
     Raise OSError).
Proof.
  intros H Hbad. revert st. induction H as [|np numbered Hnp _ IH]; intros st.
  - cbn [app for_each]. rewrite bind_run, split_page_run, Hbad.
    cbn. by rewrite !app_nil_r.
  - cbn [for_each app]. rewrite bind_run, split_page_run, Hnp, IH.
    cbn [csv_data page_files partial_files map]. by rewrite <- !app_assoc.
Qed.

Lemma Forall_enumerate_copies k pages :
  Forall (λ p, copies p = true) pages →
  Forall (λ np : nat * page, copies np.2 = true) (enumerate k pages).
Proof.
  intros H. revert k. induction H; intros k; cbn [enumerate]; constructor; auto.
Qed.

(** Pages are the ones that copy up to the first one that does not. *)
Lemma first_bad_page {A} (P : A → bool) (l : list A) :
  ∃ before rest, l = before ++ rest ∧ Forall (λ x, P x = true) before ∧
                 match rest with
                 | [] => True
                 | bad :: _ => P bad = false
                 end.
Proof.
  induction l as [|x l (before & rest & -> & Hall & Hrest)].
  - by exists [], [].
  - destruct (P x) eqn:Hx.
    + exists (x :: before), rest. by repeat split; [constructor|].
    + by exists [], (x :: before ++ rest).
Qed.

(** What the handler of the call makes of an exception (lines 157-158), and
    the two ways through the call when the document opens. *)
Lemma process_single_pdf_opened input_name output_dir pages print_error st :
  process_single_pdf input_name output_dir (Ok pages) print_error st =
    match for_each (enumerate 0 pages) (split_page input_name)
                   (Splitting [] (page_files st) (partial_files st)) with
    | (st', Ok _) => (st', Ok (true, length pages, output_dir, csv_data st'))
    | (st', Raise _) => (st', reported_failure output_dir print_error)
    end.
Proof.
  unfold process_single_pdf. rewrite bind_run. cbn [modify].
  unfold try_except. rewrite bind_run. cbn [of_result]. rewrite bind_run.
  destruct (for_each _ _ _) as [st' [[]|e]]; [done|].
  rewrite bind_run. by destruct print_error as [[]|e'].
Qed.

Lemma process_single_pdf_not_opened input_name output_dir e print_error st :
  process_single_pdf input_name output_dir (Raise e) print_error st =
    (Splitting [] (page_files st) (partial_files st),
     reported_failure output_dir print_error).
Proof.
  unfold process_single_pdf. rewrite bind_run. cbn [modify].
  unfold try_except. rewrite bind_run. cbn [of_result].
  rewrite bind_run. by destruct print_error as [[]|e'].
Qed.

(** A call, by cases: the document does not open; every page copies; the
    loop stops at a page that does not. *)
Lemma process_single_pdf_cases input_name output_dir document print_error st :
  let run := process_single_pdf input_name output_dir document print_error st in
  match document with
  | Raise _ =>
      run = (Splitting [] (page_files st) (partial_files st),
             reported_failure output_dir print_error)
  | Ok pages =>
      ∃ copied rest,
        enumerate 0 pages = copied ++ rest ∧
        Forall (λ np, copies np.2 = true) copied ∧
        let rows := map (page_row input_name) copied in
        match rest with
        | [] =>
            Forall (λ p, copies p = true) pages ∧
            run = (Splitting rows (page_files st ++ map filename rows)
                             (partial_files st),
                   Ok (true, length pages, output_dir, rows))
        | bad :: _ =>
            copies bad.2 = false ∧
            run = (Splitting rows (page_files st ++ map filename rows)
                             (partial_files st ++ left_behind bad),
                   reported_failure output_dir print_error)
        end
  end.
Proof.
  cbv zeta. destruct document as [pages|e]; [|apply process_single_pdf_not_opened].
  destruct (first_bad_page (λ np : nat * page, copies np.2) (enumerate 0 pages))
    as (copied & rest & Heq & Hall & Hrest).
  exists copied, rest. split; [done|]. split; [done|].
  rewrite process_single_pdf_opened, Heq, map_map. destruct rest as [|bad after].
  - rewrite app_nil_r in *. rewrite for_each_split_page by done.
    cbn [csv_data page_files partial_files app]. split; [|done].
    rewrite <- (snd_enumerate 0 pages), Heq. by apply Forall_fmap.
  - by rewrite for_each_split_page_stops.
Qed.

(** *** The file names *)

Lemma is_name_char_appeal c : is_appeal_char c → is_name_char c.
Proof. unfold is_name_char. rewrite orb_True. auto. Qed.

Lemma case_number_of_chars p :
  case_number_of p ≠ EmptyString ∧ all_chars is_appeal_char (case_number_of p).
Proof.
  unfold case_number_of.
  destruct (extract_appeal_number_from_page p) as [a|] eqn:Ha; [|done].
  apply found_appeal_number in Ha as [? ?]. by destruct a.
Qed.

Lemma all_digits_all_chars s : all_digits s = true → all_chars is_digit s.
Proof.
  induction s as [|c s IH]; [done|]. cbn. rewrite andb_true_iff, andb_True.
  intros [-> ?]. auto.
Qed.

Lemma is_digit_appeal c : is_digit c → is_appeal_char c.
Proof.
  unfold is_digit, is_appeal_char. cbv zeta. rewrite !bool_decide_spec. lia.
Qed.

Lemma page_filename_chars a k :
  all_chars is_appeal_char a → all_chars is_name_char (page_filename a k).
Proof.
  intros Ha. unfold page_filename. rewrite !all_chars_app, !andb_True.
  split; [done|]. split; [by eapply all_chars_mono; [apply is_name_char_appeal|]|].
  split; [done|]. split; [|done].
  eapply all_chars_mono; [|apply all_digits_all_chars, all_digits_pretty].
  intros c ?. by apply is_name_char_appeal, is_digit_appeal.
Qed.

(** The characters of a case number frame nothing, and those of a file name
    separate nothing. *)
Lemma appeal_char_frames_nothing c : is_appeal_char c → negb (frames_case_number c).
Proof.
  unfold is_appeal_char, frames_case_number, is_separator, is_space. cbv zeta.
  rewrite negb_True, !orb_True, !bool_decide_spec. lia.
Qed.

Lemma name_char_separates_nothing c : is_name_char c → negb (is_separator c).
Proof.
  unfold is_name_char, is_appeal_char, is_separator. cbv zeta.
  rewrite negb_True, !orb_True, !bool_decide_spec. lia.
Qed.

Lemma page_filename_no_separator p k :
  all_chars (λ c, negb (is_separator c)) (page_filename (case_number_of p) k).
Proof.
  eapply all_chars_mono; [apply name_char_separates_nothing|].
  apply page_filename_chars, case_number_of_chars.
Qed.

(** Two texts that agree after their first [sep] agree before it. *)
Lemma append_sep_inj (sep : ascii) a b x y :
  all_chars (λ c, bool_decide (c ≠ sep)) a →
  all_chars (λ c, bool_decide (c ≠ sep)) b →
  a +:+ String sep x = b +:+ String sep y → a = b ∧ x = y.
Proof.
  revert b. induction a as [|c a IH]; intros [|d b]; cbn [all_chars];
    rewrite ?andb_True, ?bool_decide_spec, ?append_cons, ?append_nil_l.
  - intros _ _ [= ->]. done.
  - intros _ [? _] [= ->]. done.
  - intros [? _] _ [= ->]. done.
  - intros [_ Ha] [_ Hb] [= -> H]. destruct (IH b Ha Hb H) as [-> ->]. done.
Qed.

Lemma appeal_chars_no_underscore a :
  all_chars is_appeal_char a →
  all_chars (λ c, bool_decide (c ≠ ascii_of_nat 95)) a.
Proof.
  apply all_chars_mono. intros c. unfold is_appeal_char. cbv zeta.
  rewrite !bool_decide_spec. intros H ->. vm_compute in H. lia.
Qed.

Lemma digits_no_dot s :
  all_digits s = true → all_chars (λ c, bool_decide (c ≠ ascii_of_nat 46)) s.
Proof.
  intros H%all_digits_all_chars. revert H. apply all_chars_mono.
  intros c. unfold is_digit. cbv zeta.
  rewrite !bool_decide_spec. intros H ->. vm_compute in H. lia.
Qed.

(** The file name tells the page. *)
Lemma page_filename_inj a b j k :
  all_chars is_appeal_char a → all_chars is_appeal_char b →
  page_filename a j = page_filename b k → a = b ∧ j = k.
Proof.
  intros Ha Hb. unfold page_filename. intros H.
  apply (inj (String.app "Case_Number_")) in H.
  apply (append_sep_inj (ascii_of_nat 95)) in H as [-> H];
    [|by apply appeal_chars_no_underscore..].
  split; [done|].
  apply (inj (String.app "Page_Num_")) in H.
  apply (append_sep_inj (ascii_of_nat 46)) in H as [H _];
    [|apply digits_no_dot, all_digits_pretty..].
  apply (inj pretty) in H. lia.
Qed.

Lemma elem_of_enumerate {A} k (l : list A) i x :
  (i, x) ∈ enumerate k l → k ≤ i ∧ l !! (i - k) = Some x.
Proof.
  revert k. induction l as [|y l IH]; intros k; cbn [enumerate].
  - by intros ?%elem_of_nil.
  - intros [[= -> ->]|Hin]%elem_of_cons.
    + by rewrite Nat.sub_diag.
    + apply IH in Hin as [? Hl]. split; [lia|].
      replace (i - k) with (S (i - S k)) by lia. done.
Qed.

Lemma NoDup_page_files input_name k pages :
  NoDup (map (λ np, filename (page_row input_name np)) (enumerate k pages)).
Proof.
  revert k. induction pages as [|p pages IH]; intros k; cbn [enumerate map].
  - constructor.
  - constructor; [|apply IH].
    intros ([i q] & Heq & Hin)%list_elem_of_fmap.
    cbn [page_row filename fst snd] in Heq.
    apply page_filename_inj in Heq as [_ ->]; [|apply case_number_of_chars..].
    apply elem_of_enumerate in Hin. lia.
Qed.

Lemma prefix_append s t : String.prefix s (s +:+ t) = true.
Proof.
  induction s as [|a s IH]; [by destruct t|].
  rewrite append_cons. cbn [String.prefix]. by destruct (ascii_dec a a).
Qed.

(** The file a page leaves is the file written for it when it copies. *)
Lemma left_behind_sublist input_name bad :
  left_behind bad `sublist_of` [filename (page_row input_name bad)].
Proof.
  unfold left_behind. destruct (leaves_file bad.2).
  - reflexivity.
  - apply sublist_nil_l.
Qed.

(** *** The rows and the files of a call *)

(** X3. When every page copies, the call reports a success with the number
    of pages, and one row per page, in order: row [k] is about page [k],
    carries the page number [k + 1] and the name of the input, and names
    the file written for that page. *)
Theorem one_row_per_page input_name output_dir pages print_error st :
  Forall (λ p, copies p = true) pages →
  let run := process_single_pdf input_name output_dir (Ok pages) print_error st in
  run.2 = Ok (true, length pages, output_dir, csv_data run.1) ∧
  length (csv_data run.1) = length pages ∧
  page_files run.1 = page_files st ++ map filename (csv_data run.1) ∧
  ∀ k r, csv_data run.1 !! k = Some r →
    page_number r = k + 1 ∧ source_file r = input_name ∧
    filename r = page_filename (case_number r) k ∧
    ∃ p, pages !! k = Some p ∧
         case_number r = case_number_of p ∧
         (name r, address r) = extract_person_info_from_page p.
Proof.
  intros Hall. cbv zeta. rewrite process_single_pdf_opened.
  rewrite for_each_split_page by by apply Forall_enumerate_copies.
  cbn [fst snd csv_data page_files app]. rewrite length_map, length_enumerate, map_map.
  split; [done|]. split; [done|]. split; [done|].
  intros k r. rewrite list_lookup_fmap, lookup_enumerate.
  destruct (pages !! k) as [p|] eqn:Hp; [|done]. cbn. intros [= <-].
  cbn. repeat split; try done. exists p.
  by destruct (extract_person_info_from_page p).
Qed.

Lemma one_row_per_page_witness :
  let run := process_single_pdf "in.pdf" "split pdfs in" (Ok sample_pages) (Ok tt)
               (Splitting [] [] []) in
  run.2 = Ok (true, length sample_pages, "split pdfs in", csv_data run.1) ∧
  length (csv_data run.1) = length sample_pages ∧
  page_files run.1 = [] ++ map filename (csv_data run.1) ∧
  ∀ k r, csv_data run.1 !! k = Some r →
    page_number r = k + 1 ∧ source_file r = "in.pdf" ∧
    filename r = page_filename (case_number r) k ∧
    ∃ p, sample_pages !! k = Some p ∧
         case_number r = case_number_of p ∧
         (name r, address r) = extract_person_info_from_page p.
Proof.
  apply (one_row_per_page "in.pdf" "split pdfs in" sample_pages (Ok tt)
           (Splitting [] [] [])).
  repeat constructor.
Defined.

Example sample_pages_rows :
  csv_data (process_single_pdf "in.pdf" "split pdfs in" (Ok sample_pages) (Ok tt)
              (Splitting [] [] [])).1
  = [ Row "Case_Number_12-AB_Page_Num_1.pdf" "12-AB" "Jane Doe" "1 Main St"
          "in.pdf" 1;
      Row "Case_Number_UNKNOWN_Page_Num_2.pdf" "UNKNOWN" EmptyString EmptyString
          "in.pdf" 2;
      Row "Case_Number_UNKNOWN_Page_Num_3.pdf" "UNKNOWN" EmptyString EmptyString
          "in.pdf" 3 ].
Proof. vm_compute. reflexivity. Qed.

Lemma reported_failure_ok output_dir print_error r :
  reported_failure output_dir print_error = Ok r → r = (false, 0, output_dir, []).
Proof. unfold reported_failure. destruct print_error; by intros [= <-]. Qed.

Lemma reported_failure_raise output_dir print_error e :
  reported_failure output_dir print_error = Raise e ↔ print_error = Raise e.
Proof.
  unfold reported_failure. destruct print_error; [split; discriminate|].
  split; by intros [= ->].
Qed.

(** X4. A call succeeds exactly when the document opens and every page
    copies, and then it returns [True] with one row per page. Otherwise it
    reaches its handler, which prints before it returns: the call returns
    [False] without any page or row when that [print] returns, and raises
    what the [print] raises when it does not. A call raises in no other
    way, and the number of pages a returned tuple reports is the number of
    its rows. *)
Theorem split_result_shape input_name output_dir document print_error st :
  let run := process_single_pdf input_name output_dir document print_error st in
  let succeeds :=
    ∃ pages, document = Ok pages ∧ Forall (λ p, copies p = true) pages in
  (succeeds → ∃ rows, run.2 = Ok (true, length rows, output_dir, rows) ∧
                      rows = csv_data run.1 ∧
                      ∀ pages, document = Ok pages → length rows = length pages) ∧
  (¬ succeeds → run.2 = reported_failure output_dir print_error) ∧
  (∀ e, run.2 = Raise e ↔ ¬ succeeds ∧ print_error = Raise e) ∧
  (∀ success pages dir rows, run.2 = Ok (success, pages, dir, rows) →
     pages = length rows ∧ dir = output_dir ∧
     (success = false → rows = []) ∧ (success = true ↔ succeeds)).
Proof.
  cbv zeta.
  pose proof (reported_failure_ok output_dir print_error) as Hrep.
  pose proof (reported_failure_raise output_dir print_error) as Hraise.
  pose proof (process_single_pdf_cases input_name output_dir document print_error st)
    as H. cbv zeta in H.
  destruct document as [pages|e0].
  - destruct H as (copied & rest & Heq & Hcopied & H). destruct rest as [|bad after].
    + destruct H as [Hall ->]. cbn [fst snd]. rewrite app_nil_r in Heq.
      assert (length (map (page_row input_name) copied) = length pages) as Hlen
        by by rewrite length_map, <- Heq, length_enumerate.
      assert (∃ ps, Ok pages = Ok ps ∧ Forall (λ p, copies p = true) ps) as Hs
        by by exists pages.
      split; [|split; [|split]].
      * intros _. exists (map (page_row input_name) copied). rewrite Hlen.
        split; [done|]. split; [done|]. by intros ? [= <-].
      * by intros [].
      * intros e. split; [done|]. by intros [[] _].
      * intros success n dir rows [= <- <- <- <-]. by rewrite Hlen.
    + destruct H as [Hbad ->]. cbn [fst snd].
      assert (¬ ∃ ps, Ok pages = Ok ps ∧ Forall (λ p, copies p = true) ps) as Hs.
      { intros (ps & [= <-] & Hall).
        apply (Forall_enumerate_copies 0) in Hall. rewrite Heq in Hall.
        apply Forall_app in Hall as [_ [Hb _]%Forall_cons]. congruence. }
      split; [|split; [|split]].
      * by intros ?.
      * done.
      * intros e. rewrite Hraise. tauto.
      * intros success n dir rows [= -> -> -> ->]%Hrep. split; [done|].
        split; [done|]. split; [done|]. split; [done|]. by intros ?.
  - rewrite H. cbn [fst snd].
    assert (¬ ∃ ps, Raise e0 = Ok ps ∧ Forall (λ p, copies p = true) ps) as Hs
      by by intros (? & ? & _).
    split; [|split; [|split]].
    + by intros ?.
    + done.
    + intros e. rewrite Hraise. tauto.
    + intros success n dir rows [= -> -> -> ->]%Hrep. split; [done|].
      split; [done|]. split; [done|]. split; [done|]. by intros ?.
Qed.

(** A document that does not open, with a [print] that returns and with one
    that raises. *)
Example split_result_shape_here :
  (process_single_pdf "gone.pdf" "split pdfs gone" (Raise OSError) (Ok tt)
                      (Splitting [] [] [])).2
  = Ok (false, 0, "split pdfs gone", []) ∧
  (process_single_pdf "gone.pdf" "split pdfs gone" (Raise OSError)
                      (Raise ValueError) (Splitting [] [] [])).2
  = Raise ValueError.
Proof. vm_compute. done. Qed.

(** X5. When a page cannot be copied, the call reports a failure without
    any page or row, or raises when the [print] of its handler does; and
    yet files are in the output directory. Written in full are the files of
    the pages before that page, the same as for the document cut there;
    the file of that page is there as well, not written in full, when the
    exception came once it was opened; no file of a later page is
    there. *)
Theorem failure_leaves_page_files
    input_name output_dir before bad after print_error st :
  Forall (λ p, copies p = true) before → copies bad = false →
  let run := process_single_pdf input_name output_dir
               (Ok (before ++ bad :: after)) print_error st in
  let cut := process_single_pdf input_name output_dir (Ok before) print_error st in
  run.2 = reported_failure output_dir print_error ∧
  page_files run.1 = page_files cut.1 ∧
  length (page_files run.1) = length (page_files st) + length before ∧
  partial_files run.1
    = partial_files cut.1
      ++ (if leaves_file bad
          then [page_filename (case_number_of bad) (length before)]
          else []) ∧
  partial_files cut.1 = partial_files st.
Proof.
  intros Hall Hbad. cbv zeta. rewrite !process_single_pdf_opened.
  rewrite enumerate_app. cbn [enumerate].
  rewrite for_each_split_page_stops
    by (by apply Forall_enumerate_copies || done).
  rewrite for_each_split_page by by apply Forall_enumerate_copies.
  cbn [fst snd page_files partial_files]. split; [done|]. split; [done|].
  split; [by rewrite length_app, length_map, length_enumerate|].
  split; [|done]. unfold left_behind. cbn [fst snd]. by rewrite Nat.add_0_l.
Qed.

Lemma failure_leaves_page_files_witness :
  let bad := Page (Ok None) false true in
  let run := process_single_pdf "torn.pdf" "split pdfs torn"
               (Ok (sample_pages ++ bad :: [])) (Ok tt) (Splitting [] [] []) in
  let cut := process_single_pdf "torn.pdf" "split pdfs torn" (Ok sample_pages)
               (Ok tt) (Splitting [] [] []) in
  run.2 = reported_failure "split pdfs torn" (Ok tt) ∧
  page_files run.1 = page_files cut.1 ∧
  length (page_files run.1) = length ([] : list string) + length sample_pages ∧
  partial_files run.1
    = partial_files cut.1
      ++ (if leaves_file bad
          then [page_filename (case_number_of bad) (length sample_pages)]
          else []) ∧
  partial_files cut.1 = [].
Proof.
  apply (failure_leaves_page_files "torn.pdf" "split pdfs torn" sample_pages
           (Page (Ok None) false true) [] (Ok tt) (Splitting [] [] [])).
  - repeat constructor.
  - reflexivity.
Defined.

(** The directory after that call: three files written in full and the
    file of the fourth page, which is not. *)
Example failure_leaves_page_files_here :
  let run := process_single_pdf "torn.pdf" "split pdfs torn"
               (Ok (sample_pages ++ [Page (Ok None) false true])) (Ok tt)
               (Splitting [] [] []) in
  run.2 = Ok (false, 0, "split pdfs torn", []) ∧
  page_files run.1 = [ "Case_Number_12-AB_Page_Num_1.pdf";
                       "Case_Number_UNKNOWN_Page_Num_2.pdf";
                       "Case_Number_UNKNOWN_Page_Num_3.pdf" ] ∧
  partial_files run.1 = [ "Case_Number_UNKNOWN_Page_Num_4.pdf" ].
Proof. vm_compute. done. Qed.

(** X6. The files one call leaves in the directory, written in full or not,
    have different names: no page of a document overwrites the file of
    another page of it. *)
Theorem page_files_distinct input_name output_dir document print_error rows :
  let run := process_single_pdf input_name output_dir document print_error
               (Splitting rows [] []) in
  NoDup (page_files run.1) ∧ NoDup (page_files run.1 ++ partial_files run.1).
Proof.
  cbv zeta.
  assert (NoDup (page_files (process_single_pdf input_name output_dir document
             print_error (Splitting rows [] [])).1
           ++ partial_files (process_single_pdf input_name output_dir document
             print_error (Splitting rows [] [])).1)) as Hnd;
    [|split; [by apply NoDup_app in Hnd as [? _]|done]].
  pose proof (process_single_pdf_cases input_name output_dir document print_error
                (Splitting rows [] [])) as H. cbv zeta in H.
  destruct document as [pages|e].
  - destruct H as (copied & rest & Heq & _ & H).
    pose proof (NoDup_page_files input_name 0 pages) as Hnd.
    rewrite Heq, map_app in Hnd.
    destruct rest as [|bad after].
    + destruct H as [_ ->]. cbn [fst page_files partial_files app].
      rewrite !app_nil_r, map_map in *. done.
    + destruct H as [_ ->]. cbn [fst page_files partial_files app].
      rewrite map_map. cbn [map] in Hnd.
      refine (sublist_NoDup _ _ Hnd _).
      apply sublist_app; [done|].
      etrans; [apply (left_behind_sublist input_name)|].
      apply sublist_skip, sublist_nil_l.
  - rewrite H. cbn. constructor.
Qed.

(** X7. A case number is never empty and holds none of the characters that
    frame it in a file name (the underscore and the dot), no blank and no
    path separator; a file name begins with [Case_Number_] and holds no
    path separator. No name that a call builds can leave the output
    directory. *)
Theorem page_file_names_are_plain input_name output_dir document print_error rows :
  let run := process_single_pdf input_name output_dir document print_error
               (Splitting rows [] []) in
  Forall (λ r, case_number r ≠ EmptyString ∧
               all_chars (λ c, negb (frames_case_number c)) (case_number r) ∧
               filename r = page_filename (case_number r) (page_number r - 1))
         (csv_data run.1) ∧
  Forall (λ f, String.prefix "Case_Number_" f = true ∧
               all_chars (λ c, negb (is_separator c)) f)
         (map filename (csv_data run.1) ++ page_files run.1 ++ partial_files run.1).
Proof.
  cbv zeta.
  assert (∀ np : nat * page,
            String.prefix "Case_Number_" (filename (page_row input_name np)) = true ∧
            all_chars (λ c, negb (is_separator c))
                      (filename (page_row input_name np))) as Hname.
  { intros [k p]. split; [apply prefix_append|apply page_filename_no_separator]. }
  assert (∀ l : list (nat * page),
            Forall (λ r, case_number r ≠ EmptyString ∧
                         all_chars (λ c, negb (frames_case_number c)) (case_number r) ∧
                         filename r = page_filename (case_number r) (page_number r - 1))
                   (map (page_row input_name) l)) as Hrows.
  { intros l. rewrite Forall_fmap. apply Forall_forall. intros [k p] _. cbn.
    destruct (case_number_of_chars p) as [? ?]. split; [done|]. split.
    - eapply all_chars_mono; [apply appeal_char_frames_nothing|done].
    - do 2 f_equal. lia. }
  assert (∀ l : list (nat * page),
            Forall (λ f, String.prefix "Case_Number_" f = true ∧
                         all_chars (λ c, negb (is_separator c)) f)
                   (map filename (map (page_row input_name) l))) as Hfiles.
  { intros l. rewrite map_map, Forall_fmap. apply Forall_forall. intros np _.
    apply Hname. }
  pose proof (process_single_pdf_cases input_name output_dir document print_error
                (Splitting rows [] [])) as H. cbv zeta in H.
  destruct document as [pages|e].
  - destruct H as (copied & rest & _ & _ & H). destruct rest as [|bad after].
    + destruct H as [_ ->]. cbn [fst csv_data page_files partial_files app].
      split; [apply Hrows|]. rewrite app_nil_r, Forall_app. split; apply Hfiles.
    + destruct H as [_ ->]. cbn [fst csv_data page_files partial_files app].
      split; [apply Hrows|]. rewrite !Forall_app. split; [apply Hfiles|].
      split; [apply Hfiles|].
      unfold left_behind. destruct (leaves_file bad.2); [|constructor].
      constructor; [apply (Hname bad)|constructor].
  - rewrite H. cbn. split; constructor.
Qed.

(** ** The pages the coordinator counts *)

Lemma from_splitter_pages success pages output_dir rows :
  from_splitter (Ok (success, pages, output_dir, rows)) →
  pages = length rows ∧ (success = false → rows = []).
Proof.
  intros (input_name & dir & document & print_error & st & Hrun).
  pose proof (process_single_pdf_cases input_name dir document print_error st) as H.
  cbv zeta in H.
  assert (reported_failure dir print_error = Ok (success, pages, output_dir, rows) →
          pages = length rows ∧ (success = false → rows = [])) as Hrep
    by by intros [= -> -> _ ->]%reported_failure_ok.
  destruct document as [ps|e].
  - destruct H as (copied & rest & Heq & _ & H). destruct rest as [|bad after].
    + destruct H as [_ H]. rewrite H in Hrun. cbn [snd] in Hrun.
      injection Hrun as <- <- <- <-. rewrite app_nil_r in Heq.
      by rewrite length_map, <- Heq, length_enumerate.
    + destruct H as [_ H]. rewrite H in Hrun. by apply Hrep.
  - rewrite H in Hrun. by apply Hrep.
Qed.

Lemma handled_pages E pf p o fr fr' :
  from_splitter o → handled E pf p o fr fr' →
  total_pages fr = length (all_csv_data fr) →
  total_pages fr' = length (all_csv_data fr').
Proof.
  intros Ho Hh Hfr.
  assert (∀ r, o = Ok r →
            total_pages (booked p r fr) = length (all_csv_data (booked p r fr)))
    as Hbooked.
  { intros [[[success pages] dir] rows] ->.
    destruct (from_splitter_pages _ _ _ _ Ho) as [-> _].
    destruct success; cbn; [|done]. rewrite length_app. lia. }
  destruct Hh as [e _|r Hr _|r fr1 saved Hr _ _|r e fr1 saved Hr _ _];
    try subst fr1; cbn [fail_again with_outside total_pages all_csv_data]; auto.
Qed.

Lemma loop_pages E pf l fr :
  Forall (λ a, from_splitter a.2) l →
  total_pages fr = length (all_csv_data fr) →
  total_pages (loop E pf l fr) = length (all_csv_data (loop E pf l fr)).
Proof.
  intros Hl. revert fr. induction Hl as [|[p o] l Ho _ IH]; intros fr Hfr.
  - by rewrite loop_nil.
  - rewrite loop_cons. apply IH.
    eapply handled_pages; [exact Ho|apply handle_future_handled|exact Hfr].
Qed.

Lemma report_total_pages E pf t0 fr :
  total_pages (report E pf t0 fr).1 = total_pages fr.
Proof.
  rewrite report_run. cbv zeta.
  destruct (save_csv_data E _ _ _).2; [|done].
  destruct (save_progress E _ _ _ _).2; [|done].
  repeat case_decide; done.
Qed.

(** X8. When the workers run [process_single_pdf], the pages the
    coordinator has counted when the call ends, however it ends, are as
    many as the rows it has gathered. *)
Theorem pages_counted_are_rows E pdf_paths mw resume pf fr :
  splits E →
  let run := process_pdfs_enterprise E pdf_paths mw resume pf fr in
  total_pages run.1 = length (all_csv_data run.1).
Proof.
  intros HE. cbv zeta. rewrite process_pdfs_enterprise_run. cbv zeta.
  destruct (if resume then _ else _); [|done].
  destruct (starting_lists resume pf (outside fr)) as [[c0 f0]|]; [|done].
  case_decide; [done|].
  rewrite report_total_pages.
  destruct (report_locals E pf (clock E (ticks (outside fr)))
              (drained E pf c0 f0 (to_submit resume pdf_paths c0 f0) (outside fr)))
    as (_ & _ & ->).
  unfold drained. apply loop_pages; [apply HE|done].
Qed.

Lemma sample_worker_splits order : splits (Env ticking_clock (λ _, NoFault) 4
                                              (pool_of order sample_worker)).
Proof.
  intros l. cbn [as_completed]. unfold pool_of. rewrite Forall_fmap.
  apply Forall_forall. intros p _. cbn. unfold sample_worker, from_splitter.
  destruct (process_single_pdf _ _ _ _ _).2 eqn:Hr; [|done]. eauto 10.
Qed.

Lemma pages_counted_are_rows_witness :
  let run := process_pdfs_enterprise (quiet_env sample_worker)
               ["a.pdf"; "torn.pdf"; "gone.pdf"; "b.pdf"] None false
               default_progress_file (fresh_frame empty_world) in
  total_pages run.1 = length (all_csv_data run.1).
Proof.
  apply (pages_counted_are_rows (quiet_env sample_worker)).
  apply sample_worker_splits.
Defined.

Example sample_run :
  let run := process_pdfs_enterprise (quiet_env sample_worker)
               ["a.pdf"; "torn.pdf"; "gone.pdf"; "b.pdf"] None false
               default_progress_file (fresh_frame empty_world) in
  run.2 = Ok (2, 2) ∧ total_pages run.1 = 6 ∧
  completed_files run.1 = ["b.pdf"; "a.pdf"] ∧
  failed_files run.1 = ["gone.pdf"; "torn.pdf"].
Proof. vm_compute. done. Qed.

(** ** The command line *)

Lemma for_each_app {S A} (l1 l2 : list A) (body : A → prog S unit) (s : S) :
  for_each (l1 ++ l2) body s =
    match for_each l1 body s with
    | (s', Ok _) => for_each l2 body s'
    | (s', Raise e) => (s', Raise e)
    end.
Proof.
  revert s. induction l1 as [|x l1 IH]; intros s; [reflexivity|].
  cbn [app for_each]. rewrite !bind_run.
  destruct (body x s) as [s1 [[]|e]]; [apply IH|reflexivity].
Qed.

Lemma parse_arg_run arg o :
  parse_arg arg o =
    if decide (arg = "--resume")
    then (Options (pdf_files o) (max_workers o) true, Ok tt)
    else if is_workers arg
    then match workers_value arg with
         | Ok n => (Options (pdf_files o) (Some n) (resume o), Ok tt)
         | Raise e => (o, Raise e)
         end
    else if endswith arg ".pdf"
    then (Options (pdf_files o ++ [arg]) (max_workers o) (resume o), Ok tt)
    else (o, Ok tt).
Proof.
  unfold parse_arg, is_workers, workers_value. case_decide; [reflexivity|].
  destruct (startswith arg "--workers="); [|by destruct (endswith arg ".pdf")].
  rewrite bind_run. cbn [of_result]. by destruct (int _).
Qed.

Lemma parse_arg_documents args o o' :
  for_each args parse_arg o = (o', Ok tt) →
  pdf_files o' = pdf_files o ++ filter is_document args.
Proof.
  revert o. induction args as [|arg args IH]; intros o.
  - cbn. intros [= <-]. by rewrite app_nil_r.
  - cbn [for_each]. rewrite bind_run, parse_arg_run.
    rewrite filter_cons.
    case_decide as Hres.
    + subst arg. intros ->%IH. cbn [pdf_files].
      rewrite decide_False; [done|]. by vm_compute.
    + destruct (is_workers arg) eqn:Hw.
      * destruct (workers_value arg); [|done]. intros ->%IH.
        rewrite decide_False; [done|]. unfold is_document. rewrite Hw. cbn. tauto.
      * destruct (endswith arg ".pdf") eqn:Hpdf.
        -- intros ->%IH. cbn [pdf_files].
           rewrite decide_True; [by rewrite <- app_assoc|].
           unfold is_document. rewrite Hw, Hpdf. by cbn.
        -- intros ->%IH.
           rewrite decide_False; [done|]. unfold is_document. rewrite Hw, Hpdf. cbn. tauto.
Qed.

Lemma main_run E glob_glob argv fr :
  main E glob_glob argv fr =
    if decide (length argv < 2) then (fr, 1)
    else match for_each (drop 1 argv) parse_arg (Options [] None false) with
         | (_, Raise _) => (fr, 1)
         | (o, Ok _) =>
             if decide (filter is_document (drop 1 argv) = []) then (fr, 1)
             else
               let run := process_pdfs_enterprise E (documents_of glob_glob argv)
                            (max_workers o) (resume o) default_progress_file fr in
               (run.1, exit_status run.2)
         end.
Proof.
  unfold main. case_decide; [done|].
  destruct (for_each _ _ _) as [o [[]|e]] eqn:Hparse; [|done].
  apply parse_arg_documents in Hparse. cbn [pdf_files app] in Hparse.
  rewrite Hparse. case_decide as Hnil.
  - by rewrite Hnil.
  - destruct (filter is_document (drop 1 argv)) eqn:Hf; [done|].
    cbv zeta. unfold documents_of. rewrite Hf.
    by destruct (process_pdfs_enterprise _ _ _ _ _ _).
Qed.

(** X9. Without an argument that is taken for a document, [main] ends
    with status 1 and leaves the state as it found it: no file is read or
    written and nothing is submitted, whatever the other arguments are. *)
Theorem no_document_no_run E glob_glob argv fr :
  Forall (λ arg, is_document arg = false) (drop 1 argv) →
  main E glob_glob argv fr = (fr, 1).
Proof.
  intros Hno. rewrite main_run. case_decide; [done|].
  destruct (for_each _ _ _) as [o [[]|e]]; [|done].
  rewrite decide_True; [done|].
  induction Hno as [|arg args Harg _ IH]; [done|].
  rewrite filter_cons, decide_False; [done|]. rewrite Harg. cbn. tauto.
Qed.

Lemma no_document_no_run_witness :
  main (quiet_env all_succeed) no_glob
       ["pdf_scanner_enterprise.py"; "--resume"; "--workers=4"; "report.PDF"; "notes.txt"]
       (fresh_frame empty_world)
  = (fresh_frame empty_world, 1).
Proof.
  apply (no_document_no_run (quiet_env all_succeed) no_glob
           ["pdf_scanner_enterprise.py"; "--resume"; "--workers=4"; "report.PDF";
            "notes.txt"]).
  repeat constructor.
Defined.

(** X10. What the loop over the arguments leaves, when no bound is
    malformed: the documents are the arguments that end in [.pdf] and do
    not start with [--workers=], in the order given; [--resume] counts
    wherever it stands; and the last [--workers=] decides the bound. *)
Theorem parsed_arguments args o :
  for_each args parse_arg (Options [] None false) = (o, Ok tt) →
  pdf_files o = filter is_document args ∧
  resume o = bool_decide ("--resume" ∈ args) ∧
  max_workers o = match last (filter is_workers args) with
                  | Some arg => match workers_value arg with
                                | Ok n => Some n
                                | Raise _ => None
                                end
                  | None => None
                  end.
Proof.
  intros Hrun. split; [by apply parse_arg_documents in Hrun|].
  revert o Hrun. induction args as [|arg args IH] using rev_ind; intros o.
  - intros [= <-]. done.
  - rewrite for_each_app.
    destruct (for_each args parse_arg _) as [o1 [[]|e]]; [|done].
    destruct (IH o1 eq_refl) as [Hres Hmw].
    cbn [for_each]. rewrite bind_run, parse_arg_run.
    rewrite filter_app, filter_cons, filter_nil.
    destruct (decide (arg = "--resume")) as [->|Hr].
    + intros [= <-]. cbn [resume max_workers]. split.
      * symmetry. apply bool_decide_eq_true. apply elem_of_app. right.
        by apply list_elem_of_singleton.
      * rewrite decide_False by by vm_compute. by rewrite app_nil_r.
    + assert (bool_decide ("--resume" ∈ args ++ [arg])
              = bool_decide ("--resume" ∈ args)) as ->.
      { apply bool_decide_ext. rewrite elem_of_app, list_elem_of_singleton.
        intuition congruence. }
      destruct (is_workers arg) eqn:Hw.
      * destruct (workers_value arg) as [n|e] eqn:Hn; [|done].
        intros [= <-]. cbn [resume max_workers]. split; [done|].
        rewrite decide_True by by apply Is_true_true_2.
        by rewrite last_snoc, Hn.
      * rewrite decide_False by by apply Is_true_false_2. rewrite app_nil_r.
        destruct (endswith arg ".pdf"); intros [= <-]; by cbn [resume max_workers].
Qed.

Lemma parsed_arguments_witness :
  let args := ["b.pdf"; "--workers=2"; "--resume"; "--workers"; "16"; "a.pdf";
               "--workers= 3 "; "c.PDF"] in
  let o := Options ["b.pdf"; "a.pdf"] (Some 3%Z) true in
  pdf_files o = filter is_document args ∧
  resume o = bool_decide ("--resume" ∈ args) ∧
  max_workers o = match last (filter is_workers args) with
                  | Some arg => match workers_value arg with
                                | Ok n => Some n
                                | Raise _ => None
                                end
                  | None => None
                  end.
Proof.
  apply (parsed_arguments
           ["b.pdf"; "--workers=2"; "--resume"; "--workers"; "16"; "a.pdf";
            "--workers= 3 "; "c.PDF"]
           (Options ["b.pdf"; "a.pdf"] (Some 3%Z) true)).
  vm_compute. reflexivity.
Defined.

Lemma exit_status_0 r : exit_status r = 0 → ∃ n, r = Ok (n, 0).
Proof.
  destruct r as [[n m]|e]; [|done]. cbn. case_decide; [done|].
  intros _. exists n. do 2 f_equal. lia.
Qed.

(** The paths of a run that returns are all in its two lists. *)
Lemma run_ok_covers E pdf_paths mw resume pf fr fr' n m :
  delivers E →
  process_pdfs_enterprise E pdf_paths mw resume pf fr = (fr', Ok (n, m)) →
  n = length (completed_files fr') ∧ m = length (failed_files fr') ∧
  ∀ x, x ∈ pdf_paths → x ∈ completed_files fr' ++ failed_files fr'.
Proof.
  intros HE Hrun.
  destruct (run_ok_inv _ _ _ _ _ _ _ _ _ Hrun) as (c0 & f0 & Hstart & _ & Hfr & Hok).
  cbv zeta in Hfr, Hok.
  destruct (report_locals E pf (clock E (ticks (outside fr)))
              (drained E pf c0 f0 (to_submit resume pdf_paths c0 f0) (outside fr)))
    as (Hc & Hf & _).
  apply report_ok in Hok as [-> ->].
  rewrite Hfr, Hc, Hf. split; [done|]. split; [done|].
  intros x Hx. unfold drained. rewrite loop_elem_of, (HE _).
  cbn [entry_frame completed_files failed_files].
  destruct resume; cbn [to_submit]; [|by right].
  rewrite elem_of_remaining_files, elem_of_app.
  destruct (decide (x ∈ c0)), (decide (x ∈ f0)); tauto.
Qed.



Lemma for_each_parse_arg_skipped args o skipped :
  Forall (λ arg, is_skipped arg = true) skipped →
  for_each (args ++ skipped) parse_arg o = for_each args parse_arg o.
Proof.
  intros Hs. rewrite for_each_app.
  destruct (for_each args parse_arg o) as [o1 [[]|e]]; [|done].
  induction Hs as [|arg skipped Harg _ IH]; [done|].
  cbn [for_each]. rewrite bind_run, parse_arg_run.
  unfold is_skipped in Harg. apply andb_true_iff in Harg as [Harg Hpdf].
  apply andb_true_iff in Harg as [Hres Hw].
  apply bool_decide_eq_true in Hres. apply negb_true_iff in Hw, Hpdf.
  rewrite decide_False, Hw, Hpdf by done. exact IH.
Qed.

Lemma filter_is_document_skipped skipped :
  Forall (λ arg, is_skipped arg = true) skipped →
  filter is_document skipped = [].
Proof.
  induction 1 as [|arg skipped Harg _ IH]; [done|].
  rewrite filter_cons, decide_False; [done|].
  unfold is_skipped in Harg. apply andb_true_iff in Harg as [_ Hpdf].
  apply negb_true_iff in Hpdf. unfold is_document. rewrite Hpdf.
  rewrite andb_false_r. tauto.
Qed.

(** X12. The usage text shows the bound as [--workers N]. Written so, as
    two arguments after the documents, it changes nothing: [--workers] and
    the number are skipped, and the run is the one without them. *)
Theorem workers_as_two_arguments_is_skipped E glob_glob prog documents n fr :
  is_skipped n = true →
  Forall (λ arg, contains arg "*" = false) documents →
  main E glob_glob (prog :: documents ++ ["--workers"; n]) fr
  = main E glob_glob (prog :: documents) fr.
Proof.
  intros Hn Hstar.
  assert (Forall (λ arg, is_skipped arg = true) ["--workers"; n]) as Hs
    by (repeat constructor; done).
  assert (documents_of glob_glob (prog :: documents ++ ["--workers"; n])
          = documents_of glob_glob (prog :: documents)) as Hdocs.
  { unfold documents_of. cbn [drop length]. rewrite !drop_0.
    rewrite filter_app, (filter_is_document_skipped _ Hs), app_nil_r.
    rewrite length_app. cbn [length].
    rewrite bool_decide_eq_false_2 by lia. cbn [andb].
    destruct documents as [|d documents]; [done|].
    apply Forall_cons in Hstar as [Hd _]. cbn [lookup_total list_lookup_total].
    by rewrite Hd, andb_false_r. }
  rewrite !main_run, Hdocs. cbn [drop length]. rewrite !drop_0.
  rewrite for_each_parse_arg_skipped by done.
  rewrite filter_app, (filter_is_document_skipped _ Hs), app_nil_r.
  rewrite length_app. cbn [length].
  destruct documents as [|d documents].
  - cbn [for_each filter list_filter length]. cbn [mret prog_ret].
    repeat case_decide; done || (exfalso; cbn in *; lia).
  - cbn [length]. repeat case_decide; done || (exfalso; cbn in *; lia).
Qed.

Lemma workers_as_two_arguments_is_skipped_witness :
  main (quiet_env all_succeed) no_glob
       ["pdf_scanner_enterprise.py"; "a.pdf"; "b.pdf"; "--workers"; "16"]
       (fresh_frame empty_world)
  = main (quiet_env all_succeed) no_glob
         ["pdf_scanner_enterprise.py"; "a.pdf"; "b.pdf"]
         (fresh_frame empty_world).
Proof.
  apply (workers_as_two_arguments_is_skipped (quiet_env all_succeed) no_glob
           "pdf_scanner_enterprise.py" ["a.pdf"; "b.pdf"] "16"
           (fresh_frame empty_world)).
  - reflexivity.
  - repeat constructor.
Defined.

(** ** Reading a bound *)

Lemma digit_of_pretty_N_char x :
  (x < 10)%N → Z.of_nat (nat_of_ascii (pretty_N_char x) - 48) = Z.of_N x.
Proof.
  intros Hx. destruct x as [|p]; [reflexivity|].
  do 4 (try destruct p as [p|p|]); try reflexivity; exfalso; lia.
Qed.

(** The digits of a positive number, read from the left after [acc]. *)
Lemma digits_value_pretty_N_go x s acc count b :
  (0 < x)%N →
  ∃ d, digits_value (pretty_N_go x s) acc count b
       = digits_value s (acc * 10 ^ Z.of_nat d + Z.of_N x)%Z (count + d) true.
Proof.
  revert s. induction (N.lt_wf_0 x) as [x _ IH]; intros s Hx.
  rewrite pretty_N_go_step by done.
  assert (x `mod` 10 < 10)%N as Hm by (apply N.mod_lt; lia).
  assert (x = 10 * (x `div` 10) + x `mod` 10)%N as Hdiv
    by (apply N.div_mod; lia).
  destruct (decide (x `div` 10 = 0)%N) as [H0|H0].
  - rewrite H0, pretty_N_go_0. exists 1. cbn [digits_value].
    rewrite is_digit_pretty_N_char, digit_of_pretty_N_char by done.
    f_equal; lia.
  - destruct (IH (x `div` 10)%N) with (s := String (pretty_N_char (x `mod` 10)) s)
      as [d ->]; [apply N.div_lt; lia|lia|].
    exists (S d). cbn [digits_value].
    rewrite is_digit_pretty_N_char, digit_of_pretty_N_char by done.
    f_equal; [|lia].
    rewrite Nat2Z.inj_succ, Z.pow_succ_r by lia. lia.
Qed.

Lemma digits_value_count s acc count b v c :
  digits_value s acc count b = Some (v, c) → c ≤ count + String.length s.
Proof.
  revert acc count b. induction s as [|a s IH]; intros acc count b; cbn [digits_value].
  - destruct b; [|done]. intros [= _ <-]. cbn. lia.
  - destruct (is_digit a).
    + intros ?%IH. cbn. lia.
    + destruct (_ && _); [|done]. intros ?%IH. cbn. lia.
Qed.

Lemma digits_value_pretty (n : nat) :
  ∃ c, digits_value (pretty n) 0 0 false = Some (Z.of_nat n, c) ∧
       c ≤ String.length (pretty n).
Proof.
  assert (∃ c, digits_value (pretty n) 0 0 false = Some (Z.of_nat n, c)) as [c Hc].
  { unfold pretty, pretty_nat, pretty, pretty_N. case_decide as H0.
    - exists 1. replace n with 0 by lia. reflexivity.
    - destruct (digits_value_pretty_N_go (N.of_nat n) EmptyString 0 0 false)
        as [d ->]; [lia|].
      exists d. cbn [digits_value]. do 2 f_equal. lia. }
  exists c. split; [done|]. by apply digits_value_count in Hc.
Qed.

Lemma is_digit_not_int_space c : is_digit c → negb (is_int_space c).
Proof.
  unfold is_digit, is_int_space. cbv zeta. rewrite bool_decide_spec. intros H.
  apply negb_prop_intro. rewrite bool_decide_spec. lia.
Qed.

Lemma lstrip_int_id s : all_chars (λ c, negb (is_int_space c)) s → lstrip_int s = s.
Proof. destruct s as [|c s]; [done|]. cbn. by destruct (is_int_space c). Qed.

Lemma rstrip_int_id s : all_chars (λ c, negb (is_int_space c)) s → rstrip_int s = s.
Proof.
  induction s as [|c s IH]; [done|]. cbn [all_chars rstrip_int].
  rewrite andb_True. intros [Hc Hs]. rewrite (IH Hs).
  destruct s; [|done]. by destruct (is_int_space c).
Qed.

(** [int] reads back the decimal text of a number. *)
Lemma int_pretty (n : nat) :
  String.length (pretty n) ≤ 4300 → int (pretty n) = Ok (Z.of_nat n).
Proof.
  intros Hlen. unfold int.
  pose proof (all_digits_all_chars _ (all_digits_pretty n)) as Hd.
  assert (all_chars (λ c, negb (is_int_space c)) (pretty n)) as Hs
    by (eapply all_chars_mono; [apply is_digit_not_int_space|done]).
  rewrite (lstrip_int_id _ Hs), (rstrip_int_id _ Hs).
  destruct (digits_value_pretty n) as (c & Hc & Hcount).
  destruct (pretty n) as [|a r] eqn:Hp.
  - cbn in Hc. done.
  - cbn [all_chars] in Hd. apply andb_True in Hd as [Ha _].
    rewrite !decide_False.
    + rewrite Hc. rewrite decide_False by lia. done.
    + intros H. unfold is_digit in Ha. cbv zeta in Ha.
      rewrite H in Ha. by vm_compute in Ha.
    + intros H. unfold is_digit in Ha. cbv zeta in Ha.
      rewrite H in Ha. by vm_compute in Ha.
Qed.

Lemma str_split_no_sep (sep : ascii) s :
  all_chars (λ c, bool_decide (c ≠ sep)) s → str_split sep s = [s].
Proof.
  induction s as [|c s IH]; [done|]. cbn [all_chars str_split].
  rewrite andb_True, bool_decide_spec. intros [Hc Hs].
  rewrite decide_False by done. by rewrite (IH Hs).
Qed.

Lemma digits_no_equals s :
  all_digits s = true → all_chars (λ c, bool_decide (c ≠ ascii_of_nat 61)) s.
Proof.
  intros H%all_digits_all_chars. revert H. apply all_chars_mono.
  intros c. unfold is_digit. cbv zeta.
  rewrite !bool_decide_spec. intros H ->. vm_compute in H. lia.
Qed.

(** X13. A bound written [--workers=N], with [N] in decimal, is read as
    [N], whatever was read before it. *)
Theorem workers_argument_is_read (n : nat) o :
  String.length (pretty n) ≤ 4300 →
  parse_arg ("--workers=" +:+ pretty n) o
  = (Options (pdf_files o) (Some (Z.of_nat n)) (resume o), Ok tt).
Proof.
  intros Hlen. rewrite parse_arg_run.
  assert (str_split "=" ("--workers=" +:+ pretty n) = ["--workers"; pretty n]) as Hs.
  { change ("--workers=" +:+ pretty n)
      with ("--workers" +:+ String "=" (pretty n)).
    cbn -[pretty]. rewrite !append_cons, append_nil_l. cbn -[pretty].
    by rewrite (str_split_no_sep "=" (pretty n))
      by apply digits_no_equals, all_digits_pretty. }
  rewrite decide_False by done.
  unfold is_workers, workers_value. rewrite Hs.
  cbn [lookup_total list_lookup_total]. rewrite int_pretty by done.
  reflexivity.
Qed.

Lemma workers_argument_is_read_witness :
  parse_arg ("--workers=" +:+ pretty 12) (Options ["a.pdf"] None true)
  = (Options ["a.pdf"] (Some 12%Z) true, Ok tt).
Proof.
  apply (workers_argument_is_read 12 (Options ["a.pdf"] None true)).
  vm_compute. lia.
Defined.

(** ** The loop, whatever the futures and the disk do *)

Lemma handled_prefix E pf p o fr fr' :
  handled E pf p o fr fr' →
  completed_files fr `prefix_of` completed_files fr' ∧
  failed_files fr `prefix_of` failed_files fr' ∧
  all_csv_data fr `prefix_of` all_csv_data fr'.
Proof.
  assert (∀ r, completed_files fr `prefix_of` completed_files (booked p r fr) ∧
               failed_files fr `prefix_of` failed_files (booked p r fr) ∧
               all_csv_data fr `prefix_of` all_csv_data (booked p r fr)) as Hb.
  { intros [[[[] ?] ?] ?]; cbn; repeat split; by (apply prefix_app_r || done). }
  intros [e _|r _ _|r fr1 saved _ _ _|r e fr1 saved _ _ _]; try subst fr1;
    cbn [fail_again with_outside completed_files failed_files all_csv_data].
  - repeat split; by (apply prefix_app_r || done).
  - apply Hb.
  - apply Hb.
  - destruct (Hb r) as (? & ? & ?). repeat split; [done| |done].
    by apply prefix_app_r.
Qed.

Lemma loop_prefix E pf l fr :
  completed_files fr `prefix_of` completed_files (loop E pf l fr) ∧
  failed_files fr `prefix_of` failed_files (loop E pf l fr) ∧
  all_csv_data fr `prefix_of` all_csv_data (loop E pf l fr).
Proof.
  revert fr. induction l as [|[p o] l IH]; intros fr.
  - by rewrite loop_nil.
  - rewrite loop_cons.
    destruct (handled_prefix _ _ _ _ _ _ (handle_future_handled E pf p o fr))
      as (? & ? & ?).
    destruct (IH (handle_future E pf (p, o) fr).1) as (? & ? & ?).
    repeat split; by etrans.
Qed.

(** X14. The two lists and the rows only grow at their end: what is recorded
    after [j] futures is still there, at the same place, after [k]. *)
Theorem lists_only_grow E pf c0 f0 todo w j k :
  j ≤ k →
  let at_ i := point E pf c0 f0 todo w i in
  completed_files (at_ j) `prefix_of` completed_files (at_ k) ∧
  failed_files (at_ j) `prefix_of` failed_files (at_ k) ∧
  all_csv_data (at_ j) `prefix_of` all_csv_data (at_ k).
Proof.
  intros Hjk. cbv zeta. unfold point.
  replace k with (j + (k - j)) by lia.
  rewrite <- take_take_drop, loop_app. apply loop_prefix.
Qed.

Lemma lists_only_grow_witness :
  let at_ i := point (quiet_env some_fail) default_progress_file [] []
                 ["a.pdf"; "bad.pdf"; "gone.pdf"; "b.pdf"] empty_world i in
  completed_files (at_ 1) `prefix_of` completed_files (at_ 4) ∧
  failed_files (at_ 1) `prefix_of` failed_files (at_ 4) ∧
  all_csv_data (at_ 1) `prefix_of` all_csv_data (at_ 4).
Proof.
  apply (lists_only_grow (quiet_env some_fail) default_progress_file [] []
           ["a.pdf"; "bad.pdf"; "gone.pdf"; "b.pdf"] empty_world 1 4).
  lia.
Defined.

Lemma handled_fails E pf p o fr fr' :
  fails o → handled E pf p o fr fr' → p ∈ failed_files fr'.
Proof.
  intros Ho [e _|r -> _|r fr1 saved -> _ _|r e fr1 saved -> _ _]; try subst fr1;
    cbn [fail_again with_outside failed_files];
    try (destruct r as [[[[] ?] ?] ?]; [done|]; cbn);
    rewrite elem_of_app, list_elem_of_singleton; auto.
Qed.

(** ** A [print] that raises *)

Section Printing.
Context (out : line → result unit).

Lemma print_line_run {S} l (s : S) : print_line out l s = (s, out l).
Proof. reflexivity. Qed.

(** Two computations that agree on every state. *)
Lemma bind_ext {S A B} (m1 m2 : prog S A) (k1 k2 : A → prog S B) s :
  m1 s = m2 s → (∀ a s', k1 a s' = k2 a s') →
  (m1 ≫= k1) s = (m2 ≫= k2) s.
Proof.
  intros Hm Hk. rewrite !bind_run, Hm. destruct (m2 s) as [s' [a|e]]; auto.
Qed.

Lemma for_each_ext {S A} (l : list A) (body1 body2 : A → prog S unit) s :
  (∀ x s', body1 x s' = body2 x s') →
  for_each l body1 s = for_each l body2 s.
Proof.
  intros Hb. revert s. induction l as [|x l IH]; intros s; [done|].
  cbn [for_each]. apply bind_ext; auto.
Qed.

Lemma on_outside_ext {A} (m1 m2 : prog world A) fr :
  m1 (outside fr) = m2 (outside fr) → on_outside m1 fr = on_outside m2 fr.
Proof. intros H. unfold on_outside. by rewrite H. Qed.

Lemma then_print {S} (m : prog S unit) l (s : S) :
  out l = Ok tt → (m ;; print_line out l) s = m s.
Proof.
  intros Hl. rewrite bind_run. destruct (m s) as [s' [[]|e]]; [|done].
  by rewrite print_line_run, Hl.
Qed.

Lemma print_then {S A} l (k : prog S A) (s : S) :
  out l = Ok tt → (print_line out l ;; k) s = k s.
Proof. intros Hl. by rewrite bind_run, print_line_run, Hl. Qed.

Lemma for_each_print {S} (ls : list line) (s : S) :
  Forall (λ l, out l = Ok tt) ls → for_each ls (print_line out) s = (s, Ok tt).
Proof.
  induction 1 as [|l ls Hl _ IH]; [done|].
  cbn [for_each]. by rewrite print_then.
Qed.

Lemma for_each_print_files {S} (ps : list string) (s : S) :
  writes_all out →
  for_each ps (λ failed, print_line out (LFailedFile failed)) s = (s, Ok tt).
Proof.
  intros Hout. induction ps as [|p ps IH]; [done|].
  cbn [for_each]. by rewrite print_then.
Qed.

(** One iteration, by cases on the future and on the two lines it may
    print. *)
Lemma handle_future_printing_raised E pf p e fr :
  handle_future_printing out E pf (p, Raise e) fr =
    (fail_again p fr, out (LException p e)).
Proof. reflexivity. Qed.

Lemma handle_future_printing_returned E pf p r fr :
  handle_future_printing out E pf (p, Ok r) fr =
    match out (line_of p r) with
    | Ok _ =>
        match checkpoint_if_due E pf (booked p r fr) with
        | (fr', Ok _) => (fr', Ok tt)
        | (fr', Raise e) => (fail_again p fr', out (LException p e))
        end
    | Raise e => (fail_again p (booked p r fr), out (LException p e))
    end.
Proof.
  destruct r as [[[success pages] od] csv].
  unfold handle_future_printing, try_except, line_of.
  cbn [process_pdf_worker]. rewrite !bind_run. cbn [of_result].
  rewrite !bind_run.
  destruct success; rewrite bind_run;
    cbn [record_completed record_failed modify booked];
    rewrite print_line_run;
    (match goal with |- context [out ?l] => destruct (out l) as [[]|e'] end;
     [|reflexivity]);
    match goal with |- context [checkpoint_if_due ?a ?b ?c] =>
      destruct (checkpoint_if_due a b c) as [fr' [[]|e']] end; reflexivity.
Qed.

Lemma handle_future_checkpoint E pf p r fr :
  handle_future E pf (p, Ok r) fr =
    match checkpoint_if_due E pf (booked p r fr) with
    | (fr', Ok _) => (fr', Ok tt)
    | (fr', Raise _) => (fail_again p fr', Ok tt)
    end.
Proof.
  destruct r as [[[success pages] od] csv].
  unfold handle_future, try_except.
  cbn [process_pdf_worker]. rewrite !bind_run. cbn [of_result].
  rewrite !bind_run.
  destruct success; cbn [record_completed record_failed modify booked];
    match goal with |- context [checkpoint_if_due ?a ?b ?c] =>
      destruct (checkpoint_if_due a b c) as [fr' [[]|e']] end; reflexivity.
Qed.

Lemma handle_future_printing_quiet E pf a fr :
  writes_all out →
  handle_future_printing out E pf a fr = handle_future E pf a fr.
Proof.
  intros Hout. destruct a as [p [r|e]].
  - rewrite handle_future_printing_returned, handle_future_checkpoint, Hout.
    destruct (checkpoint_if_due _ _ _) as [fr' [[]|e]]; [done|]. by rewrite Hout.
  - by rewrite handle_future_printing_raised, Hout.
Qed.

Lemma save_csv_data_printing_quiet E rows path w :
  writes_all out →
  save_csv_data_printing out E rows path w = save_csv_data E rows path w.
Proof.
  intros Hout. destruct rows as [|r rows]; [done|].
  cbn [save_csv_data_printing save_csv_data]. by apply then_print.
Qed.

Lemma resume_from_printing_quiet pf pdf_paths fr :
  writes_all out →
  resume_from_printing out pf pdf_paths fr = resume_from pf pdf_paths fr.
Proof.
  intros Hout. unfold resume_from_printing, resume_from.
  apply bind_ext; [done|]. intros [c f] fr'.
  destruct (as_str_list c), (as_str_list f); try done.
  apply bind_ext; [done|]. intros [] fr''. cbv zeta. by rewrite print_then.
Qed.

(** When every line is written the run is the one of the coordinator
    above. *)
Lemma process_pdfs_enterprise_printing_quiet E pdf_paths mw resume pf fr :
  writes_all out →
  process_pdfs_enterprise_printing out E pdf_paths mw resume pf fr
  = process_pdfs_enterprise E pdf_paths mw resume pf fr.
Proof.
  intros Hout. unfold process_pdfs_enterprise_printing, process_pdfs_enterprise.
  cbv zeta. rewrite print_then by done.
  apply bind_ext; [done|]. intros [] fr1.
  apply bind_ext; [destruct resume; [by apply resume_from_printing_quiet|done]|].
  intros todo fr2. apply bind_ext; [done|]. intros start_time fr3.
  apply bind_ext; [done|]. intros [] fr4.
  apply bind_ext; [done|]. intros futures fr5.
  apply bind_ext.
  { apply for_each_ext. intros a s'. by apply handle_future_printing_quiet. }
  intros [] fr6. apply bind_ext; [done|]. intros fr7 fr8.
  apply bind_ext.
  { apply on_outside_ext. by apply save_csv_data_printing_quiet. }
  intros [] fr9. apply bind_ext; [done|]. intros [] fr10.
  apply bind_ext; [done|]. intros end_time fr11.
  rewrite bind_run, for_each_print by (repeat constructor; apply Hout).
  apply bind_ext; [done|]. intros [] fr12.
  rewrite print_then by done.
  apply bind_ext; [done|]. intros [] fr13.
  rewrite !print_then by done.
  rewrite bind_run.
  destruct (failed_files fr7) as [|x l]; [done|].
  by rewrite print_then, for_each_print_files.
Qed.

End Printing.


(** Three futures and an output that cannot write the second path: the
    third future is not handled. *)
Example one_print_stops_the_loop :
  let l := [ ("a.pdf", all_succeed "a.pdf"); ("secret.pdf", Raise OSError);
             ("b.pdf", all_succeed "b.pdf") ] in
  let run := for_each l (handle_future_printing no_secret (quiet_env all_succeed)
                           default_progress_file) (fresh_frame empty_world) in
  run.2 = Raise ValueError ∧
  completed_files run.1 = ["a.pdf"] ∧ failed_files run.1 = ["secret.pdf"] ∧
  (for_each l (handle_future (quiet_env all_succeed) default_progress_file)
            (fresh_frame empty_world)).2 = Ok tt.
Proof. vm_compute. done. Qed.

(** A document that is split and whose line cannot be printed is in both
    lists. *)
Example one_print_books_twice :
  let run := for_each [("secret.pdf", all_succeed "secret.pdf")]
               (handle_future_printing no_secret (quiet_env all_succeed)
                  default_progress_file) (fresh_frame empty_world) in
  run.2 = Raise ValueError ∧
  completed_files run.1 = ["secret.pdf"] ∧ failed_files run.1 = ["secret.pdf"].
Proof. vm_compute. done. Qed.

(** ** The ways a run ends *)

Lemma starting_lists_load resume pf w c0 f0 :
  starting_lists resume pf w = Some (c0, f0) →
  ∃ v, (if resume then (load_progress pf w).2 else Ok (JArr [], JArr [])) = Ok v.
Proof.
  destruct resume; [|by eexists]. cbn. unfold loaded.
  destruct (load_progress pf w).2; [by eexists|done].
Qed.

(** X16. A bound on the pool below one stops the run with [ValueError]
    before anything is submitted or written, after the checkpoint has been
    read. *)
Theorem bound_below_one_stops_the_run E pdf_paths mw resume pf fr c0 f0 :
  (workers E mw ≤ 0)%Z →
  starting_lists resume pf (outside fr) = Some (c0, f0) →
  let run := process_pdfs_enterprise E pdf_paths mw resume pf fr in
  run.2 = Raise ValueError ∧
  exit_status run.2 = 1 ∧
  files (outside run.1) = files (outside fr) ∧
  submitted (outside run.1) = submitted (outside fr).
Proof.
  intros Hw Hstart. cbv zeta. rewrite process_pdfs_enterprise_run. cbv zeta.
  destruct (starting_lists_load _ _ _ _ _ Hstart) as [v ->]. rewrite Hstart.
  by rewrite decide_True.
Qed.

Lemma bound_below_one_stops_the_run_witness :
  let w := world_with_checkpoint default_progress_file ["a.pdf"] [] in
  let run := process_pdfs_enterprise (quiet_env all_succeed) ["a.pdf"; "b.pdf"]
               (Some 0%Z) true default_progress_file (fresh_frame w) in
  run.2 = Raise ValueError ∧
  exit_status run.2 = 1 ∧
  files (outside run.1) = files (outside (fresh_frame w)) ∧
  submitted (outside run.1) = submitted (outside (fresh_frame w)).
Proof.
  apply (bound_below_one_stops_the_run (quiet_env all_succeed) ["a.pdf"; "b.pdf"]
           (Some 0%Z) true default_progress_file
           (fresh_frame (world_with_checkpoint default_progress_file ["a.pdf"] []))
           ["a.pdf"] []).
  - vm_compute. discriminate.
  - vm_compute. reflexivity.
Defined.

Lemma save_csv_data_ticks E rows path w :
  ticks (save_csv_data E rows path w).1 = ticks w.
Proof.
  destruct rows; [done|]. cbn [save_csv_data]. by rewrite write_file_run.
Qed.

Lemma handled_ticks E pf p o fr fr' :
  handled E pf p o fr fr' → ticks (outside fr) ≤ ticks (outside fr').
Proof.
  intros [e _|r _ _|r fr1 saved _ _ _|r e fr1 saved _ _ _]; try subst fr1 saved;
    cbn [fail_again with_outside outside]; rewrite ?booked_outside; try done;
    rewrite save_progress_run; cbn [fst ticks]; rewrite ?booked_outside; lia.
Qed.

Lemma loop_ticks E pf l fr :
  ticks (outside fr) ≤ ticks (outside (loop E pf l fr)).
Proof.
  revert fr. induction l as [|[p o] l IH]; intros fr; [done|].
  rewrite loop_cons. etrans; [|apply IH].
  apply (handled_ticks _ _ _ _ _ _ (handle_future_handled E pf p o fr)).
Qed.

Lemma save_csv_data_no_fault E rows path w :
  no_fault E → (save_csv_data E rows path w).2 = Ok tt.
Proof.
  intros HE. destruct rows; [done|]. cbn [save_csv_data].
  rewrite write_file_run. unfold written. by rewrite HE.
Qed.

Lemma drained_length E pf c0 f0 todo w :
  no_fault E → delivers E →
  let d := drained E pf c0 f0 todo w in
  length (completed_files d ++ failed_files d)
  = length c0 + length f0 + length todo.
Proof.
  intros HE Hd. cbv zeta. unfold drained.
  rewrite (loop_permutation E pf _ _ HE). cbn [entry_frame completed_files failed_files].
  rewrite !length_app, (Hd todo). done.
Qed.

Lemma to_submit_covers resume pdf_paths c0 f0 x :
  x ∈ pdf_paths → x ∈ to_submit resume pdf_paths c0 f0 ∨ x ∈ c0 ∨ x ∈ f0.
Proof.
  intros Hx. destruct resume; cbn [to_submit]; [|by left].
  rewrite elem_of_remaining_files.
  destruct (decide (x ∈ c0)), (decide (x ∈ f0)); tauto.
Qed.

(** What the statements after the loop return when no write is faulty. *)
Lemma report_no_fault E pf t0 fr :
  no_fault E →
  (report E pf t0 fr).2 =
    if decide (length (completed_files fr ++ failed_files fr) = 0)
    then Raise ZeroDivisionError
    else if decide (clock E (S (ticks (outside fr))) = t0)
    then Raise ZeroDivisionError
    else Ok (length (completed_files fr), length (failed_files fr)).
Proof.
  intros HE. rewrite report_run. cbv zeta.
  rewrite save_csv_data_no_fault by done.
  rewrite save_progress_no_fault by apply HE. cbn [fst snd ticks].
  rewrite save_csv_data_ticks. by repeat case_decide.
Qed.

(** The coordinator above returns when the disk and the pool work, the
    bound is positive, the checkpoint loads, some path is given and the
    clock has moved on since the start. *)
Lemma quiet_run_returns E pdf_paths mw resume pf fr c0 f0 :
  no_fault E → delivers E → (0 < workers E mw)%Z →
  starting_lists resume pf (outside fr) = Some (c0, f0) →
  pdf_paths ≠ [] →
  (∀ k, ticks (outside fr) < k → clock E k ≠ clock E (ticks (outside fr))) →
  let run := process_pdfs_enterprise E pdf_paths mw resume pf fr in
  ∃ n m,
    run.2 = Ok (n, m) ∧
    n + m = length c0 + length f0 + length (to_submit resume pdf_paths c0 f0) ∧
    exit_status run.2 = (if decide (m = 0) then 0 else 1).
Proof.
  intros HE Hd Hw Hstart Hne Hclock. cbv zeta.
  rewrite process_pdfs_enterprise_run. cbv zeta.
  destruct (starting_lists_load _ _ _ _ _ Hstart) as [v ->]. rewrite Hstart.
  rewrite decide_False by lia.
  set (todo := to_submit resume pdf_paths c0 f0).
  set (d := drained E pf c0 f0 todo (outside fr)).
  pose proof (drained_length E pf c0 f0 todo (outside fr) HE Hd) as Hlen.
  cbv zeta in Hlen. fold d in Hlen.
  rewrite report_no_fault by done.
  rewrite decide_False.
  - rewrite decide_False.
    + exists (length (completed_files d)), (length (failed_files d)).
      split; [done|]. rewrite length_app in Hlen. split; [done|].
      cbn [exit_status]. repeat case_decide; done || lia.
    + apply Hclock. unfold d, drained.
      pose proof (loop_ticks E pf (as_completed E todo)
                    (entry_frame c0 f0 todo (outside fr))) as Ht.
      cbn [entry_frame outside ticks] in Ht. lia.
  - rewrite Hlen. destruct pdf_paths as [|x rest]; [done|].
    destruct (to_submit_covers resume (x :: rest) c0 f0 x) as [Hx|[Hx|Hx]];
      [apply list_elem_of_here| | |]; fold todo in Hx || idtac;
      apply list_elem_of_split in Hx as (? & ? & Hx); rewrite Hx, length_app;
      cbn [length]; lia.
Qed.

Lemma ticking_clock_inj j k : ticking_clock j = ticking_clock k → j = k.
Proof.
  unfold ticking_clock. intros H.
  apply (inj (String.app "170000000")) in H.
  apply (append_sep_inj (ascii_of_nat 46)) in H as [H _];
    [|apply digits_no_dot, all_digits_pretty..].
  by apply (inj pretty) in H.
Qed.

Lemma remaining_files_nil pdf_paths : remaining_files pdf_paths [] [] = pdf_paths.
Proof.
  unfold remaining_files. induction pdf_paths as [|p l IH]; [done|].
  rewrite filter_cons_True; [by rewrite IH|].
  split; apply not_elem_of_nil.
Qed.

Lemma starting_lists_none resume pf w :
  resume = false ∨ files w !! pf = None →
  starting_lists resume pf w = Some ([], []).
Proof.
  intros [->|Hpf]; [done|]. destruct resume; [|done].
  cbn [starting_lists]. unfold loaded. by rewrite load_progress_result, Hpf.
Qed.

(** X17. A run returns when every line can be printed, the disk and the
    pool work, the bound on the pool is one that every platform serves,
    from 1 to 61, no checkpoint is read (the run does not resume, or there
    is no checkpoint file), some path is given and the clock has moved on
    since the start. The two counts it returns add up to the number of
    paths given. *)
Theorem run_returns out E pdf_paths mw resume pf fr :
  writes_all out → no_fault E → delivers E → (0 < workers E mw ≤ 61)%Z →
  resume = false ∨ files (outside fr) !! pf = None →
  pdf_paths ≠ [] →
  (∀ k, ticks (outside fr) < k → clock E k ≠ clock E (ticks (outside fr))) →
  let run := process_pdfs_enterprise_printing out E pdf_paths mw resume pf fr in
  ∃ n m,
    run.2 = Ok (n, m) ∧
    n + m = length pdf_paths ∧
    exit_status run.2 = (if decide (m = 0) then 0 else 1).
Proof.
  intros Hout HE Hd Hw Hfresh Hne Hclock. cbv zeta.
  rewrite process_pdfs_enterprise_printing_quiet by done.
  destruct (quiet_run_returns E pdf_paths mw resume pf fr [] [] HE Hd
              ltac:(lia) (starting_lists_none _ _ _ Hfresh) Hne Hclock)
    as (n & m & Hrun & Hsum & Hexit).
  exists n, m. split; [done|]. split; [|done].
  rewrite Hsum. cbn [length]. destruct resume; cbn [to_submit]; [|done].
  by rewrite remaining_files_nil.
Qed.

Lemma run_returns_witness :
  let out := λ _ : line, Ok tt in
  let E := quiet_env some_fail in
  let run := process_pdfs_enterprise_printing out E
               ["a.pdf"; "bad.pdf"; "c.pdf"; "gone.pdf"] None true
               default_progress_file (fresh_frame empty_world) in
  ∃ n m,
    run.2 = Ok (n, m) ∧
    n + m = length ["a.pdf"; "bad.pdf"; "c.pdf"; "gone.pdf"] ∧
    exit_status run.2 = (if decide (m = 0) then 0 else 1).
Proof.
  apply (run_returns (λ _, Ok tt) (quiet_env some_fail)
           ["a.pdf"; "bad.pdf"; "c.pdf"; "gone.pdf"] None true
           default_progress_file (fresh_frame empty_world)).
  - intros l. reflexivity.
  - apply quiet_env_no_fault.
  - apply quiet_env_delivers.
  - vm_compute. split; [reflexivity|discriminate].
  - right. reflexivity.
  - discriminate.
  - intros k Hk Heq. apply ticking_clock_inj in Heq. cbn in Hk, Heq. lia.
Defined.

(** The same run on an output that cannot write one of the paths: the
    call raises in the loop, where the coordinator above returns. *)
Example run_raises_on_a_print :
  let E := quiet_env all_succeed in
  let printing := process_pdfs_enterprise_printing no_secret E
                    ["a.pdf"; "secret.pdf"] None false default_progress_file
                    (fresh_frame empty_world) in
  let quiet := process_pdfs_enterprise E ["a.pdf"; "secret.pdf"] None false
                 default_progress_file (fresh_frame empty_world) in
  printing.2 = Raise ValueError ∧ exit_status printing.2 = 1 ∧
  quiet.2 = Ok (2, 0) ∧ exit_status quiet.2 = 0.
Proof. vm_compute. done. Qed.

(** The final checkpoint, when no write is faulty. *)
Lemma report_no_fault_checkpoint E pf t0 fr :
  no_fault E →
  files (outside (report E pf t0 fr).1) !! pf
  = Some (json_dump (progress_dict (completed_files fr) (failed_files fr)
                                   (clock E (ticks (outside fr))))).
Proof.
  intros HE. rewrite report_run. cbv zeta.
  rewrite save_csv_data_no_fault by done.
  set (w3 := (save_csv_data E (all_csv_data fr) default_csv_filename (outside fr)).1).
  assert (ticks w3 = ticks (outside fr)) as Ht by apply save_csv_data_ticks.
  rewrite (save_progress_no_fault E _ _ pf w3) by apply HE.
  cbn [fst snd files]. rewrite Ht.
  repeat case_decide; cbn [fst with_outside outside files];
    by rewrite lookup_insert_eq.
Qed.



Example no_time_elapsed_here :
  let E := Env stuck_clock (λ _, NoFault) 4 (pool_of id all_succeed) in
  let run := process_pdfs_enterprise E ["a.pdf"; "b.pdf"] None false
               default_progress_file (fresh_frame empty_world) in
  run.2 = Raise ZeroDivisionError ∧
  completed_files run.1 = ["a.pdf"; "b.pdf"] ∧
  files (outside run.1) !! default_csv_filename
    = Some (csv_text [one_page "a.pdf"; one_page "b.pdf"]).
Proof. vm_compute. done. Qed.



Example dataset_failure_here :
  let E := Env ticking_clock first_open_fails 4 (pool_of id all_succeed) in
  let run := process_pdfs_enterprise E ["a.pdf"; "b.pdf"] None false
               default_progress_file (fresh_frame empty_world) in
  run.2 = Raise OSError ∧
  completed_files run.1 = ["a.pdf"; "b.pdf"] ∧
  files (outside run.1) !! default_progress_file = None.
Proof. vm_compute. done. Qed.

(** X20. A run that returned, called again with [resume] set on the same
    paths, changes nothing but the checkpoint file: it submits nothing, it
    ends with the two lists the first run ended with, it gathers no row and
    leaves the dataset file as it is. *)
Theorem rerun_changes_nothing E pdf_paths mw mw' resume pf fr fr1 n m :
  delivers E →
  (∀ k, number_text (clock E k)) →
  pf ≠ default_csv_filename →
  process_pdfs_enterprise E pdf_paths mw resume pf fr = (fr1, Ok (n, m)) →
  let again := process_pdfs_enterprise E pdf_paths mw' true pf fr1 in
  (0 < workers E mw')%Z →
  submitted (outside again.1) = submitted (outside fr1) ∧
  completed_files again.1 = completed_files fr1 ∧
  failed_files again.1 = failed_files fr1 ∧
  all_csv_data again.1 = [] ∧
  files (outside again.1) !! default_csv_filename
    = files (outside fr1) !! default_csv_filename.
Proof.
  intros HE Hclock Hpf Hrun again Hw.
  destruct (run_ok_covers _ _ _ _ _ _ _ _ _ HE Hrun) as (_ & _ & Hin).
  destruct (run_ok_inv _ _ _ _ _ _ _ _ _ Hrun)
    as (c0 & f0 & Hstart & _ & Hfr & Hok).
  cbv zeta in Hfr, Hok.
  set (d := drained E pf c0 f0 (to_submit resume pdf_paths c0 f0) (outside fr)) in *.
  pose proof (report_loaded E pf _ d n m Hclock Hok) as Hload.
  destruct (report_locals E pf (clock E (ticks (outside fr))) d) as (Hc & Hf & _).
  rewrite <- Hfr in Hload, Hc, Hf. rewrite <- Hc, <- Hf in Hload.
  assert (remaining_files pdf_paths (completed_files fr1) (failed_files fr1) = [])
    as Hnone.
  { destruct (remaining_files _ _ _) as [|x l] eqn:Hrem; [done|]. exfalso.
    assert (x ∈ remaining_files pdf_paths (completed_files fr1) (failed_files fr1))
      as Hx by (rewrite Hrem; apply list_elem_of_here).
    apply elem_of_remaining_files in Hx as (Hx & ? & ?).
    apply Hin, elem_of_app in Hx. tauto. }
  subst again. rewrite process_pdfs_enterprise_run. cbv zeta.
  cbn [starting_lists to_submit]. rewrite Hload, Hnone.
  unfold loaded in Hload.
  destruct (load_progress pf (outside fr1)).2 as [[jc jf]|e]; [|done].
  rewrite decide_False by lia.
  set (d2 := drained E pf (completed_files fr1) (failed_files fr1) [] (outside fr1)).
  assert (d2 = entry_frame (completed_files fr1) (failed_files fr1) [] (outside fr1))
    as Hd2 by (unfold d2, drained; by rewrite (delivers_nil E HE), loop_nil).
  destruct (report_locals E pf (clock E (ticks (outside fr1))) d2) as (-> & -> & ->).
  rewrite report_submitted.
  split; [rewrite Hd2; cbn; by rewrite app_nil_r|].
  split; [by rewrite Hd2|]. split; [by rewrite Hd2|]. split; [by rewrite Hd2|].
  rewrite report_run. cbv zeta. rewrite Hd2.
  cbn [entry_frame all_csv_data save_csv_data mret prog_ret fst snd outside
       completed_files failed_files].
  destruct (save_progress E (completed_files fr1) (failed_files fr1) pf _).2 eqn:Hs;
    repeat case_decide; cbn [fst with_outside outside files];
    by rewrite save_progress_files_other.
Qed.

Lemma rerun_changes_nothing_witness :
  let E := quiet_env some_fail in
  let first := process_pdfs_enterprise E ["a.pdf"; "bad.pdf"; "gone.pdf"] None
                 false default_progress_file (fresh_frame empty_world) in
  let again := process_pdfs_enterprise E ["a.pdf"; "bad.pdf"; "gone.pdf"]
                 (Some 2%Z) true default_progress_file first.1 in
  first.2 = Ok (1, 2) ∧
  submitted (outside again.1) = submitted (outside first.1) ∧
  completed_files again.1 = completed_files first.1 ∧
  failed_files again.1 = failed_files first.1 ∧
  all_csv_data again.1 = [] ∧
  files (outside again.1) !! default_csv_filename
    = files (outside first.1) !! default_csv_filename.
Proof.
  intros E first again. split; [vm_compute; reflexivity|].
  apply (rerun_changes_nothing E ["a.pdf"; "bad.pdf"; "gone.pdf"] None (Some 2%Z)
           false default_progress_file (fresh_frame empty_world) first.1 1 2).
  - apply quiet_env_delivers.
  - apply number_text_ticking_clock.
  - discriminate.
  - vm_compute. reflexivity.
  - vm_compute. reflexivity.
Defined.
